(** * scripts/daily_blog.js: the daily blog pipeline

    A shallow embedding of the script and the properties of its
    content-to-document pipeline: naming ([getSlug] and the two file names),
    content synthesis ([generateFallbackContent], [generateContent]), the
    template and index mutations performed through cheerio inside [run], and
    the error handling of [downloadImage] and [run].

    Conventions.
    - A JavaScript string is a [string] holding its UTF-8 bytes.  The catalog,
      the templates and every literal of the script are ASCII except for three
      punctuation characters that are only ever copied.
    - A cheerio document is a forest of [node]s; a cheerio selection is the
      list of the [path]s of its elements in document order.  The parser and
      the serializer of cheerio are parameters (the class [Cheerio]); [Mini]
      is an instance for markup that is written out in full.
    - The script's effects (console, files, the HTTP download, the child
      process) are threaded through a state-and-exception monad [M]; what
      the script is given from outside is an [Env]. *)

From Stdlib Require Import String Ascii List Bool Arith Lia NArith.
Import ListNotations.
Open Scope string_scope.
Open Scope list_scope.

(* ================================================================== *)
(** ** Strings *)

Module Js.

(** The double quote and the line feed, which the template literals of the
    script contain. *)
Definition dq : string := String "034"%char EmptyString.
Definition nl : string := String "010"%char EmptyString.

Definition code (c : ascii) : N := N_of_ascii c.

Definition between (lo hi c : ascii) : bool :=
  (code lo <=? code c)%N && (code c <=? code hi)%N.

(** The character class [[a-z0-9]] of the regular expression in [getSlug]. *)
Definition isAlnum (c : ascii) : bool :=
  between "a" "z" c || between "0" "9" c.

Definition isSep (c : ascii) : bool := Ascii.eqb c "-".

(** [String.prototype.toLowerCase] on the ASCII letters.  Bytes above 127
    are kept: the case mapping of non-ASCII characters is not modelled, and
    no statement below depends on what it does to them. *)
Definition lowerChar (c : ascii) : ascii :=
  if between "A" "Z" c then ascii_of_N (code c + 32) else c.

Fixpoint toLowerCase (s : string) : string :=
  match s with
  | EmptyString => EmptyString
  | String c r => String (lowerChar c) (toLowerCase r)
  end.

(** [s.replace(/[^a-z0-9]+/g, '-')]: the scan copies the characters of the
    class and emits one separator when it enters a run of other characters;
    [inRun] says that the previous character was part of such a run. *)
Fixpoint replaceRuns (inRun : bool) (s : string) : string :=
  match s with
  | EmptyString => EmptyString
  | String c r =>
      if isAlnum c then String c (replaceRuns false r)
      else if inRun then replaceRuns true r
      else String "-" (replaceRuns true r)
  end.

(** [s.replace(/(^-|-$)+/g, '')]: without the [m] flag [^] holds at index 0
    only and [$] at the end only, so an iteration of the group consumes a
    separator exactly when it is the first or the last character of the
    subject; every other character is copied.  [atStart] says that the scan
    is at index 0. *)
Fixpoint stripEdges (atStart : bool) (s : string) : string :=
  match s with
  | EmptyString => EmptyString
  | String c r =>
      if isSep c && (atStart || String.eqb r EmptyString)
      then stripEdges false r
      else String c (stripEdges false r)
  end.

(** [str.split('T')[0]]: the part before the first ['T']. *)
Fixpoint beforeT (s : string) : string :=
  match s with
  | EmptyString => EmptyString
  | String c r => if Ascii.eqb c "T" then EmptyString else String c (beforeT r)
  end.

(** [s.includes(t)] *)
Fixpoint includes (s t : string) : bool :=
  String.prefix t s ||
  match s with
  | EmptyString => false
  | String _ r => includes r t
  end.

(** Character-level predicates used to state the properties of slugs. *)
Fixpoint all (p : ascii -> bool) (s : string) : bool :=
  match s with
  | EmptyString => true
  | String c r => p c && all p r
  end.

Definition startsWithSep (s : string) : bool :=
  match s with
  | String c _ => isSep c
  | EmptyString => false
  end.

Fixpoint endsWithSep (s : string) : bool :=
  match s with
  | EmptyString => false
  | String c EmptyString => isSep c
  | String _ r => endsWithSep r
  end.

Fixpoint hasDoubleSep (s : string) : bool :=
  match s with
  | String c (String d _ as r) => (isSep c && isSep d) || hasDoubleSep r
  | _ => false
  end.

End Js.

(* ================================================================== *)
(** ** Naming *)

(** [getSlug], line 54. *)
Definition getSlug (title : string) : string :=
  Js.stripEdges true (Js.replaceRuns false (Js.toLowerCase title)).

(** The two file names computed in [run], lines 157 and 158. *)
Definition imageFilename (slug dateISO : string) : string :=
  ("blog-" ++ slug ++ "-" ++ dateISO ++ ".jpg")%string.

Definition blogFilename (slug dateISO : string) : string :=
  (dateISO ++ "-" ++ slug ++ ".html")%string.

(** *** The slug as the specification words it

    "lowercase, replace every maximal run of characters outside [[a-z0-9]]
    with a single separator, then strip leading/trailing separators".  The
    run is skipped as a whole by [dropRun], and all the separators at either
    end are stripped. *)
Module SlugSpec.

Fixpoint dropRun (s : string) : string :=
  match s with
  | String c r => if Js.isAlnum c then s else dropRun r
  | EmptyString => EmptyString
  end.

(** [fuel] bounds the number of characters still to be read. *)
Fixpoint collapse (fuel : nat) (s : string) : string :=
  match fuel, s with
  | S k, String c r =>
      if Js.isAlnum c then String c (collapse k r)
      else String "-" (collapse k (dropRun r))
  | _, _ => EmptyString
  end.

Fixpoint stripLeading (s : string) : string :=
  match s with
  | String c r => if Js.isSep c then stripLeading r else s
  | EmptyString => EmptyString
  end.

Fixpoint stripTrailing (s : string) : string :=
  match s with
  | EmptyString => EmptyString
  | String c r =>
      match stripTrailing r with
      | EmptyString => if Js.isSep c then EmptyString else String c EmptyString
      | r' => String c r'
      end
  end.

Definition slug (title : string) : string :=
  let lowered := Js.toLowerCase title in
  stripTrailing (stripLeading (collapse (String.length lowered) lowered)).

End SlugSpec.

(* ================================================================== *)
(** ** Documents

    The tree that cheerio builds: text, comments, directives (the doctype)
    and elements with their attributes in source order.  A document is the
    list of the children of its root. *)

#[warnings="-register-all"] Inductive node : Type :=
| Text (data : string)
| Comment (data : string)
| Directive (data : string)
| Element (name : string) (attribs : list (string * string)) (children : list node).

Definition document : Type := list node.

(** The position of a node: the child indices from the root down. *)
Definition path : Type := list nat.

(** The part of cheerio that turns text into trees and back.  It is a
    library, not code of the script, so the development is parametric in it:
    [cheerio_load] is [cheerio.load(markup)], [parseMarkup ctx markup] is the
    fragment parser that [append], [prepend] and [html] run on a string
    argument ([ctx] is the name of the context element, which only [html]
    supplies), and [serialize] is [$.html()]. *)
Class Cheerio : Type := {
  cheerio_load : string -> document;
  parseMarkup : option string -> string -> list node;
  serialize : document -> string
}.

Module Dom.

Definition children (n : node) : list node :=
  match n with
  | Element _ _ cs => cs
  | _ => []
  end.

Definition isElement (n : node) : bool :=
  match n with
  | Element _ _ _ => true
  | _ => false
  end.

(** [el.children()] of cheerio: the element children. *)
Definition elements (ns : list node) : list node := filter isElement ns.

Definition withChildren (f : list node -> list node) (n : node) : node :=
  match n with
  | Element nm at_ cs => Element nm at_ (f cs)
  | _ => n
  end.

(** *** Attributes *)

Fixpoint attr (k : string) (at_ : list (string * string)) : option string :=
  match at_ with
  | [] => None
  | (k', v) :: r => if String.eqb k' k then Some v else attr k r
  end.

(** [el.attribs[k] = v]: an existing key keeps its place. *)
Fixpoint setAttr (k v : string) (at_ : list (string * string)) : list (string * string) :=
  match at_ with
  | [] => [(k, v)]
  | (k', v') :: r => if String.eqb k' k then (k, v) :: r else (k', v') :: setAttr k v r
  end.

Definition isSpace (c : ascii) : bool :=
  match Js.code c with
  | 9%N | 10%N | 12%N | 13%N | 32%N => true
  | _ => false
  end.

(** The whitespace-separated tokens of an attribute value; [cur] is the
    token being read. *)
Fixpoint tokensFrom (cur : string) (s : string) : list string :=
  match s with
  | EmptyString => match cur with EmptyString => [] | _ => [cur] end
  | String c r =>
      if isSpace c
      then match cur with EmptyString => tokensFrom EmptyString r | _ => cur :: tokensFrom EmptyString r end
      else tokensFrom (cur ++ String c EmptyString)%string r
  end.

Definition tokens (s : string) : list string := tokensFrom EmptyString s.

(** *** Simple selectors: predicates on one node *)

Definition isTag (t : string) (n : node) : bool :=
  match n with
  | Element nm _ _ => String.eqb nm t
  | _ => false
  end.

Definition attrIs (k v : string) (n : node) : bool :=
  match n with
  | Element _ at_ _ => match attr k at_ with Some v' => String.eqb v' v | None => false end
  | _ => false
  end.

Definition hasClass (c : string) (n : node) : bool :=
  match n with
  | Element _ at_ _ =>
      match attr "class" at_ with
      | Some v => existsb (String.eqb c) (tokens v)
      | None => false
      end
  | _ => false
  end.

Definition hasClasses (cs : list string) (n : node) : bool :=
  forallb (fun c => hasClass c n) cs.

(** *** Positions *)

Fixpoint get (ns : list node) (p : path) : option node :=
  match p with
  | [] => None
  | i :: q =>
      match nth_error ns i with
      | None => None
      | Some n => match q with [] => Some n | _ => get (children n) q end
      end
  end.

Fixpoint updateNth (f : node -> node) (i : nat) (ns : list node) : list node :=
  match ns, i with
  | [], _ => []
  | n :: r, O => f n :: r
  | n :: r, S j => n :: updateNth f j r
  end.

Fixpoint removeNth (i : nat) (ns : list node) : list node :=
  match ns, i with
  | [], _ => []
  | _ :: r, O => r
  | n :: r, S j => n :: removeNth j r
  end.

(** Apply [f] to the node at [p]; a path that leads nowhere changes
    nothing. *)
Fixpoint updateAt (f : node -> node) (p : path) (ns : list node) : list node :=
  match p with
  | [] => ns
  | [i] => updateNth f i ns
  | i :: q => updateNth (withChildren (updateAt f q)) i ns
  end.

Fixpoint removeAt (p : path) (ns : list node) : list node :=
  match p with
  | [] => ns
  | [i] => removeNth i ns
  | i :: q => updateNth (withChildren (removeAt q)) i ns
  end.

Fixpoint isPrefix (p q : path) : bool :=
  match p, q with
  | [], _ => true
  | i :: p', j :: q' => Nat.eqb i j && isPrefix p' q'
  | _ :: _, [] => false
  end.

(** [p] is a proper ancestor of [q]. *)
Definition above (p q : path) : bool :=
  isPrefix p q && Nat.ltb (List.length p) (List.length q).

Fixpoint stripPrefix (p q : path) : option path :=
  match p, q with
  | [], _ => Some q
  | i :: p', j :: q' => if Nat.eqb i j then stripPrefix p' q' else None
  | _ :: _, [] => None
  end.

Definition parentPath (p : path) : path := removelast p.

(** *** Document order *)

Definition under (i : nat) (e : path * node) : path * node := (i :: fst e, snd e).

(** A node and its descendants in document order, with the paths relative
    to the node. *)
Fixpoint walkNode (n : node) : list (path * node) :=
  ([], n) ::
  match n with
  | Element _ _ cs =>
      (fix go (i : nat) (l : list node) : list (path * node) :=
         match l with
         | [] => []
         | c :: r => map (under i) (walkNode c) ++ go (S i) r
         end) 0 cs
  | _ => []
  end.

Fixpoint walkFrom (i : nat) (l : list node) : list (path * node) :=
  match l with
  | [] => []
  | c :: r => map (under i) (walkNode c) ++ walkFrom (S i) r
  end.

Definition walk (ns : list node) : list (path * node) := walkFrom 0 ns.

(** [$(sel)] for a simple selector: the matching nodes in document order. *)
Definition select (sel : node -> bool) (ns : list node) : list path :=
  map fst (filter (fun e => sel (snd e)) (walk ns)).

(** [$(ps).find(sel)]: the matching proper descendants of the nodes at
    [ps], in document order, each once. *)
Definition find (ps : list path) (sel : node -> bool) (ns : list node) : list path :=
  map fst (filter (fun e => sel (snd e) && existsb (fun p => above p (fst e)) ps) (walk ns)).

(** The paths of [ps] that have no proper ancestor in [ps]. *)
Definition outermost (ps : list path) : list path :=
  filter (fun p => negb (existsb (fun q => above q p) ps)) ps.

(** *** Mutation *)

Definition setText (s : string) : node -> node := withChildren (fun _ => [Text s]).
Definition empty : node -> node := withChildren (fun _ => []).
Definition append (new : list node) : node -> node := withChildren (fun cs => cs ++ new).
Definition prepend (new : list node) : node -> node := withChildren (fun cs => new ++ cs).

(** [$(ps).each(f)] for an [f] that touches the node it is given only.
    The paths are in document order and the last one is served first, so a
    node is updated before its ancestors and the remaining paths still
    lead to the nodes they were selected at. *)
Definition each (ps : list path) (f : node -> node) (ns : list node) : list node :=
  fold_right (updateAt f) ns ps.

(** [$(sel).text(s)] for a simple selector: every matching element gets
    the one text child; what was below it leaves the document with its
    old children. *)
Fixpoint textNode (sel : node -> bool) (s : string) (n : node) : node :=
  match n with
  | Element nm at_ cs =>
      if sel n then Element nm at_ [Text s]
      else Element nm at_ (map (textNode sel s) cs)
  | _ => n
  end.

Definition textAll (sel : node -> bool) (s : string) (ns : list node) : list node :=
  map (textNode sel s) ns.

(** [$(sel).attr(k, v)] for a simple selector. *)
Fixpoint attrNode (sel : node -> bool) (k v : string) (n : node) : node :=
  match n with
  | Element nm at_ cs =>
      Element nm (if sel n then setAttr k v at_ else at_) (map (attrNode sel k v) cs)
  | _ => n
  end.

Definition attrAll (sel : node -> bool) (k v : string) (ns : list node) : list node :=
  map (attrNode sel k v) ns.

(** *** Siblings *)

(** The children list that holds the node at [p]. *)
Definition siblings (ns : list node) (p : path) : list node :=
  match parentPath p with
  | [] => ns
  | q => match get ns q with Some n => children n | None => [] end
  end.

(** The nearest element before index [i], scanning [l] from the left;
    [seen] is the last element passed. *)
Fixpoint lastElementBefore (seen : option node) (i : nat) (l : list node) : option node :=
  match i, l with
  | O, _ => seen
  | S j, n :: r => lastElementBefore (if isElement n then Some n else seen) j r
  | S _, [] => seen
  end.

Definition prevElement (ns : list node) (p : path) : option node :=
  lastElementBefore None (last p 0) (siblings ns p).

(** The index of the first element after index [i], [l] being the list
    from index [k] on. *)
Fixpoint firstElementAfter (i k : nat) (l : list node) : option nat :=
  match l with
  | [] => None
  | n :: r => if Nat.ltb i k && isElement n then Some k else firstElementAfter i (S k) r
  end.

Definition nextElementPath (ns : list node) (p : path) : option path :=
  match firstElementAfter (last p 0) 0 (siblings ns p) with
  | Some k => Some (parentPath p ++ [k])
  | None => None
  end.

End Dom.

(* ================================================================== *)
(** ** Content synthesis *)

Record GeneratedContent : Type := {
  title : string;
  content : string;
  metaDescription : string
}.

Definition TOPICS : list string := [
  "AI tools for productivity";
  "Web development best practices";
  "UI/UX design trends 2025";
  "Cybersecurity tips for developers";
  "Programming career tips";
  "Freelancing success strategies";
  "Tech startup ecosystem";
  "Automation in software development";
  "Cloud computing trends";
  "Data privacy in the age of AI";
  "The Rise of Edge Computing";
  "Blockchain beyond Crypto";
  "Sustainable Tech & Green Coding";
  "Zero Trust Security Architecture";
  "Quantum Computing: A Beginner's Guide";
  "Low-Code/No-Code Development Platforms";
  "The Metaverse: Hype vs Reality";
  "5G and the Future of Connectivity";
  "Ethical AI and Bias in Algorithms";
  "DevOps vs MLOps: What's the Difference?"
].

Section Templates.

Import Js.
Local Open Scope string_scope.

(** The body of the smart template, lines 70 to 98, line by line. *)
Definition fallbackBody (topic : string) : string :=
  nl ++
    "            <p class=" ++ dq ++ "text-gray-700 mb-4" ++ dq ++ ">" ++ nl ++
    "                In the rapidly evolving world of technology, <strong>" ++ topic ++ "</strong> has emerged as a key area of focus for professionals and businesses alike. " ++ nl ++
    "                As we move further into the digital age, understanding the nuances of this subject is becoming increasingly critical." ++ nl ++
    "            </p>" ++ nl ++
    "            " ++ nl ++
    "            <h3 class=" ++ dq ++ "text-xl font-semibold text-gray-800 mb-3" ++ dq ++ ">Why " ++ topic ++ " Matters Now</h3>" ++ nl ++
    "            <p class=" ++ dq ++ "text-gray-700 mb-4" ++ dq ++ ">" ++ nl ++
    "                The shift towards " ++ topic ++ " is not just a trend; it's a fundamental change in how we approach problem-solving and efficiency." ++ nl ++
    "                Experts predict that this field will continue to grow, offering new opportunities for innovation and optimization." ++ nl ++
    "                Whether you are a developer, a designer, or a business owner, staying updated with these changes is essential." ++ nl ++
    "            </p>" ++ nl ++
    nl ++
    "            <h3 class=" ++ dq ++ "text-xl font-semibold text-gray-800 mb-3" ++ dq ++ ">Key Benefits and Trends</h3>" ++ nl ++
    "            <ul class=" ++ dq ++ "list-disc pl-5 text-gray-700 mb-4 space-y-2" ++ dq ++ ">" ++ nl ++
    "                <li><strong>Efficiency:</strong> Streamlining workflows to save time and resources.</li>" ++ nl ++
    "                <li><strong>Scalability:</strong> Building systems that can grow with demand.</li>" ++ nl ++
    "                <li><strong>Innovation:</strong> leveraging new tools to solve old problems in creative ways.</li>" ++ nl ++
    "            </ul>" ++ nl ++
    nl ++
    "            <p class=" ++ dq ++ "text-gray-700 mb-4" ++ dq ++ ">" ++ nl ++
    "                To stay ahead, it is crucial to adopt a continuous learning mindset. Experiment with new tools, read documentation, and engage with the community." ++ nl ++
    "                The future belongs to those who adapt, and " ++ topic ++ " is a great place to start your journey." ++ nl ++
    "            </p>" ++ nl ++
    nl ++
    "            <p class=" ++ dq ++ "text-gray-700 mb-4" ++ dq ++ ">" ++ nl ++
    "                Start exploring <strong>" ++ topic ++ "</strong> today and unlock new potentials for your career or business." ++ nl ++
    "            </p>" ++ nl ++
    "        ".

(** [generateFallbackContent], line 67. *)
Definition generateFallbackContent (topic : string) : GeneratedContent :=
  {| title := "The Future of " ++ topic ++ ": What You Need to Know";
     content := fallbackBody topic;
     metaDescription :=
       "Discover the latest trends and insights about " ++ topic ++
       ". Learn why it matters and how to leverage it for success in the modern tech landscape." |}.

(** The markup that [run] hands to cheerio: the breadcrumb of line 174, the
    date paragraph of line 224 with the byline of line 228, and the index
    card of lines 238 to 251. *)
Definition breadcrumbHtml (title : string) : string :=
  "<a href=" ++ dq ++ "index.html" ++ dq ++ " class=" ++ dq ++ "hover:text-blue-400" ++ dq ++ ">Home</a> <span class=" ++ dq ++ "mx-2 text-blue-400" ++ dq ++ ">></span> <a href=" ++ dq ++ "blogs.html" ++ dq ++ " class=" ++ dq ++ "hover:text-blue-400" ++ dq ++ ">Blogs</a> <span class=" ++ dq ++ "mx-2 text-blue-400" ++ dq ++ ">></span> <span class=" ++ dq ++ "text-gray-200" ++ dq ++ ">" ++ title ++ "</span>".

Definition dateParagraph (dateDisplay : string) : string :=
  "<p class=" ++ dq ++ "text-gray-400 text-sm mb-6" ++ dq ++ ">" ++ dateDisplay ++ "</p>".

Definition byline (dateDisplay : string) : string :=
  dateDisplay ++ " • By AutoBlog Bot".

Definition newCardHtml (imageFilename blogFilename title metaDescription dateDisplay : string) : string :=
  nl ++
    "            <!-- BLOG CARD -->" ++ nl ++
    "            <div class=" ++ dq ++ "bg-white rounded-lg shadow hover:scale-105 transition overflow-hidden" ++ dq ++ ">" ++ nl ++
    "                <img src=" ++ dq ++ "./" ++ imageFilename ++ dq ++ " class=" ++ dq ++ "w-full h-48 object-cover" ++ dq ++ ">" ++ nl ++
    "                <div class=" ++ dq ++ "p-6" ++ dq ++ ">" ++ nl ++
    "                    <h4 class=" ++ dq ++ "text-xl font-semibold mb-2" ++ dq ++ ">" ++ title ++ "</h4>" ++ nl ++
    "                    <p class=" ++ dq ++ "text-gray-600 text-sm mb-4" ++ dq ++ ">" ++ nl ++
    "                        " ++ metaDescription ++ nl ++
    "                    </p>" ++ nl ++
    "                    <p class=" ++ dq ++ "text-gray-400 text-xs mb-2" ++ dq ++ ">" ++ dateDisplay ++ "</p>" ++ nl ++
    "                    <a href=" ++ dq ++ "./" ++ blogFilename ++ dq ++ " class=" ++ dq ++ "text-blue-600 hover:underline" ++ dq ++ ">Read More →</a>" ++ nl ++
    "                </div>" ++ nl ++
    "            </div>" ++ nl ++
    "        ".

End Templates.

(** *** The smart template as the specification words it

    "A fixed structural skeleton with the topic substring interpolated at
    each marked position": a skeleton is the list of the fixed parts, and
    the topic is written between every two of them. *)
Module FallbackSpec.

Import Js.
Local Open Scope string_scope.

Fixpoint interpolate (parts : list string) (topic : string) : string :=
  match parts with
  | [] => EmptyString
  | [part] => part
  | part :: rest => part ++ topic ++ interpolate rest topic
  end.

(** The title, line 69: one marked position. *)
Definition titleSkeleton : list string :=
  [ ("The Future of ") ;
    (": What You Need to Know") ].

(** The body, lines 70 to 98: five marked positions. *)
Definition bodySkeleton : list string :=
  [ (nl ++
    "            <p class=" ++ dq ++ "text-gray-700 mb-4" ++ dq ++ ">" ++ nl ++
    "                In the rapidly evolving world of technology, <strong>") ;
    ("</strong> has emerged as a key area of focus for professionals and businesses alike. " ++ nl ++
    "                As we move further into the digital age, understanding the nuances of this subject is becoming increasingly critical." ++ nl ++
    "            </p>" ++ nl ++
    "            " ++ nl ++
    "            <h3 class=" ++ dq ++ "text-xl font-semibold text-gray-800 mb-3" ++ dq ++ ">Why ") ;
    (" Matters Now</h3>" ++ nl ++
    "            <p class=" ++ dq ++ "text-gray-700 mb-4" ++ dq ++ ">" ++ nl ++
    "                The shift towards ") ;
    (" is not just a trend; it's a fundamental change in how we approach problem-solving and efficiency." ++ nl ++
    "                Experts predict that this field will continue to grow, offering new opportunities for innovation and optimization." ++ nl ++
    "                Whether you are a developer, a designer, or a business owner, staying updated with these changes is essential." ++ nl ++
    "            </p>" ++ nl ++
    nl ++
    "            <h3 class=" ++ dq ++ "text-xl font-semibold text-gray-800 mb-3" ++ dq ++ ">Key Benefits and Trends</h3>" ++ nl ++
    "            <ul class=" ++ dq ++ "list-disc pl-5 text-gray-700 mb-4 space-y-2" ++ dq ++ ">" ++ nl ++
    "                <li><strong>Efficiency:</strong> Streamlining workflows to save time and resources.</li>" ++ nl ++
    "                <li><strong>Scalability:</strong> Building systems that can grow with demand.</li>" ++ nl ++
    "                <li><strong>Innovation:</strong> leveraging new tools to solve old problems in creative ways.</li>" ++ nl ++
    "            </ul>" ++ nl ++
    nl ++
    "            <p class=" ++ dq ++ "text-gray-700 mb-4" ++ dq ++ ">" ++ nl ++
    "                To stay ahead, it is crucial to adopt a continuous learning mindset. Experiment with new tools, read documentation, and engage with the community." ++ nl ++
    "                The future belongs to those who adapt, and ") ;
    (" is a great place to start your journey." ++ nl ++
    "            </p>" ++ nl ++
    nl ++
    "            <p class=" ++ dq ++ "text-gray-700 mb-4" ++ dq ++ ">" ++ nl ++
    "                Start exploring <strong>") ;
    ("</strong> today and unlock new potentials for your career or business." ++ nl ++
    "            </p>" ++ nl ++
    "        ") ].

(** The meta description, line 99: one marked position. *)
Definition metaSkeleton : list string :=
  [ ("Discover the latest trends and insights about ") ;
    (". Learn why it matters and how to leverage it for success in the modern tech landscape.") ].

End FallbackSpec.

(* ================================================================== *)
(** ** Template and index mutation

    The cheerio calls of [run], as functions on documents.  [updateTemplate]
    is the block under the comment "Update Template" (lines 172 to 182),
    [replaceContent] the block under "Replace Content" (lines 190 to 228);
    [renderPost] is the two in sequence, the mutation the specification
    calls by that name. *)

Module Selector.

Import Dom.

(** [section.max-w-4xl.mx-auto.px-6.py-12.bg-white.rounded-xl.shadow] *)
Definition contentSection (n : node) : bool :=
  isTag "section" n &&
  hasClasses ["max-w-4xl"; "mx-auto"; "px-6"; "py-12"; "bg-white"; "rounded-xl"; "shadow"] n.

(** [.grid.md\:grid-cols-3.gap-10] *)
Definition gridContainer (n : node) : bool :=
  isElement n && hasClasses ["grid"; "md:grid-cols-3"; "gap-10"] n.

(** [p.text-gray-400] *)
Definition dateLine (n : node) : bool :=
  isTag "p" n && hasClass "text-gray-400" n.

(** [img[alt="..."]] *)
Definition imgAlt (alt : string) (n : node) : bool :=
  isTag "img" n && attrIs "alt" alt n.

(** [a[href="blogs.html"]] *)
Definition blogsLink (n : node) : bool :=
  isTag "a" n && attrIs "href" "blogs.html" n.

End Selector.

Section Mutation.

Context {cheerio : Cheerio}.
Import Dom.

Definition optList {A : Type} (o : option A) : list A :=
  match o with
  | Some a => [a]
  | None => []
  end.

Definition pathEqDec : forall p q : path, {p = q} + {p <> q} :=
  list_eq_dec Nat.eq_dec.

(** [el.html(markup)]: the children become the markup parsed in the
    context of the element. *)
Definition setHtml (markup : string) (n : node) : node :=
  match n with
  | Element nm at_ _ => Element nm at_ (parseMarkup (Some nm) markup)
  | _ => n
  end.

(** The elements reached by
    [$('.text-blue-500 + span').parent().next().find('a[href="blogs.html"]').parent()]:
    the spans whose previous element sibling carries the class, their
    parents (the document root is nobody's parent), the next element
    sibling of each, the links below those, and the parents of the links. *)
Definition breadcrumbTargets (d : document) : list path :=
  let spans :=
    map fst
      (filter
         (fun e => isTag "span" (snd e) &&
                   match prevElement d (fst e) with
                   | Some m => hasClass "text-blue-500" m
                   | None => false
                   end)
         (walk d)) in
  let parents :=
    nodup pathEqDec
      (filter (fun p => negb (Nat.eqb (List.length p) 0)) (map parentPath spans)) in
  let nexts :=
    nodup pathEqDec (flat_map (fun p => optList (nextElementPath d p)) parents) in
  let links := find nexts Selector.blogsLink d in
  nodup pathEqDec (map parentPath links).

(** [$(sel).first().text(s)] *)
Definition textFirst (sel : node -> bool) (s : string) (d : document) : document :=
  each (optList (hd_error (select sel d))) (setText s) d.

Definition updateTemplate (d : document) (blogData : GeneratedContent)
    (imageFilename : string) : document :=
  let d := textAll (isTag "title") (title blogData ++ " - Nexora Technologies")%string d in
  let d := textAll (isTag "h1") (title blogData) d in
  let d := each (outermost (breadcrumbTargets d)) (setHtml (breadcrumbHtml (title blogData))) d in
  let d := attrAll (Selector.imgAlt "Blog Cover") "src" ("./" ++ imageFilename)%string d in
  let d := textFirst (isTag "h2") (title blogData) d in
  attrAll (Selector.imgAlt "AI Integration Blog") "src" ("./" ++ imageFilename)%string d.

(** A node that [append] is about to move, as a list of no or one node:
    the node at [self].  If the node at [other] lies inside it, that one is
    taken out, since both are moved and each leaves its old parent when it
    is. *)
Definition detached (d : document) (self other : option path) : list node :=
  match self with
  | None => []
  | Some p =>
      match get d p with
      | None => []
      | Some n =>
          match other with
          | None => [n]
          | Some q =>
              match stripPrefix p q with
              | Some (i :: r) => [withChildren (removeAt (i :: r)) n]
              | _ => [n]
              end
          end
      end
  end.

(** Lines 190 to 228.  [dateTag] and [newContentHTML] of the script are
    computed and never used, and are left out.  Emptying a container
    detaches the containers nested in it, so the mutations reach the
    document through the outermost ones.  Where several containers match,
    cheerio moves the preserved nodes into the last and clones them into
    the others; a tree of values has no node identity and every container
    receives the same values. *)
Definition replaceContent (d : document) (blogData : GeneratedContent)
    (dateDisplay : string) : document :=
  let contentSection := select Selector.contentSection d in
  let heroImg := hd_error (find contentSection (isTag "img") d) in
  let mainTitle := hd_error (find contentSection (isTag "h2") d) in
  let here := outermost contentSection in
  let d1 := each here empty d in
  let d2 := each here (append (detached d heroImg mainTitle)) d1 in
  let d3 := each here (append (detached d mainTitle heroImg)) d2 in
  let d4 := each here (append (parseMarkup None (content blogData))) d3 in
  let d5 := each here (append (parseMarkup None (dateParagraph dateDisplay))) d4 in
  each here (withChildren (textAll Selector.dateLine (byline dateDisplay))) d5.

Definition renderPost (template : document) (blogData : GeneratedContent)
    (imageFilename dateDisplay : string) : document :=
  replaceContent (updateTemplate template blogData imageFilename) blogData dateDisplay.

(** The prepend of line 256: every grid container receives the parsed
    card in front of its children. *)
Definition prependCard (index : document) (cardHtml : string) : document :=
  each (select Selector.gridContainer index) (prepend (parseMarkup None cardHtml)) index.

End Mutation.

(* ================================================================== *)
(** ** Effects

    What the script does to the world, in the order in which it does it, and
    the files as they stand.  An exception is a JavaScript [Error], of which
    the script only reads the message. *)

Record error : Type := { message : string }.

Inductive effect : Type :=
| ConsoleLog (line : string)
| ConsoleError (line : string)
| AppendFile (file data : string)
| WriteFile (file data : string)
| HttpGet (url : string)
| Exec (command cwd : string).

Record state : Type := {
  files : string -> option string;
  trace : list effect
}.

Inductive outcome (A : Type) : Type :=
| Returned (a : A)
| Thrown (e : error).

Arguments Returned {A} a.
Arguments Thrown {A} e.

Definition M (A : Type) : Type := state -> outcome A * state.

Definition ret {A : Type} (a : A) : M A := fun s => (Returned a, s).

Definition bind {A B : Type} (m : M A) (k : A -> M B) : M B :=
  fun s =>
    match m s with
    | (Returned a, s') => k a s'
    | (Thrown e, s') => (Thrown e, s')
    end.

Definition throw {A : Type} (e : error) : M A := fun s => (Thrown e, s).

(** [try { body } catch (e) { handler(e) }] *)
Definition tryCatch {A : Type} (body : M A) (handler : error -> M A) : M A :=
  fun s =>
    match body s with
    | (Returned a, s') => (Returned a, s')
    | (Thrown e, s') => handler e s'
    end.

Declare Scope monad_scope.
Delimit Scope monad_scope with monad.
Notation "x <- m ;; k" := (bind m (fun x => k))
  (at level 61, m at next level, right associativity) : monad_scope.
Notation "m ;; k" := (bind m (fun _ => k))
  (at level 61, right associativity) : monad_scope.
Open Scope monad_scope.

Definition emit (e : effect) : M unit :=
  fun s => (Returned tt, {| files := files s; trace := trace s ++ [e] |}).

Definition store (file data : string) : M unit :=
  fun s => (Returned tt,
            {| files := fun f => if String.eqb f file then Some data else files s f;
               trace := trace s |}).

Definition fileContents (file : string) : M (option string) :=
  fun s => (Returned (files s file), s).

(** What the script is given from outside: where it is installed, the
    environment variable, the random draw, the clock, and how the two
    external services answer. *)
Inductive imageService : Type :=
| ImageSaved (bytes : string)      (* the request succeeds and the stream is written *)
| RequestFails (e : error)         (* the promise of axios rejects *)
| StreamFails (e : error).         (* the writer emits 'error' *)

Inductive gitResult : Type :=
| GitDone (stdout : string)
| GitFails (e : error).

Record Env : Type := {
  REPO_ROOT : string;
  OPENAI_API_KEY : option string;
  randomIndex : nat;                 (* Math.floor(Math.random() * TOPICS.length) *)
  nowISO : string;                   (* new Date().toISOString() *)
  nowDisplay : string;               (* toLocaleDateString('en-US', ...) *)
  imageAnswer : imageService;
  gitAnswer : gitResult
}.

Section Script.

Context {cheerio : Cheerio}.
Variable env : Env.
Import Js.
Local Open Scope string_scope.

Definition pathJoin (dir name : string) : string := dir ++ "/" ++ name.

Definition BLOGS_INDEX_PATH : string := pathJoin (REPO_ROOT env) "blogs.html".
Definition BLOG_TEMPLATE_PATH : string := pathJoin (REPO_ROOT env) "blog-ai.html".
Definition LOG_FILE_PATH : string := pathJoin (pathJoin (REPO_ROOT env) "logs") "blog-error.txt".
Definition IMAGE_DIR : string := REPO_ROOT env.

(** *** The Node functions the script calls

    Reading a file that does not exist throws; writing and appending are
    taken to succeed. *)

Definition consoleLog (line : string) : M unit := emit (ConsoleLog line).
Definition consoleError (line : string) : M unit := emit (ConsoleError line).

Definition readFileSync (file : string) : M string :=
  o <- fileContents file ;;
  match o with
  | Some data => ret data
  | None => throw {| message := "ENOENT: no such file or directory, open '" ++ file ++ "'" |}
  end.

Definition writeFileSync (file data : string) : M unit :=
  emit (WriteFile file data) ;; store file data.

Definition appendFileSync (file data : string) : M unit :=
  o <- fileContents file ;;
  emit (AppendFile file data) ;;
  store file (match o with Some old => old ++ data | None => data end).

Definition hexDigit (n : N) : ascii :=
  if (n <? 10)%N then ascii_of_N (48 + n) else ascii_of_N (55 + n).

Definition unreserved (c : ascii) : bool :=
  between "a" "z" c || between "A" "Z" c || between "0" "9" c ||
  existsb (Ascii.eqb c) ["-"; "_"; "."; "!"; "~"; "*"; "'"; "("; ")"]%char.

Fixpoint encodeURIComponent (s : string) : string :=
  match s with
  | EmptyString => EmptyString
  | String c r =>
      if unreserved c then String c (encodeURIComponent r)
      else String "%" (String (hexDigit (code c / 16)) (String (hexDigit (code c mod 16))
             (encodeURIComponent r)))
  end.

(** *** The functions of the script *)

(** [logError], line 43. *)
Definition logError (msg : string) : M unit :=
  let timestamp := nowISO env in
  let logMessage := "[" ++ timestamp ++ "] ERROR: " ++ msg ++ nl in
  consoleError logMessage ;;
  appendFileSync LOG_FILE_PATH logMessage.

(** [getRandomTopic], line 50.  The index is below the length of the
    catalog. *)
Definition getRandomTopic : string :=
  nth (randomIndex env mod List.length TOPICS) TOPICS EmptyString.

(** [getFormattedDate], line 58: the pair of [iso] and [display]. *)
Definition getFormattedDate : string * string :=
  (beforeT (nowISO env), nowDisplay env).

(** [!apiKey] *)
Definition noKey (k : option string) : bool :=
  match k with
  | None => true
  | Some EmptyString => true
  | Some _ => false
  end.

(** [generateContent], line 103, with the statement of the [try] block
    that produces the content as the parameter [service]. *)
Definition generateContentVia (service : string -> M GeneratedContent)
    (topic : string) : M GeneratedContent :=
  let apiKey := OPENAI_API_KEY env in
  if noKey apiKey then
    consoleLog "No OpenAI API Key found. Using Smart Template." ;;
    ret (generateFallbackContent topic)
  else
    tryCatch
      (consoleLog "Generating content via OpenAI API..." ;;
       service topic)
      (fun e =>
         logError ("OpenAI API failed: " ++ message e ++ ". Using fallback.") ;;
         ret (generateFallbackContent topic)).

(** In the script that statement is [return generateFallbackContent(topic)],
    line 118: the place of the call of the generation service holds a
    comment. *)
Definition generateContent (topic : string) : M GeneratedContent :=
  generateContentVia (fun t => ret (generateFallbackContent t)) topic.

(** The request of line 130.  It answers with the stream, here the
    computation that pipes it into a file: that one writes the image, or
    fails when the writer does. *)
Definition axiosGet (url : string) : M (string -> M unit) :=
  emit (HttpGet url) ;;
  match imageAnswer env with
  | RequestFails e => throw e
  | ImageSaved bytes => ret (fun outputPath => writeFileSync outputPath bytes)
  | StreamFails e => ret (fun _ => throw e)
  end.

(** The address of line 126. *)
Definition imageUrl (topic : string) : string :=
  "https://image.pollinations.ai/prompt/technological%20" ++ encodeURIComponent topic ++
  "%20minimalist%20modern%20web%20design%20high%20quality".

(** [downloadImage], line 125.  The promise of line 136 is returned from
    inside the [try] and not awaited there, so its rejection passes the
    [catch] of line 142 by and reaches the caller unlogged. *)
Definition downloadImage (topic filename : string) : M unit :=
  let outputPath := pathJoin IMAGE_DIR filename in
  promise <-
    tryCatch
      (pipeTo <- axiosGet (imageUrl topic) ;;
       ret (pipeTo outputPath))
      (fun e =>
         logError ("Image download failed: " ++ message e) ;;
         throw e) ;;
  promise.

(** The index update of lines 254 to 259, which the specification calls
    [insertEntry]. *)
Definition insertEntry (index : document) (cardHtml : string) : M document :=
  let gridContainer := Dom.select Selector.gridContainer index in
  if Nat.eqb (List.length gridContainer) 0 then
    logError "Could not find blog grid container in blogs.html" ;;
    ret index
  else
    ret (prependCard index cardHtml).

(** Step 3 of [run], "Create Blog File", lines 167 to 230. *)
Definition createBlogFile (blogData : GeneratedContent)
    (imageFile blogFile dateDisplay : string) : M unit :=
  consoleLog "Creating blog HTML file..." ;;
  template <- readFileSync BLOG_TEMPLATE_PATH ;;
  let post := renderPost (cheerio_load template) blogData imageFile dateDisplay in
  writeFileSync (pathJoin (REPO_ROOT env) blogFile) (serialize post).

(** Step 4, "Update Blogs Index", lines 234 to 261. *)
Definition updateBlogsIndex (blogData : GeneratedContent)
    (imageFile blogFile dateDisplay : string) : M unit :=
  consoleLog "Updating blogs.html index..." ;;
  indexHtml <- readFileSync BLOGS_INDEX_PATH ;;
  index <- insertEntry (cheerio_load indexHtml)
             (newCardHtml imageFile blogFile (title blogData) (metaDescription blogData)
                dateDisplay) ;;
  writeFileSync BLOGS_INDEX_PATH (serialize index).

(** Step 5, "Git Automation", lines 265 to 285.  The child process runs
    after [run] has returned; its callback cannot throw, and is placed right
    after the call. *)
Definition gitAutomation (blogData : GeneratedContent)
    (topic imageFile blogFile : string) : M unit :=
  consoleLog "Executing Git commands..." ;;
  let commitMsg := "Daily Auto Blog Added – " ++ title blogData in
  emit (Exec ("git add . && git commit -m " ++ dq ++ commitMsg ++ dq ++ " && git push")
          (REPO_ROOT env)) ;;
  match gitAnswer env with
  | GitFails e =>
      consoleError ("Git error: " ++ message e) ;;
      logError ("Git commit failed: " ++ message e)
  | GitDone stdout =>
      consoleLog ("Git Success: " ++ nl ++ stdout) ;;
      consoleLog (nl ++ "-------------------------------------") ;;
      consoleLog "DAILY BLOG GENERATION SUCCESS" ;;
      consoleLog ("Blog Title: " ++ title blogData) ;;
      consoleLog ("Topic: " ++ topic) ;;
      consoleLog ("File: " ++ blogFile) ;;
      consoleLog ("Image: " ++ imageFile) ;;
      consoleLog "GitHub Pushed: Yes" ;;
      consoleLog "-------------------------------------"
  end.

(** The body of the [try] of [run], lines 150 to 285. *)
Definition pipeline : M unit :=
  let topic := getRandomTopic in
  consoleLog ("Selected Topic: " ++ topic) ;;
  (* 1. Generate Content *)
  blogData <- generateContent topic ;;
  let '(dateISO, dateDisplay) := getFormattedDate in
  let slug := getSlug (title blogData) in
  let imageFile := imageFilename slug dateISO in
  let blogFile := blogFilename slug dateISO in
  consoleLog ("Title: " ++ title blogData) ;;
  (* 2. Download Image *)
  consoleLog "Downloading cover image..." ;;
  downloadImage topic imageFile ;;
  createBlogFile blogData imageFile blogFile dateDisplay ;;
  updateBlogsIndex blogData imageFile blogFile dateDisplay ;;
  gitAutomation blogData topic imageFile blogFile.

(** [run], line 148. *)
Definition run : M unit :=
  tryCatch pipeline
    (fun e =>
       logError (message e) ;;
       consoleError ("Critical Error: " ++ message e)).

End Script.

(* ================================================================== *)
(** ** A small markup reader and writer

    An instance of [Cheerio] to run the script on concrete files.  It reads
    markup in which every tag is written out and properly nested, attribute
    values are double-quoted and no character reference occurs, which is the
    markup of the script's own templates; on such markup the tree is the one
    cheerio builds.  It does not supply the [html], [head] and [body] that
    cheerio adds to a document that lacks them. *)

Module Mini.

Import Js.
Local Open Scope string_scope.

Inductive token : Type :=
| TText (s : string)
| TComment (s : string)
| TDirective (s : string)
| TOpen (name : string) (attribs : list (string * string))
| TClose (name : string).

Fixpoint drop (n : nat) (s : string) : string :=
  match n, s with
  | S k, String _ r => drop k r
  | _, _ => s
  end.

(** The text before the next ['<'] and what follows it. *)
Fixpoint textRun (s : string) : string * string :=
  match s with
  | EmptyString => (EmptyString, EmptyString)
  | String c r =>
      if Ascii.eqb c "<" then (EmptyString, s)
      else let (t, rest) := textRun r in (String c t, rest)
  end.

(** The inside of a tag up to the closing ['>'] that is not in a quoted
    value, and what follows the tag. *)
Fixpoint tagRun (quoted : bool) (s : string) : string * string :=
  match s with
  | EmptyString => (EmptyString, EmptyString)
  | String c r =>
      if Ascii.eqb c "034" then let (t, rest) := tagRun (negb quoted) r in (String c t, rest)
      else if Ascii.eqb c ">" && negb quoted then (EmptyString, r)
      else let (t, rest) := tagRun quoted r in (String c t, rest)
  end.

(** The comment text up to ["-->"] and what follows the comment. *)
Fixpoint commentRun (s : string) : string * string :=
  match s with
  | EmptyString => (EmptyString, EmptyString)
  | String c r =>
      if String.prefix "-->" s then (EmptyString, drop 3 s)
      else let (t, rest) := commentRun r in (String c t, rest)
  end.

(** A name: up to white space, ['='] or ['/']. *)
Fixpoint nameRun (s : string) : string * string :=
  match s with
  | EmptyString => (EmptyString, EmptyString)
  | String c r =>
      if Dom.isSpace c || Ascii.eqb c "=" || Ascii.eqb c "/" then (EmptyString, s)
      else let (t, rest) := nameRun r in (String c t, rest)
  end.

Fixpoint quotedRun (s : string) : string * string :=
  match s with
  | EmptyString => (EmptyString, EmptyString)
  | String c r =>
      if Ascii.eqb c "034" then (EmptyString, r)
      else let (t, rest) := quotedRun r in (String c t, rest)
  end.

Fixpoint attributes (fuel : nat) (s : string) : list (string * string) :=
  match fuel, s with
  | S k, String c r =>
      if Dom.isSpace c || Ascii.eqb c "/" then attributes k r
      else
        let (nm, rest) := nameRun s in
        match rest with
        | String e (String q v) =>
            if Ascii.eqb e "=" && Ascii.eqb q "034"
            then let (val, rest') := quotedRun v in (toLowerCase nm, val) :: attributes k rest'
            else (toLowerCase nm, EmptyString) :: attributes k rest
        | _ => (toLowerCase nm, EmptyString) :: attributes k rest
        end
  | _, _ => []
  end.

Fixpoint tokenize (fuel : nat) (s : string) : list token :=
  match fuel, s with
  | S k, String c r =>
      if Ascii.eqb c "<" then
        if String.prefix "!--" r then
          let (t, rest) := commentRun (drop 3 r) in TComment t :: tokenize k rest
        else if String.prefix "!" r then
          let (t, rest) := tagRun false r in TDirective t :: tokenize k rest
        else if String.prefix "/" r then
          let (t, rest) := tagRun false (drop 1 r) in TClose (toLowerCase (fst (nameRun t))) :: tokenize k rest
        else
          let (t, rest) := tagRun false r in
          let (nm, at_) := nameRun t in
          TOpen (toLowerCase nm) (attributes (String.length at_) at_) :: tokenize k rest
      else
        let (t, rest) := textRun s in TText t :: tokenize k rest
  | _, _ => []
  end.

Definition isVoid (nm : string) : bool :=
  existsb (String.eqb nm)
    ["area"; "base"; "br"; "col"; "embed"; "hr"; "img"; "input"; "link"; "meta";
     "source"; "track"; "wbr"].

(** An open element: its name, its attributes, and the children of its
    parent read so far, last first. *)
Definition frame : Type := string * list (string * string) * list node.

Fixpoint closeAll (open : list frame) (cur : list node) : list node :=
  match open with
  | [] => rev cur
  | (nm, at_, up) :: r => closeAll r (Element nm at_ (rev cur) :: up)
  end.

(** [cur] holds the children of the innermost open element, last first.
    An end tag that does not close the innermost open element is skipped. *)
Fixpoint build (ts : list token) (open : list frame) (cur : list node) : list node :=
  match ts with
  | [] => closeAll open cur
  | TText s :: r => build r open (Text s :: cur)
  | TComment s :: r => build r open (Comment s :: cur)
  | TDirective s :: r => build r open (Directive s :: cur)
  | TOpen nm at_ :: r =>
      if isVoid nm then build r open (Element nm at_ [] :: cur)
      else build r ((nm, at_, cur) :: open) []
  | TClose nm :: r =>
      match open with
      | (nm', at_, up) :: open' =>
          if String.eqb nm' nm then build r open' (Element nm' at_ (rev cur) :: up)
          else build r open cur
      | [] => build r open cur
      end
  end.

Definition parse (s : string) : list node :=
  build (tokenize (String.length s) s) [] [].

Fixpoint escape (inAttr : bool) (s : string) : string :=
  match s with
  | EmptyString => EmptyString
  | String c r =>
      (if Ascii.eqb c "&" then "&amp;"
       else if Ascii.eqb c "<" && negb inAttr then "&lt;"
       else if Ascii.eqb c ">" && negb inAttr then "&gt;"
       else if Ascii.eqb c "034" && inAttr then "&quot;"
       else String c EmptyString) ++ escape inAttr r
  end.

Definition writeAttribs (at_ : list (string * string)) : string :=
  String.concat EmptyString
    (map (fun kv => " " ++ fst kv ++ "=" ++ dq ++ escape true (snd kv) ++ dq) at_).

Fixpoint write (n : node) : string :=
  match n with
  | Text s => escape false s
  | Comment s => "<!--" ++ s ++ "-->"
  | Directive s => "<" ++ s ++ ">"
  | Element nm at_ cs =>
      "<" ++ nm ++ writeAttribs at_ ++ ">" ++
      (if isVoid nm then EmptyString
       else String.concat EmptyString (map write cs) ++ "</" ++ nm ++ ">")
  end.

Definition writeAll (d : document) : string :=
  String.concat EmptyString (map write d).

Definition cheerio : Cheerio :=
  {| cheerio_load := parse;
     parseMarkup := fun _ => parse;
     serialize := writeAll |}.

End Mini.

(* ================================================================== *)
(** ** Vocabulary of the statements *)

(** Characters of a slug, and characters outside the class of [getSlug]. *)
Definition slugChar (c : ascii) : bool := Js.isAlnum c || Js.isSep c.
Definition notAlnum (c : ascii) : bool := negb (Js.isAlnum c).

(** The number of places at which [t] starts in [s]. *)
Fixpoint occurrences (t s : string) : nat :=
  (if String.prefix t s then 1 else 0) +
  match s with
  | EmptyString => 0
  | String _ r => occurrences t r
  end.

Fixpoint lastChar (s : string) : option ascii :=
  match s with
  | EmptyString => None
  | String c r => match lastChar r with Some d => Some d | None => Some c end
  end.

(** A selection read off one node, and off a list of siblings that starts
    at index [i]. *)
Definition selNode (sel : node -> bool) (n : node) : list path :=
  map fst (filter (fun e => sel (snd e)) (Dom.walkNode n)).

Definition selFrom (sel : node -> bool) (i : nat) (l : list node) : list path :=
  map fst (filter (fun e => sel (snd e)) (Dom.walkFrom i l)).

(** A selector that looks at the name and the attributes of a node only. *)
Definition shallow (sel : node -> bool) : Prop :=
  forall nm at_ cs cs', sel (Element nm at_ cs) = sel (Element nm at_ cs').

(** Two positions neither of which is the other or above it. *)
Definition apart (p q : path) : bool :=
  negb (Dom.isPrefix p q) && negb (Dom.isPrefix q p).

(** States after an effect. *)
Definition traced (es : list effect) (st : state) : state :=
  {| files := files st; trace := trace st ++ es |}.

Definition stored (file data : string) (st : state) : state :=
  {| files := fun f => if String.eqb f file then Some data else files st f;
     trace := trace st |}.

Definition appended (file data : string) (st : state) : state :=
  stored file (match files st file with Some old => (old ++ data)%string | None => data end) st.

(** A computation that only adds to the trace. *)
Definition extends {A : Type} (m : M A) : Prop :=
  forall st : state, exists es : list effect, trace (snd (m st)) = trace st ++ es.

(** The files written and the lines appended in a trace. *)
Definition writtenFiles (es : list effect) : list string :=
  flat_map (fun e => match e with WriteFile f _ => [f] | _ => [] end) es.

Definition appendedLines (es : list effect) : list string :=
  flat_map (fun e => match e with AppendFile _ l => [l] | _ => [] end) es.

Definition commands (es : list effect) : list string :=
  flat_map (fun e => match e with Exec c _ => [c] | _ => [] end) es.

(** The line that [logError] prints and appends, and the message of line
    258. *)
Definition logLine (env : Env) (msg : string) : string :=
  ("[" ++ nowISO env ++ "] ERROR: " ++ msg ++ Js.nl)%string.

Definition gridMissing : string := "Could not find blog grid container in blogs.html".

(** What [run] derives before it touches a file: the content, the slug, the
    date and the two file names. *)
Definition contentOf (env : Env) : GeneratedContent :=
  generateFallbackContent (getRandomTopic env).
Definition slugOf (env : Env) : string := getSlug (title (contentOf env)).
Definition dateOf (env : Env) : string := fst (getFormattedDate env).
Definition imageOf (env : Env) : string := imageFilename (slugOf env) (dateOf env).
Definition postOf (env : Env) : string := blogFilename (slugOf env) (dateOf env).

(** The content containers that line 190 finds in a template.  The
    embedding of [replaceContent] is exact when there is at most one, and
    the statements about a whole run are made for such templates. *)
Definition containers {cheerio : Cheerio} (env : Env) (tpl : string) : list path :=
  Dom.select Selector.contentSection
    (updateTemplate (cheerio_load tpl) (contentOf env) (imageOf env)).

(** *** Sample files and environments *)

Module Sample.

Import Js.
Local Open Scope string_scope.

Definition containerClass : string :=
  "max-w-4xl mx-auto px-6 py-12 bg-white rounded-xl shadow".

(** A template with every anchor of [renderPost]. *)
Definition template : string :=
  "<html><head><title>AI Integration</title></head><body>" ++
  "<h1>AI Integration</h1>" ++
  "<img src=" ++ dq ++ "./cover.jpg" ++ dq ++ " alt=" ++ dq ++ "Blog Cover" ++ dq ++ ">" ++
  "<section class=" ++ dq ++ containerClass ++ dq ++ ">" ++
  "<img src=" ++ dq ++ "./inside.jpg" ++ dq ++ " alt=" ++ dq ++ "AI Integration Blog" ++ dq ++ ">" ++
  "<h2>AI Integration</h2>" ++
  "<p>Old text</p>" ++
  "<p class=" ++ dq ++ "text-gray-400 text-sm mb-6" ++ dq ++ ">Aug 10, 2024</p>" ++
  "</section></body></html>".

(** A template with none of them. *)
Definition bareTemplate : string :=
  "<html><head></head><body><p>Nothing to anchor on</p></body></html>".

(** An index with an empty listing container, and one without any. *)
Definition index : string :=
  "<html><head></head><body><div class=" ++ dq ++ "grid md:grid-cols-3 gap-10" ++ dq ++
  "></div></body></html>".

Definition plainIndex : string :=
  "<html><head></head><body><div class=" ++ dq ++ "list" ++ dq ++ "></div></body></html>".

(** The first of March 2025, the quantum computing topic, no credential,
    both services up. *)
Definition env : Env :=
  {| REPO_ROOT := "/repo";
     OPENAI_API_KEY := None;
     randomIndex := 14;
     nowISO := "2025-03-01T09:30:00.000Z";
     nowDisplay := "Mar 01, 2025";
     imageAnswer := ImageSaved "JPEG";
     gitAnswer := GitDone "pushed" |}.



(** A repository that holds the template and the index. *)
Definition disk (tpl idx : string) : state :=
  {| files := fun f =>
       if f =? "/repo/blog-ai.html" then Some tpl
       else if f =? "/repo/blogs.html" then Some idx
       else None;
     trace := [] |}.

Definition firstCard : string :=
  newCardHtml "a.jpg" "a.html" "First post" "About the first." "Mar 01, 2025".

Definition secondCard : string :=
  newCardHtml "b.jpg" "b.html" "Second post" "About the second." "Mar 02, 2025".

End Sample.

(* ================================================================== *)
(** ** Vocabulary of the statements about whole runs *)

(** Whether the scan of the first replacement of [getSlug] is inside a run
    of characters outside the class when it has read [s]. *)
Fixpoint endRun (inRun : bool) (s : string) : bool :=
  match s with
  | EmptyString => inRun
  | String c r => endRun (negb (Js.isAlnum c)) r
  end.

Definition notT (c : ascii) : bool := negb (Ascii.eqb c "T").

(** The characters of the address of line 126: what [encodeURIComponent]
    leaves or produces, and the punctuation of the literal part. *)
Definition urlChar (c : ascii) : bool :=
  unreserved c || existsb (Ascii.eqb c) ["%"; ":"; "/"]%char.

(** The line that [generateContent] prints. *)
Definition keyLine (env : Env) : string :=
  if noKey (OPENAI_API_KEY env) then "No OpenAI API Key found. Using Smart Template."
  else "Generating content via OpenAI API...".

(** The state after [logError msg], after [fs.writeFileSync(file, data)],
    and after the handler of [run] has been given an error with the
    message [msg]. *)
Definition logged (env : Env) (msg : string) (st : state) : state :=
  traced [AppendFile (LOG_FILE_PATH env) (logLine env msg)]
    (appended (LOG_FILE_PATH env) (logLine env msg)
       (traced [ConsoleError (logLine env msg)] st)).

Definition written (file data : string) (st : state) : state :=
  stored file data (traced [WriteFile file data] st).

Definition critical (env : Env) (msg : string) (st : state) : state :=
  traced [ConsoleError ("Critical Error: " ++ msg)] (logged env msg st).

(** The message of the error that [readFileSync] throws. *)
Definition enoent (file : string) : string :=
  "ENOENT: no such file or directory, open '" ++ file ++ "'".

(** The files that a run writes, the command of line 268, the card of line
    238 and the post document of line 230. *)
Definition imagePath (env : Env) : string := pathJoin (IMAGE_DIR env) (imageOf env).
Definition postPath (env : Env) : string := pathJoin (REPO_ROOT env) (postOf env).

Definition gitCommand (env : Env) : string :=
  "git add . && git commit -m " ++ Js.dq ++ "Daily Auto Blog Added – " ++
  title (contentOf env) ++ Js.dq ++ " && git push".

Definition cardOf (env : Env) : string :=
  newCardHtml (imageOf env) (postOf env) (title (contentOf env))
    (metaDescription (contentOf env)) (nowDisplay env).

Definition postDocument {cheerio : Cheerio} (env : Env) (tpl : string) : string :=
  serialize (renderPost (cheerio_load tpl) (contentOf env) (imageOf env) (nowDisplay env)).

(** The states that a run passes through: after the request for the image
    has been sent, after the callback of the child process, after the index
    update, and at the end, case by case.  [run_afterRun] below proves that
    [run] ends in [afterRun]. *)
Definition started (env : Env) (st : state) : state :=
  traced [ConsoleLog ("Selected Topic: " ++ getRandomTopic env);
          ConsoleLog (keyLine env);
          ConsoleLog ("Title: " ++ title (contentOf env));
          ConsoleLog "Downloading cover image...";
          HttpGet (imageUrl (getRandomTopic env))] st.

Definition banner (env : Env) (stdout : string) : list effect :=
  [ConsoleLog ("Git Success: " ++ Js.nl ++ stdout);
   ConsoleLog (Js.nl ++ "-------------------------------------");
   ConsoleLog "DAILY BLOG GENERATION SUCCESS";
   ConsoleLog ("Blog Title: " ++ title (contentOf env));
   ConsoleLog ("Topic: " ++ getRandomTopic env);
   ConsoleLog ("File: " ++ postOf env);
   ConsoleLog ("Image: " ++ imageOf env);
   ConsoleLog "GitHub Pushed: Yes";
   ConsoleLog "-------------------------------------"].

Definition afterGit (env : Env) (st : state) : state :=
  let s := traced [ConsoleLog "Executing Git commands...";
                   Exec (gitCommand env) (REPO_ROOT env)] st in
  match gitAnswer env with
  | GitFails e =>
      logged env ("Git commit failed: " ++ message e)
        (traced [ConsoleError ("Git error: " ++ message e)] s)
  | GitDone stdout => traced (banner env stdout) s
  end.

Definition afterIndex {cheerio : Cheerio} (env : Env) (idx : string) (st : state) : state :=
  let s := traced [ConsoleLog "Updating blogs.html index..."] st in
  let index := cheerio_load idx in
  if Nat.eqb (List.length (Dom.select Selector.gridContainer index)) 0
  then written (BLOGS_INDEX_PATH env) (serialize index) (logged env gridMissing s)
  else written (BLOGS_INDEX_PATH env) (serialize (prependCard index (cardOf env))) s.

Definition afterRun {cheerio : Cheerio} (env : Env) (st : state) : state :=
  let s0 := started env st in
  match imageAnswer env with
  | RequestFails e =>
      critical env (message e) (logged env ("Image download failed: " ++ message e) s0)
  | StreamFails e => critical env (message e) s0
  | ImageSaved bytes =>
      let s1 := traced [ConsoleLog "Creating blog HTML file..."] (written (imagePath env) bytes s0) in
      match files st (BLOG_TEMPLATE_PATH env) with
      | None => critical env (enoent (BLOG_TEMPLATE_PATH env)) s1
      | Some tpl =>
          let s2 := written (postPath env) (postDocument env tpl) s1 in
          match files st (BLOGS_INDEX_PATH env) with
          | None =>
              critical env (enoent (BLOGS_INDEX_PATH env))
                (traced [ConsoleLog "Updating blogs.html index..."] s2)
          | Some idx => afterGit env (afterIndex env idx s2)
          end
      end
  end.

(** The text of the error log; a log that does not exist has none. *)
Definition logText (st : state) (env : Env) : string :=
  match files st (LOG_FILE_PATH env) with
  | Some old => old
  | None => EmptyString
  end.

(** The error log of [st'] starts with the error log of [st]. *)
Definition logGrows (env : Env) (st st' : state) : Prop :=
  forall old : string,
    files st (LOG_FILE_PATH env) = Some old ->
    exists more : string, files st' (LOG_FILE_PATH env) = Some (old ++ more)%string.


(** The commands of a trace, each with the files written before it. *)
Fixpoint commitsAfter (written : list string) (es : list effect) : list (string * list string) :=
  match es with
  | [] => []
  | WriteFile f _ :: r => commitsAfter (written ++ [f]) r
  | Exec c _ :: r => (c, written) :: commitsAfter written r
  | _ :: r => commitsAfter written r
  end.

(** Every element named [t] of [d] has the one text child [s]. *)
Definition shows (t s : string) (d : list node) : Prop :=
  forall (q : path) (n : node),
    Dom.get d q = Some n -> Dom.isTag t n = true -> Dom.children n = [Text s].

(** The document after lines 172 to 180 of [run], before the first heading
    of the content is given its text. *)
Definition beforeFirstHeading {cheerio : Cheerio} (d : document) (blogData : GeneratedContent)
    (imageFilename : string) : document :=
  let d := Dom.textAll (Dom.isTag "title") (title blogData ++ " - Nexora Technologies")%string d in
  let d := Dom.textAll (Dom.isTag "h1") (title blogData) d in
  let d :=
    Dom.each (Dom.outermost (breadcrumbTargets d)) (setHtml (breadcrumbHtml (title blogData))) d in
  Dom.attrAll (Selector.imgAlt "Blog Cover") "src" ("./" ++ imageFilename)%string d.

(** No element of [d] is named [t]. *)
Definition without (t : string) (d : list node) : Prop :=
  forall (q : path) (n : node), Dom.get d q = Some n -> Dom.isTag t n = false.

(** *** More environments and disks *)

Module Scenario.

Local Open Scope string_scope.

(** The evening of the same day, with a credential and another draw. *)
Definition later : Env :=
  {| REPO_ROOT := "/repo";
     OPENAI_API_KEY := Some "sk-test";
     randomIndex := 35;
     nowISO := "2025-03-01T21:05:00.000Z";
     nowDisplay := "Mar 01, 2025";
     imageAnswer := ImageSaved "JPEG";
     gitAnswer := GitDone "pushed" |}.

Definition rejected : error := {| message := "Authentication failed" |}.

(** The push is rejected. *)
Definition gitDown : Env :=
  {| REPO_ROOT := "/repo";
     OPENAI_API_KEY := None;
     randomIndex := 14;
     nowISO := "2025-03-01T09:30:00.000Z";
     nowDisplay := "Mar 01, 2025";
     imageAnswer := ImageSaved "JPEG";
     gitAnswer := GitFails rejected |}.

Definition diskFull : error := {| message := "ENOSPC: no space left on device, write" |}.

(** The image arrives and cannot be written. *)
Definition streamDown : Env :=
  {| REPO_ROOT := "/repo";
     OPENAI_API_KEY := None;
     randomIndex := 14;
     nowISO := "2025-03-01T09:30:00.000Z";
     nowDisplay := "Mar 01, 2025";
     imageAnswer := StreamFails diskFull;
     gitAnswer := GitDone "pushed" |}.

(** A repository without template and index, one with the template only,
    and a disk with an error log. *)
Definition emptyDisk : state := {| files := fun _ => None; trace := [] |}.

Definition templateOnly : state :=
  {| files := fun f => if f =? "/repo/blog-ai.html" then Some Sample.template else None;
     trace := [] |}.

Definition withLog (old : string) (st : state) : state :=
  {| files := fun f => if f =? "/repo/logs/blog-error.txt" then Some old else files st f;
     trace := trace st |}.

End Scenario.

(* ================================================================== *)
(** * Properties *)

(** ** Strings and slugs *)

Section SlugFacts.

Import Js.
Local Open Scope string_scope.

Lemma isSep_dash (c : ascii) : isSep c = true -> c = "-"%char.
Proof. apply Ascii.eqb_eq. Qed.

Lemma sep_not_alnum (c : ascii) : isSep c = true -> isAlnum c = false.
Proof. intros H. apply isSep_dash in H. subst c. reflexivity. Qed.

Lemma alnum_not_sep (c : ascii) : isAlnum c = true -> isSep c = false.
Proof.
  intros H. destruct (isSep c) eqn:E; [|reflexivity].
  apply sep_not_alnum in E. congruence.
Qed.

Lemma hasDoubleSep_cons (c : ascii) (s : string) :
  hasDoubleSep (String c s) = (isSep c && startsWithSep s) || hasDoubleSep s.
Proof. destruct s; simpl; [now rewrite andb_false_r | reflexivity]. Qed.

Lemma endsWithSep_cons (c : ascii) (s : string) :
  endsWithSep (String c s) =
  match s with EmptyString => isSep c | _ => endsWithSep s end.
Proof. destruct s; reflexivity. Qed.

(** *** The first replacement *)

Lemma replaceRuns_chars (b : bool) (s : string) :
  all slugChar (replaceRuns b s) = true.
Proof.
  revert b. induction s as [|c r IH]; intros b; simpl; [reflexivity|].
  destruct (isAlnum c) eqn:A.
  - simpl. unfold slugChar at 1. rewrite A. simpl. apply IH.
  - destruct b; [apply IH|]. simpl. apply IH.
Qed.

Lemma replaceRuns_start (s : string) : startsWithSep (replaceRuns true s) = false.
Proof.
  induction s as [|c r IH]; simpl; [reflexivity|].
  destruct (isAlnum c) eqn:A; [|exact IH].
  simpl. now apply alnum_not_sep.
Qed.

Lemma replaceRuns_single (b : bool) (s : string) :
  hasDoubleSep (replaceRuns b s) = false.
Proof.
  revert b. induction s as [|c r IH]; intros b; simpl; [reflexivity|].
  destruct (isAlnum c) eqn:A.
  - rewrite hasDoubleSep_cons, IH, (alnum_not_sep _ A). reflexivity.
  - destruct b; [apply IH|].
    rewrite hasDoubleSep_cons, IH, replaceRuns_start. now rewrite andb_false_r.
Qed.

Lemma replaceRuns_alnum (b : bool) (s : string) :
  all notAlnum (replaceRuns b s) = all notAlnum s.
Proof.
  revert b. induction s as [|c r IH]; intros b; simpl; [reflexivity|].
  unfold notAlnum at 2. destruct (isAlnum c) eqn:A; simpl.
  - unfold notAlnum at 1. rewrite A. reflexivity.
  - destruct b; [apply IH|]. simpl. apply IH.
Qed.

(** *** The second replacement *)

Lemma stripEdges_chars (p : ascii -> bool) (b : bool) (s : string) :
  all p s = true -> all p (stripEdges b s) = true.
Proof.
  revert b. induction s as [|c r IH]; intros b; simpl; [reflexivity|].
  intros H. apply andb_prop in H as [Hc Hr].
  destruct (isSep c && (b || (r =? EmptyString))); simpl; [now apply IH|].
  rewrite Hc. now apply IH.
Qed.

Lemma stripEdges_alnum (b : bool) (s : string) :
  all notAlnum (stripEdges b s) = all notAlnum s.
Proof.
  revert b. induction s as [|c r IH]; intros b; simpl; [reflexivity|].
  destruct (isSep c) eqn:S; simpl.
  - unfold notAlnum at 2. rewrite (sep_not_alnum _ S). simpl.
    destruct (b || (r =? EmptyString)); simpl; [apply IH|].
    unfold notAlnum at 1. rewrite (sep_not_alnum _ S). simpl. apply IH.
  - now rewrite IH.
Qed.

Lemma stripEdges_inner_start (s : string) :
  startsWithSep s = false -> startsWithSep (stripEdges false s) = false.
Proof.
  destruct s as [|c r]; simpl; [reflexivity|].
  intros H. rewrite H. simpl. exact H.
Qed.

Lemma stripEdges_start (s : string) :
  hasDoubleSep s = false -> startsWithSep (stripEdges true s) = false.
Proof.
  destruct s as [|c r]; [reflexivity|].
  rewrite hasDoubleSep_cons. intros H. apply orb_false_elim in H as [H _].
  simpl. destruct (isSep c) eqn:S; simpl.
  - simpl in H. now apply stripEdges_inner_start.
  - exact S.
Qed.

Lemma stripEdges_inner_empty (s : string) :
  stripEdges false s = EmptyString -> s = EmptyString \/ startsWithSep s = true.
Proof.
  destruct s as [|c r]; [now left|]. simpl.
  destruct (isSep c); simpl; [now right|]. discriminate.
Qed.

Lemma stripEdges_end (b : bool) (s : string) :
  hasDoubleSep s = false -> endsWithSep (stripEdges b s) = false.
Proof.
  revert b. induction s as [|c r IH]; intros b; [reflexivity|].
  rewrite hasDoubleSep_cons. intros H. apply orb_false_elim in H as [Hc Hr].
  simpl. destruct (isSep c && (b || (r =? EmptyString))) eqn:E; [now apply IH|].
  rewrite endsWithSep_cons.
  destruct (stripEdges false r) eqn:Er.
  - apply stripEdges_inner_empty in Er as [-> | Er].
    + rewrite orb_true_r, andb_true_r in E. exact E.
    + rewrite Er, andb_true_r in Hc. exact Hc.
  - rewrite <- Er. now apply IH.
Qed.

Lemma stripEdges_single (b : bool) (s : string) :
  hasDoubleSep s = false -> hasDoubleSep (stripEdges b s) = false.
Proof.
  revert b. induction s as [|c r IH]; intros b; [reflexivity|].
  rewrite hasDoubleSep_cons. intros H. apply orb_false_elim in H as [Hc Hr].
  simpl. destruct (isSep c && (b || (r =? EmptyString))); [now apply IH|].
  rewrite hasDoubleSep_cons, (IH false Hr), orb_false_r.
  destruct (isSep c); [|reflexivity]. simpl in *.
  now apply stripEdges_inner_start.
Qed.

(** A slug without a character of the class is made of separators, and a
    string of separators that neither starts with one nor is doubled is
    empty. *)
Lemma separators_only (s : string) :
  all slugChar s = true -> all notAlnum s = true ->
  startsWithSep s = false -> s = EmptyString.
Proof.
  destruct s as [|c r]; [reflexivity|]. simpl.
  unfold slugChar, notAlnum. intros H1 H2 H3.
  apply andb_prop in H1 as [H1 _]. apply andb_prop in H2 as [H2 _].
  rewrite H3, orb_false_r in H1. rewrite H1 in H2. discriminate.
Qed.

(** *** The code against the wording of the specification *)

Lemma dropRun_length (s : string) : String.length (SlugSpec.dropRun s) <= String.length s.
Proof.
  induction s as [|c r IH]; simpl; [lia|].
  destruct (isAlnum c); simpl; lia.
Qed.

Lemma replaceRuns_dropRun (s : string) :
  replaceRuns true s = replaceRuns false (SlugSpec.dropRun s).
Proof.
  induction s as [|c r IH]; simpl; [reflexivity|].
  destruct (isAlnum c) eqn:A; simpl; [now rewrite A | exact IH].
Qed.

Lemma collapse_replaceRuns (n : nat) (s : string) :
  String.length s <= n -> SlugSpec.collapse n s = replaceRuns false s.
Proof.
  revert s. induction n as [|k IH]; intros s H.
  - destruct s; [reflexivity | simpl in H; lia].
  - destruct s as [|c r]; [reflexivity|]. simpl in *.
    destruct (isAlnum c).
    + rewrite IH by lia. reflexivity.
    + rewrite IH, replaceRuns_dropRun; [reflexivity|].
      pose proof (dropRun_length r). lia.
Qed.

Lemma stripLeading_id (s : string) :
  startsWithSep s = false -> SlugSpec.stripLeading s = s.
Proof. destruct s as [|c r]; simpl; [reflexivity|]. now intros ->. Qed.

Lemma stripEdges_inner_trailing (s : string) :
  hasDoubleSep s = false -> stripEdges false s = SlugSpec.stripTrailing s.
Proof.
  induction s as [|c r IH]; [reflexivity|].
  rewrite hasDoubleSep_cons. intros H. apply orb_false_elim in H as [Hc Hr].
  simpl. rewrite <- (IH Hr).
  destruct r as [|d r'].
  - simpl. rewrite andb_true_r. destruct (isSep c); reflexivity.
  - rewrite andb_false_r. destruct (stripEdges false (String d r')) eqn:E; [|reflexivity].
    apply stripEdges_inner_empty in E as [E | E]; [discriminate|].
    rewrite E, andb_true_r in Hc. now rewrite Hc.
Qed.

Lemma stripEdges_spec (s : string) :
  hasDoubleSep s = false ->
  stripEdges true s = SlugSpec.stripTrailing (SlugSpec.stripLeading s).
Proof.
  destruct s as [|c r]; [reflexivity|].
  intros H. pose proof H as H'. rewrite hasDoubleSep_cons in H'.
  apply orb_false_elim in H' as [Hc Hr].
  destruct (isSep c) eqn:S.
  - simpl. rewrite S. simpl. simpl in Hc.
    rewrite (stripLeading_id _ Hc). now apply stripEdges_inner_trailing.
  - rewrite stripLeading_id by exact S.
    rewrite <- (stripEdges_inner_trailing _ H). simpl. now rewrite S.
Qed.

End SlugFacts.

(** The two replacements on the subjects that tell their readings apart: a
    run of separators in the middle is kept by the second, which takes one
    character at either end, and two when the subject is two separators. *)
Example replacements_on_edge_subjects :
  Js.replaceRuns false "a -- b!" = "a-b-"%string /\
  Js.stripEdges true "---" = "-"%string /\
  Js.stripEdges true "--" = EmptyString /\
  Js.stripEdges true "-a--b-" = "a--b"%string /\
  getSlug "  Hello,  World!! " = "hello-world"%string /\
  getSlug "?!" = EmptyString.
Proof. repeat split. Qed.

(** C5 (as amended).  [getSlug] is the slug of the specification: the
    lowercased title with every maximal run of characters outside
    [[a-z0-9]] replaced by one separator and the separators at both ends
    stripped.  It holds only characters of [[a-z0-9]] and separators, no two
    separators in a row, none at either end, and it is empty exactly when the
    lowercased title has no character of [[a-z0-9]]. *)
Theorem getSlug_spec (title : string) :
  getSlug title = SlugSpec.slug title /\
  Js.all slugChar (getSlug title) = true /\
  Js.hasDoubleSep (getSlug title) = false /\
  Js.startsWithSep (getSlug title) = false /\
  Js.endsWithSep (getSlug title) = false /\
  (getSlug title = EmptyString <-> Js.all notAlnum (Js.toLowerCase title) = true).
Proof.
  unfold getSlug, SlugSpec.slug.
  set (lowered := Js.toLowerCase title).
  pose proof (replaceRuns_single false lowered) as Hsingle.
  pose proof (replaceRuns_chars false lowered) as Hchars.
  repeat split.
  - rewrite collapse_replaceRuns by lia. now apply stripEdges_spec.
  - now apply stripEdges_chars.
  - now apply stripEdges_single.
  - now apply stripEdges_start.
  - now apply stripEdges_end.
  - intros H. rewrite <- (replaceRuns_alnum false), <- (stripEdges_alnum true), H.
    reflexivity.
  - intros H. apply separators_only.
    + now apply stripEdges_chars.
    + now rewrite stripEdges_alnum, replaceRuns_alnum.
    + now apply stripEdges_start.
Qed.

(** C5, the counterexample: the title ["A"] has no character of [[a-z0-9]],
    and its slug is ["a"], not the empty string. *)
Lemma getSlug_uppercase_title :
  Js.all notAlnum "A" = true /\ getSlug "A" = "a"%string /\ getSlug "A" <> EmptyString.
Proof. repeat split. discriminate. Qed.

(** ** The smart template *)

Section TemplateFacts.

Import Js.
Local Open Scope string_scope.

Lemma prefix_here (t b : string) : String.prefix t (t ++ b) = true.
Proof.
  induction t as [|c r IH]; simpl; [now destruct b|].
  destruct (ascii_dec c c); [exact IH | contradiction].
Qed.

Lemma includes_unfold (s t : string) :
  includes s t =
  String.prefix t s || match s with EmptyString => false | String _ r => includes r t end.
Proof. destruct s; reflexivity. Qed.

Lemma includes_here (t b : string) : includes (t ++ b) t = true.
Proof. rewrite includes_unfold, prefix_here. reflexivity. Qed.

Lemma includes_skip (a s t : string) : includes s t = true -> includes (a ++ s) t = true.
Proof.
  intros H. induction a as [|c r IH]; simpl; [exact H|].
  rewrite IH. apply orb_true_r.
Qed.

End TemplateFacts.

Ltac find_interpolated :=
  repeat first [apply includes_here | apply includes_skip].

(** C7.  The smart template is a function of the topic alone.  For every
    topic the title is ["The Future of {topic}: What You Need to Know"], the
    body is the fixed skeleton of lines 70 to 98 with the topic written at
    each of its five marked positions, and the meta description is the fixed
    sentence of line 99 with the topic at its one marked position; so the
    topic occurs in all three.  [generateContent] without a credential
    returns this content whatever the state of the world.  For ["AI tools
    for productivity"] the topic occurs at the five marked places of the
    body and nowhere else in it, and once in the title and in the meta
    description. *)
Theorem fallback_is_deterministic :
  (forall topic : string,
      title (generateFallbackContent topic) =
        ("The Future of " ++ topic ++ ": What You Need to Know")%string /\
      title (generateFallbackContent topic) =
        FallbackSpec.interpolate FallbackSpec.titleSkeleton topic /\
      content (generateFallbackContent topic) =
        FallbackSpec.interpolate FallbackSpec.bodySkeleton topic /\
      metaDescription (generateFallbackContent topic) =
        FallbackSpec.interpolate FallbackSpec.metaSkeleton topic /\
      Js.includes (title (generateFallbackContent topic)) topic = true /\
      Js.includes (content (generateFallbackContent topic)) topic = true /\
      Js.includes (metaDescription (generateFallbackContent topic)) topic = true) /\
  (forall (env1 env2 : Env) (s1 s2 : state) (topic : string),
      noKey (OPENAI_API_KEY env1) = true -> noKey (OPENAI_API_KEY env2) = true ->
      fst (generateContent env1 topic s1) = Returned (generateFallbackContent topic) /\
      fst (generateContent env2 topic s2) = fst (generateContent env1 topic s1)) /\
  (let topic := "AI tools for productivity"%string in
   title (generateFallbackContent topic) =
     "The Future of AI tools for productivity: What You Need to Know"%string /\
   occurrences topic (title (generateFallbackContent topic)) = 1 /\
   occurrences topic (content (generateFallbackContent topic)) = 5 /\
   occurrences topic (metaDescription (generateFallbackContent topic)) = 1) /\
  (List.length FallbackSpec.titleSkeleton = 2 /\
   List.length FallbackSpec.bodySkeleton = 6 /\
   List.length FallbackSpec.metaSkeleton = 2).
Proof.
  split; [|split; [|split]]; [| | |repeat split].
  - intros topic. do 4 (split; [reflexivity|]).
    split; [|split]; cbn [title content metaDescription generateFallbackContent];
      unfold fallbackBody; find_interpolated.
  - intros env1 env2 s1 s2 topic H1 H2.
    unfold generateContent, generateContentVia. rewrite H1, H2. split; reflexivity.
  - vm_compute. repeat split.
Qed.


(** ** Content synthesis *)

(** The script's [generateContent] prints one line and returns the fallback
    content. *)
Lemma generateContent_run (env : Env) (topic : string) (st : state) :
  exists line : string,
    generateContent env topic st =
      (Returned (generateFallbackContent topic), traced [ConsoleLog line] st).
Proof.
  unfold generateContent, generateContentVia.
  destruct (noKey (OPENAI_API_KEY env)); eexists; reflexivity.
Qed.



(** C10.  With or without a credential, [generateContent] returns exactly
    the output of [generateFallbackContent]: two environments, whatever
    their credentials, yield the same content; the call prints one line on
    the console, touches no file and makes no request. *)
Theorem generateContent_is_fallback (env1 env2 : Env) (topic : string) (s1 s2 : state) :
  fst (generateContent env1 topic s1) = Returned (generateFallbackContent topic) /\
  fst (generateContent env2 topic s2) = fst (generateContent env1 topic s1) /\
  files (snd (generateContent env1 topic s1)) = files s1 /\
  exists line : string,
    trace (snd (generateContent env1 topic s1)) = trace s1 ++ [ConsoleLog line].
Proof.
  destruct (generateContent_run env1 topic s1) as [l1 E1].
  destruct (generateContent_run env2 topic s2) as [l2 E2].
  rewrite E1, E2. repeat split. now exists l1.
Qed.

(** ** Positions and selections *)

Section DomFacts.

Import Dom.

Lemma nth_error_updateNth (f : node -> node) (i : nat) (l : list node) :
  nth_error (updateNth f i l) i = option_map f (nth_error l i).
Proof.
  revert i. induction l as [|n r IH]; intros [|i]; simpl; auto.
Qed.

Lemma get_nil (p : path) : get [] p = None.
Proof. destruct p as [|[|i] q]; reflexivity. Qed.

(** The node at an updated position is the image of the node that was
    there. *)
Lemma get_updateAt (f : node -> node) (p : path) (d : list node) :
  get (updateAt f p d) p = option_map f (get d p).
Proof.
  revert d. induction p as [|i q IH]; intros d; [reflexivity|].
  destruct q as [|j q'].
  - simpl. rewrite nth_error_updateNth. now destruct (nth_error d i).
  - change (updateAt f (i :: j :: q') d)
      with (updateNth (withChildren (updateAt f (j :: q'))) i d).
    change (get ?l (i :: j :: q'))
      with (match nth_error l i with
            | None => None
            | Some n => get (children n) (j :: q')
            end).
    rewrite nth_error_updateNth.
    destruct (nth_error d i) as [n|]; [|reflexivity].
    destruct n as [| | |nm at_ cs]; cbn [option_map withChildren children];
      [now rewrite !get_nil .. | apply IH].
Qed.

Lemma updateNth_middle (f : node -> node) (a b : list node) (c : node) :
  updateNth f (List.length a) (a ++ c :: b) = a ++ f c :: b.
Proof. induction a as [|x a IH]; simpl; [reflexivity | now rewrite IH]. Qed.

(** *** Document order *)

Lemma walkNode_eq (n : node) : walkNode n = ([], n) :: walkFrom 0 (children n).
Proof.
  destruct n; reflexivity.
Qed.

Lemma select_selFrom (sel : node -> bool) (d : list node) : select sel d = selFrom sel 0 d.
Proof. reflexivity. Qed.

Lemma selNode_eq (sel : node -> bool) (n : node) :
  selNode sel n = (if sel n then [[]] else []) ++ selFrom sel 0 (children n).
Proof.
  unfold selNode. rewrite walkNode_eq. simpl. now destruct (sel n).
Qed.

Lemma selFrom_cons (sel : node -> bool) (i : nat) (c : node) (r : list node) :
  selFrom sel i (c :: r) = map (cons i) (selNode sel c) ++ selFrom sel (S i) r.
Proof.
  unfold selFrom, selNode. simpl. rewrite filter_app, map_app. f_equal.
  induction (walkNode c) as [|e l IH]; simpl; [reflexivity|].
  destruct (sel (snd e)); simpl; now rewrite IH.
Qed.

Lemma selFrom_app (sel : node -> bool) (i : nat) (a b : list node) :
  selFrom sel i (a ++ b) = selFrom sel i a ++ selFrom sel (i + List.length a) b.
Proof.
  revert i. induction a as [|c a IH]; intros i; simpl.
  - now rewrite Nat.add_0_r.
  - rewrite !selFrom_cons, IH, <- app_assoc. now rewrite Nat.add_succ_r.
Qed.

(** Every selected path leads to a node that the selector accepts. *)
Lemma selFrom_in (sel : node -> bool) (q : path) (l : list node) (i : nat) :
  In q (selFrom sel i l) ->
  exists (j : nat) (r : path) (c : node),
    q = (i + j) :: r /\ nth_error l j = Some c /\ In r (selNode sel c).
Proof.
  revert i. induction l as [|c l IH]; intros i H; [contradiction|].
  rewrite selFrom_cons in H. apply in_app_or in H as [H | H].
  - apply in_map_iff in H as (r & <- & H).
    exists 0, r, c. now rewrite Nat.add_0_r.
  - apply IH in H as (j & r & c' & -> & Hc & Hr).
    exists (S j), r, c'. repeat split; [f_equal; lia | exact Hc | exact Hr].
Qed.

Lemma select_sound (sel : node -> bool) (q : path) (d : list node) :
  In q (select sel d) -> exists n : node, get d q = Some n /\ sel n = true.
Proof.
  rewrite select_selFrom. revert d.
  induction q as [|k q IH]; intros d H; apply selFrom_in in H as (j & r & c & E & Hc & Hr);
    [discriminate|].
  injection E as -> ->. simpl in *. rewrite Hc.
  rewrite selNode_eq in Hr. apply in_app_or in Hr as [Hr | Hr].
  - destruct (sel c) eqn:S; [|contradiction].
    destruct Hr as [<- | []]. now exists c.
  - pose proof Hr as Hr'. apply selFrom_in in Hr' as (j' & r' & _ & -> & _).
    now apply IH.
Qed.

(** The selection around a position: what precedes and what follows the
    node at [p] in document order is the same after an update at [p]. *)
Lemma select_around (sel : node -> bool) (p : path) (d : list node) (n : node) :
  shallow sel -> get d p = Some n ->
  exists pre post : list path,
    forall f : node -> node,
      select sel (updateAt f p d) = pre ++ map (app p) (selNode sel (f n)) ++ post.
Proof.
  intros Hsel. revert d. induction p as [|i q IH]; intros d H; [discriminate|].
  simpl in H. destruct (nth_error d i) as [c|] eqn:Hc; [|discriminate].
  apply nth_error_split in Hc as (a & b & -> & <-).
  destruct q as [|j q'].
  - injection H as ->.
    exists (selFrom sel 0 a), (selFrom sel (S (List.length a)) b). intros f.
    simpl updateAt. rewrite updateNth_middle, select_selFrom, selFrom_app, selFrom_cons.
    reflexivity.
  - destruct c as [| | |nm at_ cs]; try (cbn [children] in H; rewrite get_nil in H; discriminate).
    simpl children in H. destruct (IH _ H) as (pre & post & E).
    exists (selFrom sel 0 a ++
            map (cons (List.length a)) ((if sel (Element nm at_ cs) then [[]] else []) ++ pre)),
           (map (cons (List.length a)) post ++ selFrom sel (S (List.length a)) b).
    intros f.
    change (updateAt f (List.length a :: j :: q') (a ++ Element nm at_ cs :: b))
      with (updateNth (withChildren (updateAt f (j :: q'))) (List.length a)
              (a ++ Element nm at_ cs :: b)).
    rewrite updateNth_middle, select_selFrom, selFrom_app, selFrom_cons.
    cbn [withChildren]. rewrite selNode_eq. cbn [children].
    rewrite <- (select_selFrom sel (updateAt f (j :: q') cs)), E, (Hsel nm at_ _ cs), Nat.add_0_l.
    rewrite !map_app, map_map, <- !app_assoc. reflexivity.
Qed.

Lemma updateAt_id (p : path) (d : list node) (n : node) :
  get d p = Some n -> updateAt (fun _ => n) p d = d.
Proof.
  revert d. induction p as [|i q IH]; intros d H; [reflexivity|].
  simpl in H. destruct (nth_error d i) as [c|] eqn:Hc; [|discriminate].
  apply nth_error_split in Hc as (a & b & -> & <-).
  destruct q as [|j q'].
  - injection H as ->. simpl. now rewrite updateNth_middle.
  - change (updateAt ?f (List.length a :: j :: q') ?l)
      with (updateNth (withChildren (updateAt f (j :: q'))) (List.length a) l).
    rewrite updateNth_middle.
    destruct c as [| | |nm at_ cs]; try (cbn [children] in H; rewrite get_nil in H; discriminate).
    cbn [withChildren children] in *. now rewrite (IH _ H).
Qed.

(** If the selector matches at [p] and nowhere else, it still does so after
    an update at [p] that keeps the node selected and puts no selected node
    below it. *)
Lemma select_unique_updateAt (sel : node -> bool) (f : node -> node) (p : path)
    (d : list node) (n : node) :
  shallow sel -> select sel d = [p] -> get d p = Some n ->
  sel (f n) = true -> select sel (children (f n)) = [] ->
  select sel (updateAt f p d) = [p].
Proof.
  intros Hsel Hone Hget Hkeep Hbelow.
  destruct (select_around sel p d n Hsel Hget) as (pre & post & E).
  pose proof (E (fun _ => n)) as E0. rewrite (updateAt_id p d n Hget), Hone in E0.
  destruct (select_sound sel p d) as (n' & Hn' & Sn'); [rewrite Hone; now left|].
  rewrite Hget in Hn'. injection Hn' as <-.
  rewrite E, selNode_eq, Hkeep. rewrite select_selFrom in Hbelow. rewrite Hbelow.
  rewrite selNode_eq, Sn' in E0. simpl in E0.
  destruct pre as [|x pre].
  - simpl in E0. injection E0 as _ E0.
    symmetry in E0. apply app_eq_nil in E0 as [_ ->].
    simpl. now rewrite app_nil_r.
  - injection E0 as _ E0. symmetry in E0. apply app_eq_nil in E0 as [_ E0]. discriminate.
Qed.

(** *** Updates elsewhere *)

Lemma nth_error_updateNth_other (f : node -> node) (i j : nat) (l : list node) :
  i <> j -> nth_error (updateNth f j l) i = nth_error l i.
Proof.
  revert i j. induction l as [|n r IH]; intros [|i] [|j] H; simpl; auto; try congruence.
Qed.

Lemma get_cons (l : list node) (i : nat) (q : path) :
  get l (i :: q) =
  match nth_error l i with
  | None => None
  | Some n => match q with [] => Some n | _ => get (children n) q end
  end.
Proof. reflexivity. Qed.

Lemma updateAt_cons (f : node -> node) (j : nat) (q : path) (d : list node) :
  updateAt f (j :: q) d =
  updateNth (match q with [] => f | _ => withChildren (updateAt f q) end) j d.
Proof. destruct q; reflexivity. Qed.

(** An update leaves the nodes at the positions apart from it alone. *)
Lemma get_updateAt_apart (f : node -> node) (p q : path) (d : list node) :
  apart p q = true -> get (updateAt f q d) p = get d p.
Proof.
  unfold apart. revert q d. induction p as [|i p IH]; intros q d H; [discriminate|].
  destruct q as [|j q]; [discriminate|].
  rewrite updateAt_cons, !get_cons. simpl in H.
  destruct (Nat.eqb_spec i j) as [<- | Hij].
  - rewrite Nat.eqb_refl in H. simpl in H.
    rewrite nth_error_updateNth. destruct (nth_error d i) as [n|]; [|reflexivity].
    destruct p as [|i' p]; [discriminate|].
    destruct q as [|j' q]; [discriminate|].
    cbn [option_map].
    destruct n as [| | |nm at_ cs]; cbn [withChildren children]; try reflexivity.
    now apply IH.
  - rewrite nth_error_updateNth_other by exact Hij. reflexivity.
Qed.

Lemma get_each_apart (f : node -> node) (p : path) (qs : list path) (d : list node) :
  Forall (fun q => apart p q = true) qs -> get (each qs f d) p = get d p.
Proof.
  induction 1 as [|q qs Hq _ IH]; [reflexivity|].
  unfold each in *. simpl. now rewrite get_updateAt_apart.
Qed.

(** The node at a selected position that is apart from the other selected
    positions is updated once. *)
Lemma get_each_at (f : node -> node) (p : path) (before after : list path) (d : list node) :
  Forall (fun q => apart p q = true) (before ++ after) ->
  get (each (before ++ p :: after) f d) p = option_map f (get d p).
Proof.
  intros H. apply Forall_app in H as [Hb Ha].
  unfold each. rewrite fold_right_app. simpl.
  change (get (each before f (updateAt f p (each after f d))) p = option_map f (get d p)).
  now rewrite (get_each_apart f p before _ Hb), get_updateAt, (get_each_apart f p after _ Ha).
Qed.

Lemma outermost_one (p : path) : outermost [p] = [p].
Proof.
  unfold outermost, above. simpl.
  now rewrite Nat.ltb_irrefl, andb_false_r.
Qed.

Lemma textAll_length (sel : node -> bool) (s : string) (l : list node) :
  List.length (textAll sel s l) = List.length l.
Proof. apply length_map. Qed.

Lemma textAll_app (sel : node -> bool) (s : string) (a b : list node) :
  textAll sel s (a ++ b) = textAll sel s a ++ textAll sel s b.
Proof. apply map_app. Qed.

End DomFacts.

(** ** The post document *)

Section PostFacts.

Context {cheerio : Cheerio}.
Import Dom.

Lemma isTag_element (t : string) (n : node) :
  isTag t n = true -> exists at_ cs, n = Element t at_ cs.
Proof.
  destruct n as [| | |nm at_ cs]; try discriminate. simpl.
  intros H. apply String.eqb_eq in H. subst nm. now exists at_, cs.
Qed.

(** What [replaceContent] does to the one content container of a
    document. *)
Lemma replaceContent_at (d : document) (blogData : GeneratedContent) (dateDisplay : string)
    (p : path) :
  select Selector.contentSection d = [p] ->
  exists at_ old,
    get d p = Some (Element "section" at_ old) /\
    get (replaceContent d blogData dateDisplay) p =
      Some (Element "section" at_
              (textAll Selector.dateLine (byline dateDisplay)
                 (detached d (hd_error (find [p] (isTag "img") d))
                             (hd_error (find [p] (isTag "h2") d)) ++
                  detached d (hd_error (find [p] (isTag "h2") d))
                             (hd_error (find [p] (isTag "img") d)) ++
                  parseMarkup None (content blogData) ++
                  parseMarkup None (dateParagraph dateDisplay)))).
Proof.
  intros Hone.
  destruct (select_sound Selector.contentSection p d) as (n & Hn & Sn);
    [rewrite Hone; now left|].
  apply andb_prop in Sn as [Sn _]. apply isTag_element in Sn as (at_ & old & ->).
  exists at_, old. split; [exact Hn|].
  unfold replaceContent. rewrite Hone, outermost_one. unfold each. cbn [fold_right].
  rewrite !get_updateAt, Hn. cbn [option_map empty append withChildren].
  now rewrite app_nil_l, <- !app_assoc.
Qed.

End PostFacts.

(** C1 (as amended).  When the signature matches one node of the document,
    that container holds after [renderPost], in this order: the image and
    the heading it had (each if present), every top-level node of the parsed
    body markup, and the date paragraph with the byline as its text.  The
    body is spliced in, not wrapped: the container has as many children as
    there are kept nodes, top-level nodes of the body, plus one, of which at
    most two are kept nodes; so it has four children exactly when the kept
    nodes and the top-level nodes of the body are three together, which
    with both kept nodes present is when the body has one top-level
    node. *)
Theorem renderPost_container_children {cheerio : Cheerio} (template : document)
    (blogData : GeneratedContent) (imageFile dateDisplay : string) (p : path) :
  let d := updateTemplate template blogData imageFile in
  let heroImg := hd_error (Dom.find [p] (Dom.isTag "img") d) in
  let mainTitle := hd_error (Dom.find [p] (Dom.isTag "h2") d) in
  let kept := detached d heroImg mainTitle ++ detached d mainTitle heroImg in
  let body := parseMarkup None (content blogData) in
  let dateClass := [("class", "text-gray-400 text-sm mb-6")%string] in
  Dom.select Selector.contentSection d = [p] ->
  parseMarkup None (dateParagraph dateDisplay) = [Element "p" dateClass [Text dateDisplay]] ->
  exists at_ old now,
    Dom.get d p = Some (Element "section" at_ old) /\
    Dom.get (renderPost template blogData imageFile dateDisplay) p =
      Some (Element "section" at_ now) /\
    now = Dom.textAll Selector.dateLine (byline dateDisplay) (kept ++ body) ++
          [Element "p" dateClass [Text (byline dateDisplay)]] /\
    List.length now = List.length kept + List.length body + 1 /\
    List.length kept <= 2 /\
    (List.length now = 4 <-> List.length kept + List.length body = 3) /\
    (List.length kept = 2 -> (List.length now = 4 <-> List.length body = 1)).
Proof.
  intros d heroImg mainTitle kept body dateClass Hone Hdate.
  destruct (replaceContent_at d blogData dateDisplay p Hone) as (at_ & old & Hget & Hnew).
  exists at_, old. eexists. split; [exact Hget|]. split; [exact Hnew|].
  rewrite Hdate, !app_assoc, textAll_app. fold heroImg mainTitle kept body.
  split; [reflexivity|]. split; [|split; [|split]].
  - rewrite length_app, textAll_length, length_app. reflexivity.
  - unfold kept, detached. rewrite length_app.
    destruct heroImg as [pi|], mainTitle as [pt|]; cbn [List.length];
      repeat match goal with
             | |- context [match ?x with _ => _ end] => destruct x; cbn [List.length]
             end; lia.
  - rewrite length_app, !textAll_length, length_app. cbn [List.length]. lia.
  - rewrite length_app, !textAll_length, length_app. cbn [List.length]. lia.
Qed.

(** C1 on the sample template and the smart template for the first topic of
    the catalog: the container is the third child of the body, and after
    [renderPost] it holds the image, the heading, the fifteen top-level
    nodes of the body and the date paragraph. *)
Lemma renderPost_container_children_sample :
  let base := Mini.parse Sample.template in
  let data := generateFallbackContent "AI tools for productivity" in
  Dom.select Selector.contentSection
    (updateTemplate (cheerio := Mini.cheerio) base data "cover.jpg") = [[0; 1; 2]] /\
  exists at_ now,
    Dom.get (renderPost (cheerio := Mini.cheerio) base data "cover.jpg" "Mar 01, 2025")
      [0; 1; 2] = Some (Element "section" at_ now) /\
    List.length now = 18.
Proof.
  intros base data. split; [vm_compute; reflexivity|].
  destruct (renderPost_container_children (cheerio := Mini.cheerio)
              base data "cover.jpg" "Mar 01, 2025" [0; 1; 2])
    as (at_ & old & now & _ & Hnow & _ & Hlen & _);
    [vm_compute; reflexivity | vm_compute; reflexivity |].
  exists at_, now. split; [exact Hnow|]. rewrite Hlen. vm_compute. reflexivity.
Defined.

(** C1, the count at work: with the body that the script itself generates,
    the container of the sample template has eighteen child nodes after
    [renderPost], ten of them elements, and not four. *)
Lemma renderPost_fallback_body_children :
  let post :=
    renderPost (cheerio := Mini.cheerio) (Mini.parse Sample.template)
      (generateFallbackContent "AI tools for productivity") "cover.jpg" "Mar 01, 2025" in
  let container := option_map Dom.children (Dom.get post [0; 1; 2]) in
  Dom.select Selector.contentSection post = [[0; 1; 2]] /\
  option_map (@List.length node) container = Some 18 /\
  option_map (fun kids => List.length (Dom.elements kids)) container = Some 10 /\
  option_map (fun kids => List.length (Dom.elements kids)) container <> Some 4.
Proof. vm_compute. repeat split. discriminate. Qed.

(** The count is four also with a body of two top-level nodes, when the
    container has a heading and no image. *)
Example renderPost_four_children_without_image :
  let template :=
    ("<html><head></head><body><section class=" ++ Js.dq ++ Sample.containerClass ++ Js.dq ++
     "><h2>Old title</h2><p>Old text</p></section></body></html>")%string in
  let data :=
    {| title := "New title"; content := "<p>a</p><p>b</p>"; metaDescription := "About it." |} in
  let post :=
    renderPost (cheerio := Mini.cheerio) (Mini.parse template) data "cover.jpg" "Mar 01, 2025" in
  List.length (Mini.parse (content data)) = 2 /\
  option_map (fun n => List.length (Dom.children n)) (Dom.get post [0; 1; 0]) = Some 4.
Proof. vm_compute. split; reflexivity. Qed.

(** ** The index document *)

Lemma gridContainer_shallow : shallow Selector.gridContainer.
Proof. intros nm at_ cs cs'. reflexivity. Qed.

Lemma gridContainer_element (n : node) :
  Selector.gridContainer n = true -> exists nm at_ cs, n = Element nm at_ cs.
Proof. destruct n as [| | |nm at_ cs]; try discriminate. now exists nm, at_, cs. Qed.

Lemma prependCard_at {cheerio : Cheerio} (index : document) (p : path) (cardHtml : string) :
  Dom.select Selector.gridContainer index = [p] ->
  prependCard index cardHtml = Dom.updateAt (Dom.prepend (parseMarkup None cardHtml)) p index.
Proof. intros H. unfold prependCard. now rewrite H. Qed.

(** C3 (as amended).  Let a listing container be present in the index
    document at [p]: a node that matches the grid signature, any other match
    lying apart from it (so in particular the one node that matches).
    [insertEntry]
    logs nothing and puts the nodes of the new entry in front of the
    children of the container, which stay as they were and in their order;
    the element children are those of the entry followed by the old ones.
    Inserting [E1] and then [E2] into the one, empty container leaves the
    nodes of [E2] followed by those of [E1], when [E1] holds no node with
    the grid signature. *)
Theorem insertEntry_first_child {cheerio : Cheerio} (env : Env) (index : document)
    (p : path) (before after : list path) (E1 E2 : string) (st : state) :
  Dom.select Selector.gridContainer index = before ++ p :: after ->
  Forall (fun q => apart p q = true) (before ++ after) ->
  exists nm at_ kids,
    Dom.get index p = Some (Element nm at_ kids) /\
    insertEntry env index E1 st = (Returned (prependCard index E1), st) /\
    Dom.get (prependCard index E1) p =
      Some (Element nm at_ (parseMarkup None E1 ++ kids)) /\
    Dom.elements (parseMarkup None E1 ++ kids) =
      Dom.elements (parseMarkup None E1) ++ Dom.elements kids /\
    (before = [] -> after = [] -> kids = [] ->
     Dom.select Selector.gridContainer (parseMarkup None E1) = [] ->
     insertEntry env (prependCard index E1) E2 st =
       (Returned (prependCard (prependCard index E1) E2), st) /\
     Dom.get (prependCard (prependCard index E1) E2) p =
       Some (Element nm at_ (parseMarkup None E2 ++ parseMarkup None E1))).
Proof.
  intros Hsel Hapart.
  destruct (select_sound Selector.gridContainer p index) as (n & Hn & Sn);
    [rewrite Hsel; apply in_elt|].
  destruct (gridContainer_element n Sn) as (nm & at_ & kids & ->).
  exists nm, at_, kids.
  split; [exact Hn|]. split.
  { unfold insertEntry. rewrite Hsel, length_app. cbn [List.length].
    now rewrite Nat.add_succ_r. }
  split.
  { unfold prependCard. now rewrite Hsel, get_each_at, Hn. }
  split; [apply filter_app|].
  intros -> -> -> Hcard. cbn [app] in Hsel.
  assert (Hone : Dom.select Selector.gridContainer
                   (Dom.updateAt (Dom.prepend (parseMarkup None E1)) p index) = [p]).
  { apply (select_unique_updateAt Selector.gridContainer _ p index
             (Element nm at_ []) gridContainer_shallow Hsel Hn).
    - exact Sn.
    - simpl. now rewrite app_nil_r. }
  rewrite (prependCard_at index p E1 Hsel). split.
  - unfold insertEntry. now rewrite Hone.
  - rewrite (prependCard_at _ p E2 Hone), !get_updateAt, Hn.
    simpl. now rewrite app_nil_r.
Qed.

(** C3 on the sample index: the container is the first child of the body
    and starts empty; after the first and then the second card it holds the
    nodes of the second card followed by those of the first, two elements in
    all. *)
Lemma insertEntry_first_child_sample :
  let index := Mini.parse Sample.index in
  let once := prependCard (cheerio := Mini.cheerio) index Sample.firstCard in
  let twice := prependCard (cheerio := Mini.cheerio) once Sample.secondCard in
  Dom.select Selector.gridContainer index = [[0; 1; 0]] /\
  exists nm at_,
    Dom.get twice [0; 1; 0] =
      Some (Element nm at_ (Mini.parse Sample.secondCard ++ Mini.parse Sample.firstCard)) /\
    List.length (Dom.elements (Mini.parse Sample.secondCard ++ Mini.parse Sample.firstCard)) = 2.
Proof.
  intros index once twice. split; [vm_compute; reflexivity|].
  destruct (insertEntry_first_child (cheerio := Mini.cheerio) Sample.env index [0; 1; 0]
              [] [] Sample.firstCard Sample.secondCard
              (Sample.disk Sample.template Sample.index))
    as (nm & at_ & kids & Hget & _ & _ & _ & Htwo); [vm_compute; reflexivity | constructor |].
  vm_compute in Hget. injection Hget as <- <- <-.
  destruct Htwo as [_ Htwo]; [reflexivity | reflexivity | reflexivity | vm_compute; reflexivity|].
  eexists _, _. split; [exact Htwo|]. vm_compute. reflexivity.
Defined.

(** C3, the counterexamples.  The prepend of line 256 reaches every node
    that matches the grid signature.  In an index whose listing container
    holds another node with the signature, that existing child receives the
    entry too and is not left as it was; and when the first entry itself
    holds a node with the signature, the second entry is also put into the
    first, so the container does not hold the second followed by the
    first. *)
Lemma insertEntry_nested_containers :
  let grid := "grid md:grid-cols-3 gap-10"%string in
  let box := ("<div class=" ++ Js.dq ++ grid ++ Js.dq ++ "></div>")%string in
  let nested :=
    ("<html><head></head><body><div class=" ++ Js.dq ++ grid ++ Js.dq ++ ">" ++ box ++
     "</div></body></html>")%string in
  let st := Sample.disk Sample.template nested in
  let inner := Element "div" [("class", grid)] [] in
  let entry := Mini.parse Sample.firstCard in
  let index := Mini.parse nested in
  let once := prependCard (cheerio := Mini.cheerio) (Mini.parse Sample.index) box in
  let twice := prependCard (cheerio := Mini.cheerio) once Sample.secondCard in
  Dom.select Selector.gridContainer index = [[0; 1; 0]; [0; 1; 0; 0]] /\
  Dom.get index [0; 1; 0] = Some (Element "div" [("class", grid)] [inner]) /\
  (exists index' : document,
      insertEntry (cheerio := Mini.cheerio) Sample.env index Sample.firstCard st =
        (Returned index', st) /\
      Dom.get index' [0; 1; 0] =
        Some (Element "div" [("class", grid)]
                (entry ++ [Element "div" [("class", grid)] entry])) /\
      Dom.get index' [0; 1; 0] <> Some (Element "div" [("class", grid)] (entry ++ [inner]))) /\
  Dom.get (Mini.parse Sample.index) [0; 1; 0] = Some inner /\
  Mini.parse box = [inner] /\
  Dom.get twice [0; 1; 0] =
    Some (Element "div" [("class", grid)]
            (Mini.parse Sample.secondCard ++
             [Element "div" [("class", grid)] (Mini.parse Sample.secondCard)])) /\
  Dom.get twice [0; 1; 0] <>
    Some (Element "div" [("class", grid)] (Mini.parse Sample.secondCard ++ Mini.parse box)).
Proof.
  vm_compute. repeat split; try discriminate.
  eexists. repeat split. discriminate.
Qed.

(** ** The run *)

Section PathFacts.

Import Js.
Local Open Scope string_scope.

Lemma lastChar_app (s t : string) :
  lastChar (s ++ t) = match lastChar t with Some d => Some d | None => lastChar s end.
Proof.
  induction s as [|c r IH]; simpl; [now destruct (lastChar t)|].
  rewrite IH. now destruct (lastChar t).
Qed.

Lemma all_app (p : ascii -> bool) (s t : string) : all p (s ++ t) = all p s && all p t.
Proof. induction s as [|c r IH]; simpl; [reflexivity|]. now rewrite IH, andb_assoc. Qed.

Lemma append_inj_l (s a b : string) : s ++ a = s ++ b -> a = b.
Proof. induction s as [|c r IH]; simpl; [auto|]. intros H. injection H as H. auto. Qed.

Lemma pathJoin_inj (dir a b : string) : pathJoin dir a = pathJoin dir b -> a = b.
Proof. unfold pathJoin. intros H. apply append_inj_l in H. now injection H. Qed.

Variable env : Env.
Variables slug dateISO : string.

(** The three files of a run are distinct from one another and from the
    template. *)
Lemma template_not_image :
  (BLOG_TEMPLATE_PATH env =? pathJoin (IMAGE_DIR env) (imageFilename slug dateISO)) = false.
Proof.
  apply String.eqb_neq. intros H. apply pathJoin_inj in H.
  apply (f_equal lastChar) in H. unfold imageFilename in H.
  rewrite !lastChar_app in H. discriminate.
Qed.

Lemma index_not_image :
  (BLOGS_INDEX_PATH env =? pathJoin (IMAGE_DIR env) (imageFilename slug dateISO)) = false.
Proof.
  apply String.eqb_neq. intros H. apply pathJoin_inj in H.
  apply (f_equal lastChar) in H. unfold imageFilename in H.
  rewrite !lastChar_app in H. discriminate.
Qed.

Lemma index_not_post :
  (BLOGS_INDEX_PATH env =? pathJoin (REPO_ROOT env) (blogFilename slug dateISO)) = false.
Proof.
  apply String.eqb_neq. intros H. apply pathJoin_inj in H.
  apply (f_equal (all (fun c => negb (isSep c)))) in H. unfold blogFilename in H.
  rewrite !all_app in H. simpl in H. rewrite andb_false_r in H. discriminate.
Qed.

End PathFacts.

Section RunFacts.

Context {cheerio : Cheerio}.
Variable env : Env.
Import Js.

(** *** Computations only add to the trace *)

Lemma ret_extends {A : Type} (a : A) : extends (ret a).
Proof. intros st. exists []. simpl. now rewrite app_nil_r. Qed.

Lemma throw_extends {A : Type} (e : error) : extends (@throw A e).
Proof. intros st. exists []. simpl. now rewrite app_nil_r. Qed.

Lemma emit_extends (e : effect) : extends (emit e).
Proof. intros st. now exists [e]. Qed.

Lemma store_extends (f d : string) : extends (store f d).
Proof. intros st. exists []. simpl. now rewrite app_nil_r. Qed.

Lemma fileContents_extends (f : string) : extends (fileContents f).
Proof. intros st. exists []. simpl. now rewrite app_nil_r. Qed.

Lemma bind_extends {A B : Type} (m : M A) (k : A -> M B) :
  extends m -> (forall a, extends (k a)) -> extends (bind m k).
Proof.
  intros Hm Hk st. unfold bind. destruct (Hm st) as [es1 E1].
  destruct (m st) as [[a | e] st1]; simpl in *.
  - destruct (Hk a st1) as [es2 E2]. exists (es1 ++ es2). now rewrite E2, E1, app_assoc.
  - now exists es1.
Qed.

Lemma tryCatch_extends {A : Type} (m : M A) (h : error -> M A) :
  extends m -> (forall e, extends (h e)) -> extends (tryCatch m h).
Proof.
  intros Hm Hh st. unfold tryCatch. destruct (Hm st) as [es1 E1].
  destruct (m st) as [[a | e] st1]; simpl in *.
  - now exists es1.
  - destruct (Hh e st1) as [es2 E2]. exists (es1 ++ es2). now rewrite E2, E1, app_assoc.
Qed.

Ltac grow_trace :=
  repeat first
    [ apply ret_extends | apply throw_extends | apply emit_extends | apply store_extends
    | apply fileContents_extends
    | apply bind_extends; [|intros ?]
    | apply tryCatch_extends; [|intros ?]
    | match goal with |- extends (match ?x with _ => _ end) => destruct x end
    | match goal with |- extends (if ?x then _ else _) => destruct x end ].

Lemma logError_extends (msg : string) : extends (logError env msg).
Proof. unfold logError, consoleError, appendFileSync. grow_trace. Qed.

Lemma gitAutomation_extends (b : GeneratedContent) (t i f : string) :
  extends (gitAutomation env b t i f).
Proof.
  unfold gitAutomation, consoleLog, consoleError. grow_trace; apply logError_extends.
Qed.

Lemma handler_extends (e : error) :
  extends (logError env (message e) ;; consoleError ("Critical Error: " ++ message e)%string).
Proof. unfold consoleError. grow_trace. Qed.

Lemma bind_assoc {A B C : Type} (m : M A) (k : A -> M B) (h : B -> M C) (st : state) :
  bind (bind m k) h st = bind m (fun a => bind (k a) h) st.
Proof. unfold bind. now destruct (m st) as [[a | e] s]. Qed.

Lemma emit_first {A : Type} (e : effect) (k : unit -> M A) (st : state) :
  extends (k tt) ->
  exists es : list effect, trace (snd (bind (emit e) k st)) = trace st ++ [e] ++ es.
Proof.
  intros Hk. unfold bind, emit. destruct (Hk (traced [e] st)) as [es E].
  exists es. unfold traced in E. rewrite E. cbn [trace]. now rewrite <- app_assoc.
Qed.

(** *** The steps of the run *)

Lemma logError_run (msg : string) (st : state) :
  logError env msg st =
    (Returned tt,
     traced [AppendFile (LOG_FILE_PATH env) (logLine env msg)]
       (appended (LOG_FILE_PATH env) (logLine env msg)
          (traced [ConsoleError (logLine env msg)] st))).
Proof. reflexivity. Qed.

(** The top-level handler catches whatever the pipeline throws. *)
Lemma run_returns (st : state) : fst (run env st) = Returned tt.
Proof.
  unfold run, tryCatch.
  destruct (pipeline env st) as [[[] | e] st']; reflexivity.
Qed.

(** The pipeline up to the download, when the image is saved. *)
Lemma pipeline_saved (st : state) (bytes : string) :
  imageAnswer env = ImageSaved bytes ->
  exists line : string,
    pipeline env st =
      (createBlogFile env (contentOf env) (imageOf env) (postOf env) (nowDisplay env) ;;
       updateBlogsIndex env (contentOf env) (imageOf env) (postOf env) (nowDisplay env) ;;
       gitAutomation env (contentOf env) (getRandomTopic env) (imageOf env) (postOf env))
        (stored (pathJoin (IMAGE_DIR env) (imageOf env)) bytes
           (traced [ConsoleLog ("Selected Topic: " ++ getRandomTopic env)%string;
                    ConsoleLog line;
                    ConsoleLog ("Title: " ++ title (contentOf env))%string;
                    ConsoleLog "Downloading cover image...";
                    HttpGet (imageUrl (getRandomTopic env));
                    WriteFile (pathJoin (IMAGE_DIR env) (imageOf env)) bytes] st)).
Proof.
  intros H. unfold pipeline.
  cbv beta iota zeta delta [bind consoleLog emit ret].
  match goal with |- context [generateContent env ?t ?s] =>
    destruct (generateContent_run env t s) as [line E]; rewrite E end.
  exists line.
  cbv beta iota zeta delta
    [getFormattedDate downloadImage axiosGet writeFileSync store tryCatch bind consoleLog
     emit ret throw].
  rewrite H. cbn [trace files].
  unfold stored, traced. cbn [trace files]. rewrite <- !app_assoc. reflexivity.
Qed.

Lemma createBlogFile_run (blogData : GeneratedContent) (imageFile blogFile dateDisplay : string)
    (st : state) (tpl : string) :
  files st (BLOG_TEMPLATE_PATH env) = Some tpl ->
  createBlogFile env blogData imageFile blogFile dateDisplay st =
    (Returned tt,
     stored (pathJoin (REPO_ROOT env) blogFile)
       (serialize (renderPost (cheerio_load tpl) blogData imageFile dateDisplay))
       (traced [ConsoleLog "Creating blog HTML file...";
                WriteFile (pathJoin (REPO_ROOT env) blogFile)
                  (serialize (renderPost (cheerio_load tpl) blogData imageFile dateDisplay))]
          st)).
Proof.
  intros H. unfold createBlogFile.
  cbv beta iota zeta delta [readFileSync fileContents writeFileSync store bind consoleLog emit ret].
  cbn [trace files]. rewrite H.
  unfold stored, traced. cbn [trace files]. rewrite <- !app_assoc. reflexivity.
Qed.

(** A run whose image is saved and whose template can be read: the events
    up to the post file and the start of the index update, and whatever
    follows. *)
Lemma run_writes_post (st : state) (bytes tpl : string) :
  imageAnswer env = ImageSaved bytes ->
  files st (BLOG_TEMPLATE_PATH env) = Some tpl ->
  exists (line : string) (es : list effect),
    trace (snd (run env st)) =
      trace st ++
      [ConsoleLog ("Selected Topic: " ++ getRandomTopic env)%string;
       ConsoleLog line;
       ConsoleLog ("Title: " ++ title (contentOf env))%string;
       ConsoleLog "Downloading cover image...";
       HttpGet (imageUrl (getRandomTopic env));
       WriteFile (pathJoin (IMAGE_DIR env) (imageOf env)) bytes;
       ConsoleLog "Creating blog HTML file...";
       WriteFile (pathJoin (REPO_ROOT env) (postOf env))
         (serialize (renderPost (cheerio_load tpl) (contentOf env) (imageOf env)
                       (nowDisplay env)));
       ConsoleLog "Updating blogs.html index..."] ++ es.
Proof.
  intros Himg Htpl.
  destruct (pipeline_saved st bytes Himg) as [line E]. exists line.
  unfold run, tryCatch. rewrite E. unfold bind at 1.
  rewrite (createBlogFile_run (contentOf env) (imageOf env) (postOf env) (nowDisplay env) _ tpl)
    by (cbn [files stored traced]; unfold imageOf; rewrite template_not_image; exact Htpl).
  unfold updateBlogsIndex, consoleLog at 1. rewrite bind_assoc.
  match goal with
  | |- context [bind (emit ?e) ?k ?s] =>
      destruct (emit_first e k s) as [es1 E1];
        [unfold insertEntry, readFileSync, writeFileSync, consoleLog;
         grow_trace; first [apply logError_extends | apply gitAutomation_extends]|];
      destruct (bind (emit e) k s) as [[[] | err] s1]
  end.
  - eexists. cbn [snd] in *. rewrite E1. cbn [trace traced stored].
    rewrite <- !app_assoc. reflexivity.
  - destruct (handler_extends err s1) as [es2 E2].
    eexists. cbn [snd] in *. rewrite E2, E1. cbn [trace traced stored].
    rewrite <- !app_assoc. reflexivity.
Qed.

Lemma updateBlogsIndex_missing (blogData : GeneratedContent)
    (imageFile blogFile dateDisplay : string) (st : state) (idx : string) :
  files st (BLOGS_INDEX_PATH env) = Some idx ->
  Dom.select Selector.gridContainer (cheerio_load idx) = [] ->
  exists fs : string -> option string,
    updateBlogsIndex env blogData imageFile blogFile dateDisplay st =
      (Returned tt,
       {| files := fs;
          trace := trace st ++
                   [ConsoleLog "Updating blogs.html index...";
                    ConsoleError (logLine env gridMissing);
                    AppendFile (LOG_FILE_PATH env) (logLine env gridMissing);
                    WriteFile (BLOGS_INDEX_PATH env) (serialize (cheerio_load idx))] |}).
Proof.
  intros Hidx Hgrid. unfold updateBlogsIndex, insertEntry.
  cbv beta iota zeta delta [readFileSync fileContents bind consoleLog emit ret].
  cbn [trace files]. rewrite Hidx, Hgrid. cbn [List.length Nat.eqb].
  fold gridMissing. rewrite logError_run.
  cbv beta iota zeta delta [writeFileSync store bind consoleLog emit ret traced appended stored].
  cbn [trace files]. rewrite <- !app_assoc. eexists. reflexivity.
Qed.

End RunFacts.



(** C2 (as amended).  [renderPost] raises nothing and a missing anchor stops
    nothing: whenever the image is saved and the template can be read and
    has at most one content container, the post file is written with the
    mutated document, the run goes on to the index update, and [run]
    returns.  Where the content container is absent the document written is
    the template after the title, heading and image updates, without body
    or byline. *)
Theorem renderPost_never_fails {cheerio : Cheerio} (env : Env) (st : state)
    (bytes tpl : string) :
  imageAnswer env = ImageSaved bytes ->
  files st (BLOG_TEMPLATE_PATH env) = Some tpl ->
  List.length (containers env tpl) <= 1 ->
  let base := cheerio_load tpl in
  let post := renderPost base (contentOf env) (imageOf env) (nowDisplay env) in
  fst (run env st) = Returned tt /\
  (exists before after : list effect,
      trace (snd (run env st)) =
        trace st ++ before ++
        [ConsoleLog "Creating blog HTML file...";
         WriteFile (pathJoin (REPO_ROOT env) (postOf env)) (serialize post);
         ConsoleLog "Updating blogs.html index..."] ++ after) /\
  (containers env tpl = [] ->
   post = updateTemplate base (contentOf env) (imageOf env)).
Proof.
  intros Himg Htpl _ base post. split; [apply run_returns|]. split.
  - destruct (run_writes_post env st bytes tpl Himg Htpl) as (line & es & E).
    exists [ConsoleLog ("Selected Topic: " ++ getRandomTopic env)%string;
            ConsoleLog line;
            ConsoleLog ("Title: " ++ title (contentOf env))%string;
            ConsoleLog "Downloading cover image...";
            HttpGet (imageUrl (getRandomTopic env));
            WriteFile (pathJoin (IMAGE_DIR env) (imageOf env)) bytes], es.
    exact E.
  - unfold containers. fold base. intros Hnone.
    unfold post, renderPost, replaceContent. now rewrite Hnone.
Qed.

(** C2 on the sample repository with a template that has no anchor. *)
Lemma renderPost_never_fails_sample :
  let st := Sample.disk Sample.bareTemplate Sample.index in
  imageAnswer Sample.env = ImageSaved "JPEG" /\
  files st (BLOG_TEMPLATE_PATH Sample.env) = Some Sample.bareTemplate /\
  containers (cheerio := Mini.cheerio) Sample.env Sample.bareTemplate = [] /\
  fst (run (cheerio := Mini.cheerio) Sample.env st) = Returned tt.
Proof.
  intros st. do 3 (split; [reflexivity|]).
  refine (proj1 (renderPost_never_fails (cheerio := Mini.cheerio) Sample.env st
                   "JPEG" Sample.bareTemplate eq_refl eq_refl _)).
  vm_compute. repeat constructor.
Defined.

(** C2, a template without the content container and without any other
    anchor: no error is raised or logged, the run writes the image, the post
    and the index, and the post is the template unchanged. *)
Lemma missing_anchors_are_written :
  let st := Sample.disk Sample.bareTemplate Sample.index in
  let done := run (cheerio := Mini.cheerio) Sample.env st in
  let postFile :=
    "/repo/2025-03-01-the-future-of-quantum-computing-a-beginner-s-guide-what-you-need-to-know.html"%string in
  Dom.select Selector.contentSection (Mini.parse Sample.bareTemplate) = [] /\
  fst done = Returned tt /\
  appendedLines (trace (snd done)) = [] /\
  writtenFiles (trace (snd done)) =
    ["/repo/blog-the-future-of-quantum-computing-a-beginner-s-guide-what-you-need-to-know-2025-03-01.jpg"%string;
     postFile; "/repo/blogs.html"%string] /\
  files (snd done) postFile = Some Sample.bareTemplate.
Proof. vm_compute. repeat split. Qed.

(** C4.  When the index document has no node with the grid signature,
    [insertEntry] returns the document as it is and logs that the container
    could not be found; the run goes on: the index file is written back with
    the unchanged document, the git command is executed, and [run] returns.
    The run is one that reaches the index update: the image is saved and
    the template can be read and has at most one content container. *)
Theorem missing_grid_is_recoverable {cheerio : Cheerio} (env : Env) (st : state)
    (bytes tpl idx : string) :
  imageAnswer env = ImageSaved bytes ->
  files st (BLOG_TEMPLATE_PATH env) = Some tpl ->
  List.length (containers env tpl) <= 1 ->
  files st (BLOGS_INDEX_PATH env) = Some idx ->
  Dom.select Selector.gridContainer (cheerio_load idx) = [] ->
  (forall (card : string) (st0 : state),
      insertEntry env (cheerio_load idx) card st0 =
        (Returned (cheerio_load idx), snd (logError env gridMissing st0))) /\
  fst (run env st) = Returned tt /\
  exists (before after : list effect) (command : string),
    trace (snd (run env st)) =
      trace st ++ before ++
      [ConsoleLog "Updating blogs.html index...";
       ConsoleError (logLine env gridMissing);
       AppendFile (LOG_FILE_PATH env) (logLine env gridMissing);
       WriteFile (BLOGS_INDEX_PATH env) (serialize (cheerio_load idx));
       ConsoleLog "Executing Git commands...";
       Exec command (REPO_ROOT env)] ++ after.
Proof.
  intros Himg Htpl _ Hidx Hgrid.
  split; [|split; [apply run_returns|]].
  - intros card st0. unfold insertEntry. now rewrite Hgrid.
  - destruct (pipeline_saved env st bytes Himg) as [line E].
    unfold run, tryCatch. rewrite E. unfold bind at 1.
    rewrite (createBlogFile_run env (contentOf env) (imageOf env) (postOf env)
               (nowDisplay env) _ tpl)
      by (cbn [files stored traced]; unfold imageOf; rewrite template_not_image; exact Htpl).
    unfold bind at 1.
    match goal with
    | |- context [updateBlogsIndex env ?b ?i ?f ?d ?s] =>
        destruct (updateBlogsIndex_missing env b i f d s idx) as [fs Eidx];
          [cbn [files stored traced]; unfold postOf, imageOf;
           rewrite index_not_post, index_not_image; exact Hidx
          | exact Hgrid |];
        rewrite Eidx
    end.
    exists [ConsoleLog ("Selected Topic: " ++ getRandomTopic env)%string;
            ConsoleLog line;
            ConsoleLog ("Title: " ++ title (contentOf env))%string;
            ConsoleLog "Downloading cover image...";
            HttpGet (imageUrl (getRandomTopic env));
            WriteFile (pathJoin (IMAGE_DIR env) (imageOf env)) bytes;
            ConsoleLog "Creating blog HTML file...";
            WriteFile (pathJoin (REPO_ROOT env) (postOf env))
              (serialize (renderPost (cheerio_load tpl) (contentOf env) (imageOf env)
                            (nowDisplay env)))].
    unfold gitAutomation.
    destruct (gitAnswer env) as [stdout | err];
      cbv beta iota zeta delta [bind consoleLog consoleError emit ret];
      rewrite ?logError_run;
      cbv beta iota zeta delta
        [bind consoleLog consoleError emit ret traced appended stored snd fst];
      cbn [trace files]; rewrite <- !app_assoc; cbn [app];
      do 2 eexists; reflexivity.
Qed.

(** C4 on the sample repository with an index that has no grid container:
    one line is logged, the index is written back as it was read, and the
    commit is made. *)
Lemma missing_grid_is_recoverable_sample :
  let st := Sample.disk Sample.template Sample.plainIndex in
  let done := run (cheerio := Mini.cheerio) Sample.env st in
  imageAnswer Sample.env = ImageSaved "JPEG" /\
  files st (BLOG_TEMPLATE_PATH Sample.env) = Some Sample.template /\
  List.length (containers (cheerio := Mini.cheerio) Sample.env Sample.template) = 1 /\
  files st (BLOGS_INDEX_PATH Sample.env) = Some Sample.plainIndex /\
  Dom.select Selector.gridContainer (Mini.parse Sample.plainIndex) = [] /\
  fst done = Returned tt /\
  files (snd done) "/repo/blogs.html" = Some Sample.plainIndex /\
  List.length (appendedLines (trace (snd done))) = 1 /\
  List.length (commands (trace (snd done))) = 1.
Proof.
  intros st done. do 5 (split; [reflexivity|]).
  split.
  - refine (proj1 (proj2 (missing_grid_is_recoverable (cheerio := Mini.cheerio) Sample.env st
                            "JPEG" Sample.template Sample.plainIndex
                            eq_refl eq_refl _ eq_refl eq_refl))).
    vm_compute. repeat constructor.
  - vm_compute. repeat split.
Defined.

(** C6.  In a run that saves the image and reads a template with at most
    one content container, the image is saved as
    ["blog-{slug}-{isoDate}.jpg"] and the post is written as
    ["{isoDate}-{slug}.html"], both in the repository root, where the slug
    is that of the synthesized title ["The Future of {topic}: What You Need
    to Know"] and the date is the part of the ISO timestamp before the
    ['T'].  For the quantum computing topic on 2025-03-01 these are the two
    names of the specification. *)
Theorem derived_filenames {cheerio : Cheerio} (env : Env) (st : state) (bytes tpl : string) :
  imageAnswer env = ImageSaved bytes ->
  files st (BLOG_TEMPLATE_PATH env) = Some tpl ->
  List.length (containers env tpl) <= 1 ->
  let topic := getRandomTopic env in
  let slug := getSlug ("The Future of " ++ topic ++ ": What You Need to Know")%string in
  let isoDate := Js.beforeT (nowISO env) in
  let postFilename := (isoDate ++ "-" ++ slug ++ ".html")%string in
  let imageName := ("blog-" ++ slug ++ "-" ++ isoDate ++ ".jpg")%string in
  (exists (before after : list effect) (document : string),
      trace (snd (run env st)) =
        trace st ++ before ++
        [WriteFile (pathJoin (REPO_ROOT env) imageName) bytes;
         ConsoleLog "Creating blog HTML file...";
         WriteFile (pathJoin (REPO_ROOT env) postFilename) document] ++ after) /\
  (topic = "Quantum Computing: A Beginner's Guide"%string ->
   isoDate = "2025-03-01"%string ->
   postFilename =
     "2025-03-01-the-future-of-quantum-computing-a-beginner-s-guide-what-you-need-to-know.html"%string /\
   imageName =
     "blog-the-future-of-quantum-computing-a-beginner-s-guide-what-you-need-to-know-2025-03-01.jpg"%string).
Proof.
  intros Himg Htpl _ topic slug isoDate postFilename imageName. split.
  - destruct (run_writes_post env st bytes tpl Himg Htpl) as (line & es & E).
    exists [ConsoleLog ("Selected Topic: " ++ getRandomTopic env)%string;
            ConsoleLog line;
            ConsoleLog ("Title: " ++ title (contentOf env))%string;
            ConsoleLog "Downloading cover image...";
            HttpGet (imageUrl (getRandomTopic env))],
           (ConsoleLog "Updating blogs.html index..." :: es).
    eexists. exact E.
  - unfold postFilename, imageName, slug. intros -> ->. split; reflexivity.
Qed.

(** C6 on the sample repository: the draw is the quantum computing topic
    and the clock reads the first of March 2025. *)
Lemma derived_filenames_sample :
  let st := Sample.disk Sample.template Sample.index in
  imageAnswer Sample.env = ImageSaved "JPEG" /\
  files st (BLOG_TEMPLATE_PATH Sample.env) = Some Sample.template /\
  List.length (containers (cheerio := Mini.cheerio) Sample.env Sample.template) = 1 /\
  getRandomTopic Sample.env = "Quantum Computing: A Beginner's Guide"%string /\
  postOf Sample.env =
    "2025-03-01-the-future-of-quantum-computing-a-beginner-s-guide-what-you-need-to-know.html"%string /\
  imageOf Sample.env =
    "blog-the-future-of-quantum-computing-a-beginner-s-guide-what-you-need-to-know-2025-03-01.jpg"%string.
Proof.
  intros st. do 4 (split; [reflexivity|]).
  refine (proj2 (derived_filenames (cheerio := Mini.cheerio) Sample.env st
                   "JPEG" Sample.template eq_refl eq_refl _) eq_refl eq_refl).
  vm_compute. repeat constructor.
Defined.

(* ================================================================== *)
(** * Further properties *)

(** ** Slugs of slugs and of synthesized titles *)

Section NormalForm.

Import Js.
Local Open Scope string_scope.

Lemma lowerChar_slugChar (c : ascii) : slugChar c = true -> lowerChar c = c.
Proof.
  unfold slugChar, lowerChar. intros H.
  destruct (between "A" "Z" c) eqn:U; [|reflexivity].
  destruct c as [[] [] [] [] [] [] [] []]; vm_compute in H, U; discriminate.
Qed.

Lemma toLowerCase_slug (s : string) : all slugChar s = true -> toLowerCase s = s.
Proof.
  induction s as [|c r IH]; simpl; [reflexivity|].
  intros H. apply andb_prop in H as [Hc Hr].
  now rewrite (lowerChar_slugChar c Hc), IH.
Qed.

Lemma replaceRuns_slug (b : bool) (s : string) :
  all slugChar s = true -> hasDoubleSep s = false ->
  (b = true -> startsWithSep s = false) ->
  replaceRuns b s = s.
Proof.
  revert b. induction s as [|c r IH]; intros b Hall Hdbl Hb; [reflexivity|].
  simpl in Hall. apply andb_prop in Hall as [Hc Hr].
  rewrite hasDoubleSep_cons in Hdbl. apply orb_false_elim in Hdbl as [Hcd Hrd].
  simpl. destruct (isAlnum c) eqn:A.
  - rewrite (IH false Hr Hrd); [reflexivity | discriminate].
  - unfold slugChar in Hc. rewrite A in Hc. simpl in Hc.
    destruct b; [specialize (Hb eq_refl); simpl in Hb; congruence|].
    rewrite Hc in Hcd. simpl in Hcd.
    rewrite (IH true Hr Hrd (fun _ => Hcd)). apply isSep_dash in Hc. now subst c.
Qed.

Lemma stripEdges_id (b : bool) (s : string) :
  (b = true -> startsWithSep s = false) -> endsWithSep s = false ->
  stripEdges b s = s.
Proof.
  revert b. induction s as [|c r IH]; intros b Hb He; [reflexivity|].
  rewrite endsWithSep_cons in He. simpl.
  destruct r as [|d r'].
  - rewrite He. reflexivity.
  - rewrite (IH false); [|discriminate | exact He].
    cbn [String.eqb]. rewrite orb_false_r.
    destruct b; [|now rewrite andb_false_r].
    specialize (Hb eq_refl). simpl in Hb. now rewrite Hb.
Qed.

End NormalForm.

(** X1.  A slug is a fixed point of [getSlug]: slugging a slug gives the
    same slug, and a slug is its own lower case.  A file name derived from
    a title can therefore be derived again from the slug alone. *)
Theorem getSlug_idempotent (title : string) :
  getSlug (getSlug title) = getSlug title /\
  Js.toLowerCase (getSlug title) = getSlug title.
Proof.
  assert (Hchars : Js.all slugChar (getSlug title) = true)
    by (apply stripEdges_chars, replaceRuns_chars).
  assert (Hsingle : Js.hasDoubleSep (getSlug title) = false)
    by (apply stripEdges_single, replaceRuns_single).
  assert (Hstart : Js.startsWithSep (getSlug title) = false)
    by (apply stripEdges_start, replaceRuns_single).
  assert (Hend : Js.endsWithSep (getSlug title) = false)
    by (apply stripEdges_end, replaceRuns_single).
  split; [|now apply toLowerCase_slug].
  unfold getSlug at 1. rewrite (toLowerCase_slug _ Hchars).
  rewrite (replaceRuns_slug false _ Hchars Hsingle) by discriminate.
  now apply stripEdges_id.
Qed.

Section TitleSlug.

Import Js.
Local Open Scope string_scope.

Lemma length_append (a b : string) :
  String.length (a ++ b) = String.length a + String.length b.
Proof. induction a as [|c a IH]; simpl; [reflexivity | now rewrite IH]. Qed.

Lemma toLowerCase_app (a b : string) : toLowerCase (a ++ b) = toLowerCase a ++ toLowerCase b.
Proof. induction a as [|c r IH]; simpl; [reflexivity | now rewrite IH]. Qed.

Lemma replaceRuns_app (b : bool) (s t : string) :
  replaceRuns b (s ++ t) = replaceRuns b s ++ replaceRuns (endRun b s) t.
Proof.
  revert b. induction s as [|c r IH]; intros b; simpl; [reflexivity|].
  destruct (isAlnum c); simpl; [now rewrite IH|].
  destruct b; simpl; now rewrite IH.
Qed.

Lemma endRun_ends (b : bool) (s : string) :
  endRun b s = match replaceRuns b s with EmptyString => b | r => endsWithSep r end.
Proof.
  revert b. induction s as [|c r IH]; intros b; simpl; [reflexivity|].
  destruct (isAlnum c) eqn:A; simpl.
  - rewrite IH. destruct (replaceRuns false r); [now rewrite (alnum_not_sep c A) | reflexivity].
  - destruct b; [apply IH|]. rewrite IH. now destruct (replaceRuns true r).
Qed.

Lemma replaceRuns_false_true (s : string) :
  stripEdges true (replaceRuns false s) = stripEdges false (replaceRuns true s).
Proof.
  destruct s as [|c r]; [reflexivity|]. simpl.
  destruct (isAlnum c) eqn:A; [|reflexivity].
  simpl. now rewrite (alnum_not_sep c A).
Qed.

Lemma stripEdges_inner_dash (s : string) :
  stripEdges false s ++ "-" = s ++ (if endsWithSep s then EmptyString else "-").
Proof.
  induction s as [|c r IH]; [reflexivity|].
  rewrite endsWithSep_cons. simpl. destruct r as [|d r'].
  - simpl. destruct (isSep c) eqn:S; [|reflexivity].
    apply isSep_dash in S. now subst c.
  - cbn [String.eqb]. rewrite andb_false_r. simpl. f_equal. exact IH.
Qed.

Lemma endsWithSep_app (a b : string) :
  b <> EmptyString -> endsWithSep (a ++ b) = endsWithSep b.
Proof.
  intros Hb. induction a as [|c r IH]; [reflexivity|].
  change (String c r ++ b) with (String c (r ++ b)). rewrite endsWithSep_cons.
  destruct (r ++ b) eqn:E; [|exact IH].
  destruct r; [simpl in E; contradiction | discriminate].
Qed.

Lemma ends_keep (a b : string) :
  b <> EmptyString /\ endsWithSep b = false ->
  a ++ b <> EmptyString /\ endsWithSep (a ++ b) = false.
Proof.
  intros [Hb He]. split.
  - destruct a; [exact Hb | discriminate].
  - now rewrite endsWithSep_app.
Qed.

(** The separator-joined middle of the slug of a synthesized title. *)
Lemma topic_part (s : string) :
  replaceRuns true s ++ (if endRun true s then EmptyString else "-") =
  match stripEdges true (replaceRuns false s) with
  | EmptyString => EmptyString
  | r => r ++ "-"
  end.
Proof.
  rewrite replaceRuns_false_true, endRun_ends.
  pose proof (replaceRuns_start s) as Hstart.
  destruct (replaceRuns true s) as [|c r] eqn:E; [reflexivity|].
  rewrite <- stripEdges_inner_dash.
  simpl in Hstart. simpl. now rewrite Hstart.
Qed.

Lemma title_slug (topic : string) :
  getSlug (title (generateFallbackContent topic)) =
    "the-future-of-" ++
    match getSlug topic with EmptyString => EmptyString | s => s ++ "-" end ++
    "what-you-need-to-know".
Proof.
  unfold getSlug at 1. cbn [title generateFallbackContent].
  rewrite !toLowerCase_app.
  change (toLowerCase "The Future of ") with "the future of ".
  change (toLowerCase ": What You Need to Know") with ": what you need to know".
  change (replaceRuns false ("the future of " ++ ?x))
    with ("the-future-of-" ++ replaceRuns true x).
  rewrite replaceRuns_app.
  assert (Htail : forall b : bool,
            replaceRuns b ": what you need to know" =
              (if b then EmptyString else "-") ++ "what-you-need-to-know")
    by (intros []; reflexivity).
  rewrite Htail.
  rewrite stripEdges_id.
  - f_equal. unfold getSlug. rewrite <- topic_part.
    generalize (replaceRuns true (toLowerCase topic)). intros w.
    induction w as [|c r IH]; simpl; [reflexivity | now rewrite IH].
  - reflexivity.
  - repeat apply ends_keep. split; [discriminate | reflexivity].
Qed.

End TitleSlug.

(** X2.  The slug of the title that [generateFallbackContent] synthesizes
    for a topic is ["the-future-of-"], the slug of the topic followed by a
    separator, and ["what-you-need-to-know"]; a topic without a character
    of [[a-z0-9]] contributes nothing.  It is never empty and has 35
    characters besides those of the slug of the topic, so the two file
    names of a run always carry a slug. *)
Theorem fallback_title_slug (topic : string) :
  let slug := getSlug (title (generateFallbackContent topic)) in
  slug =
    ("the-future-of-" ++
     match getSlug topic with EmptyString => EmptyString | s => s ++ "-" end ++
     "what-you-need-to-know")%string /\
  slug <> EmptyString /\
  14 + String.length (getSlug topic) + 21 <= String.length slug.
Proof.
  intros slug. unfold slug. rewrite title_slug. split; [reflexivity|]. split; [discriminate|].
  rewrite !length_append. destruct (getSlug topic); simpl; [lia|].
  rewrite length_append. simpl. lia.
Qed.

(** ** The catalog and the clock *)

Section Catalog.

Local Open Scope string_scope.

Lemma append_inj_r (a b s : string) : a ++ s = b ++ s -> a = b.
Proof.
  revert b. induction a as [|c a IH]; intros [|d b] H; simpl in H.
  - reflexivity.
  - apply (f_equal String.length) in H. simpl in H. rewrite length_append in H. lia.
  - apply (f_equal String.length) in H. simpl in H. rewrite length_append in H. lia.
  - injection H as -> H. f_equal. now apply IH.
Qed.

Lemma topic_in_catalog (env : Env) : In (getRandomTopic env) TOPICS.
Proof.
  unfold getRandomTopic. apply nth_In. apply Nat.mod_upper_bound. discriminate.
Qed.

Lemma catalog_slugs_distinct :
  NoDup (map (fun t => getSlug (title (generateFallbackContent t))) TOPICS).
Proof.
  apply (NoDup_count_occ' string_dec). intros x Hx.
  vm_compute in Hx.
  repeat (destruct Hx as [<- | Hx]; [vm_compute; reflexivity|]). contradiction.
Qed.

Lemma blogFilename_inj (s1 s2 d : string) : blogFilename s1 d = blogFilename s2 d -> s1 = s2.
Proof.
  unfold blogFilename. intros H. apply append_inj_l in H. injection H as H.
  now apply append_inj_r in H.
Qed.

Lemma imageFilename_inj (s1 s2 d : string) : imageFilename s1 d = imageFilename s2 d -> s1 = s2.
Proof.
  unfold imageFilename. intros H. injection H as H.
  change (s1 ++ "-" ++ d ++ ".jpg") with (s1 ++ ("-" ++ d ++ ".jpg")) in H.
  now apply append_inj_r in H.
Qed.

Lemma slugOf_inj (env1 env2 : Env) :
  slugOf env1 = slugOf env2 -> getRandomTopic env1 = getRandomTopic env2.
Proof.
  unfold slugOf, contentOf, getRandomTopic.
  set (f := fun t => getSlug (title (generateFallbackContent t))).
  set (i := randomIndex env1 mod List.length TOPICS).
  set (j := randomIndex env2 mod List.length TOPICS).
  intros H. change (f (nth i TOPICS EmptyString) = f (nth j TOPICS EmptyString)) in H.
  assert (Hi : i < List.length TOPICS) by (apply Nat.mod_upper_bound; discriminate).
  assert (Hj : j < List.length TOPICS) by (apply Nat.mod_upper_bound; discriminate).
  rewrite <- !(map_nth f) in H.
  f_equal.
  apply (proj1 (NoDup_nth _ (f EmptyString)) catalog_slugs_distinct);
    [now rewrite length_map | now rewrite length_map | exact H].
Qed.

End Catalog.

(** X3.  [getRandomTopic] returns an entry of the catalog, and on one day
    two different topics give two different post files and two different
    image files: the titles of the twenty topics have twenty slugs. *)
Theorem distinct_topics_distinct_files (env1 env2 : Env) :
  dateOf env1 = dateOf env2 ->
  getRandomTopic env1 <> getRandomTopic env2 ->
  In (getRandomTopic env1) TOPICS /\
  In (getRandomTopic env2) TOPICS /\
  postOf env1 <> postOf env2 /\
  imageOf env1 <> imageOf env2.
Proof.
  intros Hdate Htopic.
  split; [apply topic_in_catalog|]. split; [apply topic_in_catalog|].
  unfold postOf, imageOf. rewrite Hdate.
  split; intros H; apply Htopic, slugOf_inj.
  - now apply blogFilename_inj in H.
  - now apply imageFilename_inj in H.
Qed.

(** X3 on two runs of the first of March 2025 that draw the fifteenth and
    the sixteenth topic. *)
Lemma distinct_topics_distinct_files_sample :
  dateOf Sample.env = dateOf Scenario.later /\
  getRandomTopic Sample.env = "Quantum Computing: A Beginner's Guide"%string /\
  getRandomTopic Scenario.later = "Low-Code/No-Code Development Platforms"%string /\
  postOf Sample.env <> postOf Scenario.later.
Proof.
  do 3 (split; [reflexivity|]).
  refine (proj1 (proj2 (proj2 (distinct_topics_distinct_files Sample.env Scenario.later
                                 eq_refl _)))).
  vm_compute. discriminate.
Defined.

Section Dates.

Import Js.
Local Open Scope string_scope.

Lemma beforeT_app (d rest : string) :
  all notT d = true -> beforeT (d ++ String "T" rest) = d.
Proof.
  induction d as [|c r IH]; simpl; [reflexivity|].
  unfold notT at 1. intros H. apply andb_prop in H as [Hc Hr].
  destruct (Ascii.eqb c "T"); [discriminate|]. now rewrite IH.
Qed.

End Dates.

(** X4.  [getFormattedDate] cuts the timestamp at its first ['T']: for a
    timestamp [d ++ "T" ++ rest] whose part [d] holds no ['T'], the ISO date
    is [d], and the post and the image are named after it. *)
Theorem iso_date_of_timestamp (env : Env) (d rest : string) :
  nowISO env = (d ++ "T" ++ rest)%string ->
  Js.all notT d = true ->
  getFormattedDate env = (d, nowDisplay env) /\
  postOf env = (d ++ "-" ++ slugOf env ++ ".html")%string /\
  imageOf env = ("blog-" ++ slugOf env ++ "-" ++ d ++ ".jpg")%string.
Proof.
  intros Hnow Hd.
  assert (E : dateOf env = d)
    by (unfold dateOf, getFormattedDate; cbn [fst]; rewrite Hnow; now apply beforeT_app).
  unfold postOf, imageOf. rewrite E. unfold dateOf in E. cbn [fst getFormattedDate] in E.
  unfold getFormattedDate. now rewrite E.
Qed.

(** X4 on the sample clock. *)
Lemma iso_date_of_timestamp_sample :
  nowISO Sample.env = ("2025-03-01" ++ "T" ++ "09:30:00.000Z")%string /\
  Js.all notT "2025-03-01" = true /\
  getFormattedDate Sample.env = ("2025-03-01"%string, "Mar 01, 2025"%string).
Proof.
  do 2 (split; [reflexivity|]).
  exact (proj1 (iso_date_of_timestamp Sample.env "2025-03-01" "09:30:00.000Z" eq_refl eq_refl)).
Defined.

(** ** The address of the image *)

Section Urls.

Import Js.
Local Open Scope string_scope.

Lemma hexDigit_unreserved (c : ascii) :
  unreserved (hexDigit (code c / 16)) = true /\ unreserved (hexDigit (code c mod 16)) = true.
Proof. destruct c as [[] [] [] [] [] [] [] []]; vm_compute; split; reflexivity. Qed.

Lemma unreserved_urlChar (c : ascii) : unreserved c = true -> urlChar c = true.
Proof. unfold urlChar. now intros ->. Qed.

Lemma encodeURIComponent_chars (s : string) : all urlChar (encodeURIComponent s) = true.
Proof.
  induction s as [|c r IH]; simpl; [reflexivity|].
  destruct (unreserved c) eqn:U; simpl.
  - now rewrite (unreserved_urlChar c U).
  - destruct (hexDigit_unreserved c) as [H1 H2].
    now rewrite (unreserved_urlChar _ H1), (unreserved_urlChar _ H2).
Qed.

Lemma encodeURIComponent_id (s : string) :
  all unreserved s = true -> encodeURIComponent s = s.
Proof.
  induction s as [|c r IH]; simpl; [reflexivity|].
  intros H. apply andb_prop in H as [Hc Hr]. now rewrite Hc, IH.
Qed.

End Urls.

(** X5.  The address that [downloadImage] requests holds no space and no
    character other than the unreserved ones, ['%'], [':'] and ['/'],
    whatever the topic; a topic made of unreserved characters stands in it
    as it is. *)
Theorem imageUrl_is_safe (topic : string) :
  Js.all urlChar (imageUrl topic) = true /\
  Js.includes (imageUrl topic) " " = false /\
  (Js.all unreserved topic = true ->
   imageUrl topic =
     ("https://image.pollinations.ai/prompt/technological%20" ++ topic ++
      "%20minimalist%20modern%20web%20design%20high%20quality")%string).
Proof.
  assert (H : Js.all urlChar (imageUrl topic) = true).
  { unfold imageUrl. rewrite !all_app, encodeURIComponent_chars. reflexivity. }
  split; [exact H|]. split.
  - revert H. generalize (imageUrl topic). intros s.
    induction s as [|c r IH]; [reflexivity|].
    cbn [Js.all]. intros Hs. apply andb_prop in Hs as [Hc Hr].
    rewrite includes_unfold, (IH Hr), orb_false_r. cbn [String.prefix].
    destruct (ascii_dec " " c) as [<- | Hne]; [discriminate | reflexivity].
  - intros Hu. unfold imageUrl. now rewrite encodeURIComponent_id.
Qed.

(** ** The run, case by case *)

Section Unfolding.

Context {cheerio : Cheerio}.
Variable env : Env.
Import Js.
Local Open Scope string_scope.

Lemma generateContent_line (topic : string) (st : state) :
  generateContent env topic st =
    (Returned (generateFallbackContent topic), traced [ConsoleLog (keyLine env)] st).
Proof.
  unfold generateContent, generateContentVia, keyLine.
  destruct (noKey (OPENAI_API_KEY env)); reflexivity.
Qed.

Lemma gitAutomation_run (st : state) :
  gitAutomation env (contentOf env) (getRandomTopic env) (imageOf env) (postOf env) st =
    (Returned tt, afterGit env st).
Proof.
  unfold gitAutomation, afterGit, gitCommand.
  destruct (gitAnswer env) as [stdout | e];
    cbv beta iota zeta delta [bind consoleLog consoleError emit ret];
    rewrite ?logError_run;
    unfold logged, banner, traced; cbn [trace files]; rewrite <- ?app_assoc; reflexivity.
Qed.

Lemma updateBlogsIndex_run (st : state) (idx : string) :
  files st (BLOGS_INDEX_PATH env) = Some idx ->
  updateBlogsIndex env (contentOf env) (imageOf env) (postOf env) (nowDisplay env) st =
    (Returned tt, afterIndex env idx st).
Proof.
  intros H. unfold updateBlogsIndex, insertEntry, afterIndex.
  cbv beta iota zeta delta [readFileSync fileContents bind consoleLog emit ret].
  cbn [trace files]. rewrite H. fold (cardOf env).
  destruct (Nat.eqb _ 0).
  - fold gridMissing. rewrite logError_run. reflexivity.
  - reflexivity.
Qed.

Lemma updateBlogsIndex_absent (b : GeneratedContent) (i f d : string) (st : state) :
  files st (BLOGS_INDEX_PATH env) = None ->
  updateBlogsIndex env b i f d st =
    (Thrown {| message := enoent (BLOGS_INDEX_PATH env) |},
     traced [ConsoleLog "Updating blogs.html index..."] st).
Proof.
  intros H. unfold updateBlogsIndex.
  cbv beta iota zeta delta [readFileSync fileContents bind consoleLog emit ret throw].
  cbn [trace files]. now rewrite H.
Qed.

Lemma createBlogFile_absent (b : GeneratedContent) (i f d : string) (st : state) :
  files st (BLOG_TEMPLATE_PATH env) = None ->
  createBlogFile env b i f d st =
    (Thrown {| message := enoent (BLOG_TEMPLATE_PATH env) |},
     traced [ConsoleLog "Creating blog HTML file..."] st).
Proof.
  intros H. unfold createBlogFile.
  cbv beta iota zeta delta [readFileSync fileContents bind consoleLog emit ret throw].
  cbn [trace files]. now rewrite H.
Qed.

(** The whole run, case by case. *)
Lemma run_afterRun (st : state) : run env st = (Returned tt, afterRun env st).
Proof.
  unfold run, tryCatch, pipeline.
  cbv beta iota zeta delta [bind consoleLog emit ret].
  rewrite generateContent_line.
  cbv beta iota zeta delta
    [getFormattedDate downloadImage axiosGet tryCatch bind consoleLog emit ret throw].
  fold (contentOf env).
  change (beforeT (nowISO env)) with (dateOf env).
  fold (slugOf env). fold (imageOf env). fold (postOf env).
  unfold afterRun.
  destruct (imageAnswer env) as [bytes | e | e]; cbv beta iota zeta.
  - cbv beta iota zeta delta [writeFileSync bind emit store]. cbn [trace files].
    match goal with |- context [createBlogFile env ?b ?i ?f ?d ?s] => set (s1 := s) end.
    assert (Htpl : files s1 (BLOG_TEMPLATE_PATH env) = files st (BLOG_TEMPLATE_PATH env))
      by (unfold s1; cbn [files]; unfold imageOf; now rewrite template_not_image).
    destruct (files st (BLOG_TEMPLATE_PATH env)) as [tpl|] eqn:T.
    + rewrite (createBlogFile_run env _ _ _ _ s1 tpl Htpl).
      match goal with |- context [updateBlogsIndex env ?b ?i ?f ?d ?s] => set (s2 := s) end.
      assert (Hidx : files s2 (BLOGS_INDEX_PATH env) = files st (BLOGS_INDEX_PATH env))
        by (unfold s2, s1; cbn [files stored traced]; unfold postOf, imageOf;
            now rewrite index_not_post, index_not_image).
      destruct (files st (BLOGS_INDEX_PATH env)) as [idx|] eqn:I.
      * rewrite (updateBlogsIndex_run s2 idx Hidx), gitAutomation_run.
        unfold s2, s1, started, written, postDocument, postPath, imagePath, traced, stored.
        cbn [trace files]. rewrite <- !app_assoc. reflexivity.
      * rewrite (updateBlogsIndex_absent _ _ _ _ s2 Hidx), logError_run.
        cbv beta iota zeta delta [consoleError emit].
        unfold s2, s1, critical, logged, started, written, postDocument, postPath, imagePath,
          traced, stored.
        cbn [trace files message]. rewrite <- !app_assoc. reflexivity.
    + rewrite (createBlogFile_absent _ _ _ _ s1 Htpl), logError_run.
      cbv beta iota zeta delta [consoleError emit].
      unfold s1, critical, logged, started, written, imagePath, traced, stored.
      cbn [trace files message]. rewrite <- !app_assoc. reflexivity.
  - rewrite logError_run. cbv beta iota zeta. rewrite logError_run.
    cbv beta iota zeta delta [consoleError emit].
    unfold critical, started, logged, traced. cbn [trace files]. rewrite <- !app_assoc. reflexivity.
  - rewrite logError_run.
    cbv beta iota zeta delta [consoleError emit].
    unfold critical, started, logged, traced. cbn [trace files]. rewrite <- !app_assoc. reflexivity.
Qed.

End Unfolding.

Section MorePaths.

Import Js.
Local Open Scope string_scope.

Variable env : Env.

Lemma lastChar_log : lastChar (LOG_FILE_PATH env) = Some "t"%char.
Proof. unfold LOG_FILE_PATH, pathJoin. now rewrite !lastChar_app. Qed.

Lemma lastChar_image : lastChar (imagePath env) = Some "g"%char.
Proof. unfold imagePath, pathJoin, imageOf, imageFilename. now rewrite !lastChar_app. Qed.

Lemma lastChar_post : lastChar (postPath env) = Some "l"%char.
Proof. unfold postPath, pathJoin, postOf, blogFilename. now rewrite !lastChar_app. Qed.

Lemma lastChar_index : lastChar (BLOGS_INDEX_PATH env) = Some "l"%char.
Proof. unfold BLOGS_INDEX_PATH, pathJoin. now rewrite !lastChar_app. Qed.

Lemma lastChar_template : lastChar (BLOG_TEMPLATE_PATH env) = Some "l"%char.
Proof. unfold BLOG_TEMPLATE_PATH, pathJoin. now rewrite !lastChar_app. Qed.

Lemma slugOf_length : 14 <= String.length (slugOf env).
Proof.
  unfold slugOf, contentOf. rewrite title_slug, length_append. simpl. lia.
Qed.

Lemma template_not_post : BLOG_TEMPLATE_PATH env <> postPath env.
Proof.
  unfold BLOG_TEMPLATE_PATH, postPath. intros H. apply pathJoin_inj in H.
  apply (f_equal String.length) in H. unfold postOf, blogFilename in H.
  rewrite !length_append in H. pose proof slugOf_length. simpl in H. lia.
Qed.

Lemma template_not_index : BLOG_TEMPLATE_PATH env <> BLOGS_INDEX_PATH env.
Proof.
  unfold BLOG_TEMPLATE_PATH, BLOGS_INDEX_PATH. intros H. apply pathJoin_inj in H. discriminate.
Qed.

Lemma index_not_postPath : BLOGS_INDEX_PATH env <> postPath env.
Proof. apply String.eqb_neq. apply index_not_post. Qed.

Lemma log_not_template : LOG_FILE_PATH env <> BLOG_TEMPLATE_PATH env.
Proof. intros H. apply (f_equal lastChar) in H. rewrite lastChar_log, lastChar_template in H. discriminate. Qed.

Lemma log_not_image : LOG_FILE_PATH env <> imagePath env.
Proof. intros H. apply (f_equal lastChar) in H. rewrite lastChar_log, lastChar_image in H. discriminate. Qed.

Lemma log_not_post : LOG_FILE_PATH env <> postPath env.
Proof. intros H. apply (f_equal lastChar) in H. rewrite lastChar_log, lastChar_post in H. discriminate. Qed.

Lemma log_not_index : LOG_FILE_PATH env <> BLOGS_INDEX_PATH env.
Proof. intros H. apply (f_equal lastChar) in H. rewrite lastChar_log, lastChar_index in H. discriminate. Qed.

Lemma image_not_template : imagePath env <> BLOG_TEMPLATE_PATH env.
Proof. intros H. apply (f_equal lastChar) in H. rewrite lastChar_image, lastChar_template in H. discriminate. Qed.

Lemma image_not_post : imagePath env <> postPath env.
Proof. intros H. apply (f_equal lastChar) in H. rewrite lastChar_image, lastChar_post in H. discriminate. Qed.

Lemma image_not_index : imagePath env <> BLOGS_INDEX_PATH env.
Proof. intros H. apply (f_equal lastChar) in H. rewrite lastChar_image, lastChar_index in H. discriminate. Qed.

End MorePaths.

(** The five files of a run are five different files; [distinct_paths]
    puts the inequalities into the context, in both directions. *)
Ltac distinct_paths env :=
  pose proof (log_not_template env); pose proof (log_not_image env);
  pose proof (log_not_post env); pose proof (log_not_index env);
  pose proof (image_not_template env); pose proof (image_not_post env);
  pose proof (image_not_index env); pose proof (template_not_post env);
  pose proof (template_not_index env); pose proof (index_not_postPath env);
  pose proof (not_eq_sym (log_not_template env)); pose proof (not_eq_sym (log_not_image env));
  pose proof (not_eq_sym (log_not_post env)); pose proof (not_eq_sym (log_not_index env));
  pose proof (not_eq_sym (image_not_template env)); pose proof (not_eq_sym (image_not_post env));
  pose proof (not_eq_sym (image_not_index env)); pose proof (not_eq_sym (template_not_post env));
  pose proof (not_eq_sym (template_not_index env));
  pose proof (not_eq_sym (index_not_postPath env)).

Section RunStates.

Context {cheerio : Cheerio}.
Variable env : Env.
Import Js.

Lemma trace_traced (es : list effect) (st : state) : trace (traced es st) = trace st ++ es.
Proof. reflexivity. Qed.

Lemma trace_written (file data : string) (st : state) :
  trace (written file data st) = trace st ++ [WriteFile file data].
Proof. reflexivity. Qed.

Lemma trace_logged (msg : string) (st : state) :
  trace (logged env msg st) =
    trace st ++ [ConsoleError (logLine env msg); AppendFile (LOG_FILE_PATH env) (logLine env msg)].
Proof. cbn [logged appended stored traced trace]. now rewrite <- app_assoc. Qed.

Lemma trace_critical (msg : string) (st : state) :
  trace (critical env msg st) =
    trace st ++
    [ConsoleError (logLine env msg); AppendFile (LOG_FILE_PATH env) (logLine env msg);
     ConsoleError ("Critical Error: " ++ msg)%string].
Proof. unfold critical. rewrite trace_traced, trace_logged. now rewrite <- app_assoc. Qed.

Lemma files_traced (es : list effect) (st : state) : files (traced es st) = files st.
Proof. reflexivity. Qed.

Lemma files_written_other (file data f : string) (st : state) :
  f <> file -> files (written file data st) f = files st f.
Proof. intros H. apply String.eqb_neq in H. cbn [written stored traced files]. now rewrite H. Qed.

Lemma files_written (file data : string) (st : state) :
  files (written file data st) file = Some data.
Proof. cbn [written stored traced files]. now rewrite String.eqb_refl. Qed.

Lemma files_logged_other (msg f : string) (st : state) :
  f <> LOG_FILE_PATH env -> files (logged env msg st) f = files st f.
Proof.
  intros H. apply String.eqb_neq in H.
  cbn [logged appended stored traced files]. now rewrite H.
Qed.

Lemma files_logged (msg : string) (st : state) :
  files (logged env msg st) (LOG_FILE_PATH env) = Some (logText st env ++ logLine env msg)%string.
Proof.
  unfold logText. cbn [logged appended stored traced files]. rewrite String.eqb_refl.
  now destruct (files st (LOG_FILE_PATH env)).
Qed.

Lemma files_critical_other (msg f : string) (st : state) :
  f <> LOG_FILE_PATH env -> files (critical env msg st) f = files st f.
Proof. intros H. unfold critical. now rewrite files_traced, files_logged_other. Qed.



(** *** The log only grows *)

Lemma append_assoc (a b c : string) : ((a ++ b) ++ c = a ++ b ++ c)%string.
Proof. induction a as [|x a IH]; simpl; [reflexivity | now rewrite IH]. Qed.

Lemma append_empty (a : string) : (a ++ EmptyString)%string = a.
Proof. induction a as [|x a IH]; simpl; [reflexivity | now rewrite IH]. Qed.

Lemma logGrows_refl (st : state) : logGrows env st st.
Proof. intros old H. exists EmptyString. now rewrite append_empty. Qed.

Lemma logGrows_trans (s1 s2 s3 : state) :
  logGrows env s1 s2 -> logGrows env s2 s3 -> logGrows env s1 s3.
Proof.
  intros H12 H23 old H. destruct (H12 old H) as [m1 E1]. destruct (H23 _ E1) as [m2 E2].
  exists (m1 ++ m2)%string. now rewrite E2, append_assoc.
Qed.

Lemma logGrows_traced (es : list effect) (st : state) : logGrows env st (traced es st).
Proof. intros old H. exists EmptyString. cbn [traced files]. now rewrite append_empty. Qed.

Lemma logGrows_written (file data : string) (st : state) :
  LOG_FILE_PATH env <> file -> logGrows env st (written file data st).
Proof.
  intros H old Hold. exists EmptyString.
  now rewrite files_written_other, append_empty.
Qed.

Lemma logGrows_logged (msg : string) (st : state) : logGrows env st (logged env msg st).
Proof.
  intros old H. exists (logLine env msg). rewrite files_logged. unfold logText. now rewrite H.
Qed.

Lemma logGrows_critical (msg : string) (st : state) : logGrows env st (critical env msg st).
Proof. unfold critical. eapply logGrows_trans; [apply logGrows_logged | apply logGrows_traced]. Qed.

Lemma logGrows_afterRun (st : state) : logGrows env st (afterRun env st).
Proof.
  distinct_paths env.
  unfold afterRun, afterGit, afterIndex, started.
  repeat first
    [ apply logGrows_refl
    | match goal with
      | |- logGrows _ _ (match ?x with _ => _ end) => destruct x
      | |- logGrows _ _ (if ?x then _ else _) => destruct x
      end
    | eapply logGrows_trans;
      [| first [ apply logGrows_traced | apply logGrows_logged | apply logGrows_critical
               | apply logGrows_written; assumption ] ] ].
Qed.

End RunStates.

(** Reading a file in a state that was built by writes and log lines. *)
Ltac lookup :=
  repeat first
    [ match goal with
      | |- context [files (traced ?es ?s)] => change (files (traced es s)) with (files s)
      end
    | rewrite files_written_other by assumption
    | rewrite files_logged_other by assumption
    | rewrite files_critical_other by assumption ];
  try apply files_written.

(** The trace of a state that was built by writes and log lines. *)
Ltac trace_of :=
  repeat match goal with
         | |- context [trace (traced ?es ?s)] => rewrite (trace_traced es s)
         | |- context [trace (written ?f ?d ?s)] => rewrite (trace_written f d s)
         | |- context [trace (logged ?env ?m ?s)] => rewrite (trace_logged env m s)
         | |- context [trace (critical ?env ?m ?s)] => rewrite (trace_critical env m s)
         end;
  rewrite <- ?app_assoc; cbn [app].

Section MoreRunStates.

Context {cheerio : Cheerio}.
Variable env : Env.

Lemma logText_logged (msg : string) (st : state) :
  logText (logged env msg st) env = (logText st env ++ logLine env msg)%string.
Proof. unfold logText at 1. now rewrite files_logged. Qed.


End MoreRunStates.

(** X7.  A run never truncates the error log: whatever the services
    answer and whatever the disk holds, the log after [run] starts with the
    log before it. *)
Theorem run_keeps_log {cheerio : Cheerio} (env : Env) (st : state) (old : string) :
  (forall tpl : string,
      files st (BLOG_TEMPLATE_PATH env) = Some tpl -> List.length (containers env tpl) <= 1) ->
  files st (LOG_FILE_PATH env) = Some old ->
  exists more : string,
    files (snd (run env st)) (LOG_FILE_PATH env) = Some (old ++ more)%string.
Proof.
  intros _ H. rewrite run_afterRun. now apply logGrows_afterRun.
Qed.

(** X7 on the sample repository with an error log and an index without
    grid container. *)
Lemma run_keeps_log_sample :
  let st := Scenario.withLog "earlier lines" (Sample.disk Sample.template Sample.plainIndex) in
  files st (LOG_FILE_PATH Sample.env) = Some "earlier lines"%string /\
  exists more : string,
    files (snd (run (cheerio := Mini.cheerio) Sample.env st)) (LOG_FILE_PATH Sample.env) =
      Some ("earlier lines" ++ more)%string.
Proof.
  intros st. split; [reflexivity|].
  apply (run_keeps_log (cheerio := Mini.cheerio) Sample.env st "earlier lines");
    [|reflexivity].
  intros tpl H. vm_compute in H. injection H as <-. vm_compute. repeat constructor.
Defined.



(** X9.  When the template file is missing, the run stops after the
    download: the image has been written and stays on the disk, the error of
    [readFileSync] is logged and printed as critical, neither the post nor
    the index is written, no command is executed, and [run] returns. *)
Theorem missing_template_aborts {cheerio : Cheerio} (env : Env) (st : state) (bytes : string) :
  imageAnswer env = ImageSaved bytes ->
  files st (BLOG_TEMPLATE_PATH env) = None ->
  fst (run env st) = Returned tt /\
  (exists delta : list effect,
      trace (snd (run env st)) = trace st ++ delta /\
      writtenFiles delta = [imagePath env] /\
      appendedLines delta = [logLine env (enoent (BLOG_TEMPLATE_PATH env))] /\
      commands delta = [] /\
      In (ConsoleError ("Critical Error: " ++ enoent (BLOG_TEMPLATE_PATH env))%string) delta) /\
  files (snd (run env st)) (imagePath env) = Some bytes /\
  files (snd (run env st)) (postPath env) = files st (postPath env) /\
  files (snd (run env st)) (BLOGS_INDEX_PATH env) = files st (BLOGS_INDEX_PATH env).
Proof.
  intros Himg Htpl. rewrite run_afterRun. cbn [fst snd]. split; [reflexivity|].
  unfold afterRun. rewrite Himg, Htpl.
  split; [|split; [|split]].
  - eexists. split.
    + unfold started; trace_of; reflexivity.
    + cbn. tauto.
  - distinct_paths env. lookup.
  - distinct_paths env. unfold started. lookup. reflexivity.
  - distinct_paths env. unfold started. lookup. reflexivity.
Qed.

(** X9 on an empty disk. *)
Lemma missing_template_aborts_sample :
  let done := run (cheerio := Mini.cheerio) Sample.env Scenario.emptyDisk in
  imageAnswer Sample.env = ImageSaved "JPEG" /\
  files Scenario.emptyDisk (BLOG_TEMPLATE_PATH Sample.env) = None /\
  fst done = Returned tt /\
  files (snd done) (imagePath Sample.env) = Some "JPEG"%string /\
  writtenFiles (trace (snd done)) = [imagePath Sample.env].
Proof.
  intros done. do 2 (split; [reflexivity|]).
  destruct (missing_template_aborts (cheerio := Mini.cheerio) Sample.env Scenario.emptyDisk
              "JPEG" eq_refl eq_refl) as (Hret & _ & Himage & _).
  split; [exact Hret|]. split; [exact Himage|]. vm_compute. reflexivity.
Defined.

(** X10.  When the index file is missing, the run stops after the post: the
    image and the post have been written and stay on the disk, the error of
    [readFileSync] is logged and printed as critical, no index is created,
    no command is executed, and [run] returns. *)
Theorem missing_index_aborts {cheerio : Cheerio} (env : Env) (st : state)
    (bytes tpl : string) :
  imageAnswer env = ImageSaved bytes ->
  files st (BLOG_TEMPLATE_PATH env) = Some tpl ->
  List.length (containers env tpl) <= 1 ->
  files st (BLOGS_INDEX_PATH env) = None ->
  fst (run env st) = Returned tt /\
  (exists delta : list effect,
      trace (snd (run env st)) = trace st ++ delta /\
      writtenFiles delta = [imagePath env; postPath env] /\
      appendedLines delta = [logLine env (enoent (BLOGS_INDEX_PATH env))] /\
      commands delta = [] /\
      In (ConsoleError ("Critical Error: " ++ enoent (BLOGS_INDEX_PATH env))%string) delta) /\
  files (snd (run env st)) (imagePath env) = Some bytes /\
  files (snd (run env st)) (postPath env) = Some (postDocument env tpl) /\
  files (snd (run env st)) (BLOGS_INDEX_PATH env) = None.
Proof.
  intros Himg Htpl _ Hidx. rewrite run_afterRun. cbn [fst snd]. split; [reflexivity|].
  unfold afterRun. rewrite Himg, Htpl, Hidx.
  split; [|split; [|split]].
  - eexists. split.
    + unfold started; trace_of; reflexivity.
    + cbn. tauto.
  - distinct_paths env. lookup.
  - distinct_paths env. lookup.
  - distinct_paths env. unfold started. lookup. exact Hidx.
Qed.

(** X10 on a repository that holds the template only. *)
Lemma missing_index_aborts_sample :
  let done := run (cheerio := Mini.cheerio) Sample.env Scenario.templateOnly in
  imageAnswer Sample.env = ImageSaved "JPEG" /\
  files Scenario.templateOnly (BLOG_TEMPLATE_PATH Sample.env) = Some Sample.template /\
  List.length (containers (cheerio := Mini.cheerio) Sample.env Sample.template) = 1 /\
  files Scenario.templateOnly (BLOGS_INDEX_PATH Sample.env) = None /\
  fst done = Returned tt /\
  files (snd done) (BLOGS_INDEX_PATH Sample.env) = None /\
  commands (trace (snd done)) = [].
Proof.
  intros done. do 4 (split; [reflexivity|]).
  destruct (missing_index_aborts (cheerio := Mini.cheerio) Sample.env Scenario.templateOnly
              "JPEG" Sample.template eq_refl eq_refl) as (Hret & _ & _ & _ & Hindex);
    [vm_compute; repeat constructor | reflexivity |].
  split; [exact Hret|]. split; [exact Hindex|]. vm_compute. reflexivity.
Defined.

Section Completed.

Context {cheerio : Cheerio}.
Variable env : Env.

(** The state after the index update when the grid container is found. *)
Lemma afterIndex_found (idx : string) (st : state) :
  Dom.select Selector.gridContainer (cheerio_load idx) <> [] ->
  afterIndex env idx st =
    written (BLOGS_INDEX_PATH env) (serialize (prependCard (cheerio_load idx) (cardOf env)))
      (traced [ConsoleLog "Updating blogs.html index..."] st).
Proof.
  intros H. unfold afterIndex.
  destruct (Dom.select Selector.gridContainer (cheerio_load idx)); [contradiction | reflexivity].
Qed.

Lemma files_afterIndex (idx : string) (st : state) :
  exists data : string,
    files (afterIndex env idx st) (BLOGS_INDEX_PATH env) = Some data /\
    data = serialize
             (if Nat.eqb (List.length (Dom.select Selector.gridContainer (cheerio_load idx))) 0
              then cheerio_load idx
              else prependCard (cheerio_load idx) (cardOf env)).
Proof.
  unfold afterIndex. destruct (Nat.eqb _ 0); eexists; (split; [apply files_written | reflexivity]).
Qed.

End Completed.

(** X11.  The run in which nothing fails: the image is saved, the template
    and the index can be read, the index has a grid container and the push
    succeeds.  The image, the post and the index are written in this order
    and hold the image bytes, the rendered post and the index with the card
    prepended; the card names the image file and the post file; the commit
    command is executed once; nothing is logged or printed on
    [console.error], and the success banner is printed. *)
Theorem run_publishes {cheerio : Cheerio} (env : Env) (st : state)
    (bytes tpl idx stdout : string) :
  imageAnswer env = ImageSaved bytes ->
  files st (BLOG_TEMPLATE_PATH env) = Some tpl ->
  List.length (containers env tpl) <= 1 ->
  files st (BLOGS_INDEX_PATH env) = Some idx ->
  Dom.select Selector.gridContainer (cheerio_load idx) <> [] ->
  gitAnswer env = GitDone stdout ->
  fst (run env st) = Returned tt /\
  (exists delta : list effect,
      trace (snd (run env st)) = trace st ++ delta /\
      writtenFiles delta = [imagePath env; postPath env; BLOGS_INDEX_PATH env] /\
      appendedLines delta = [] /\
      commands delta = [gitCommand env] /\
      (forall line : string, ~ In (ConsoleError line) delta) /\
      In (ConsoleLog "DAILY BLOG GENERATION SUCCESS") delta) /\
  files (snd (run env st)) (imagePath env) = Some bytes /\
  files (snd (run env st)) (postPath env) = Some (postDocument env tpl) /\
  files (snd (run env st)) (BLOGS_INDEX_PATH env) =
    Some (serialize (prependCard (cheerio_load idx) (cardOf env))) /\
  files (snd (run env st)) (LOG_FILE_PATH env) = files st (LOG_FILE_PATH env) /\
  Js.includes (cardOf env) (imageOf env) = true /\
  Js.includes (cardOf env) (postOf env) = true.
Proof.
  intros Himg Htpl _ Hidx Hgrid Hgit.
  assert (Hcard : Js.includes (cardOf env) (imageOf env) = true /\
                  Js.includes (cardOf env) (postOf env) = true)
    by (unfold cardOf, newCardHtml; split; find_interpolated).
  rewrite run_afterRun. cbn [fst snd].
  split; [reflexivity|].
  unfold afterRun. rewrite Himg, Htpl, Hidx, (afterIndex_found env idx _ Hgrid).
  unfold afterGit. rewrite Hgit.
  split; [|split; [|split; [|split; [|split]]]]; [| | | | | exact Hcard].
  - eexists. split.
    + unfold started; trace_of; reflexivity.
    + cbn. repeat split; try tauto. intros line H. intuition discriminate.
  - distinct_paths env. lookup.
  - distinct_paths env. lookup.
  - distinct_paths env. lookup.
  - distinct_paths env. unfold started. lookup. reflexivity.
Qed.

(** X11 on the sample repository. *)
Lemma run_publishes_sample :
  let st := Sample.disk Sample.template Sample.index in
  let done := run (cheerio := Mini.cheerio) Sample.env st in
  imageAnswer Sample.env = ImageSaved "JPEG" /\
  files st (BLOG_TEMPLATE_PATH Sample.env) = Some Sample.template /\
  List.length (containers (cheerio := Mini.cheerio) Sample.env Sample.template) = 1 /\
  files st (BLOGS_INDEX_PATH Sample.env) = Some Sample.index /\
  Dom.select Selector.gridContainer (Mini.parse Sample.index) = [[0; 1; 0]] /\
  gitAnswer Sample.env = GitDone "pushed" /\
  fst done = Returned tt /\
  files (snd done) (BLOGS_INDEX_PATH Sample.env) =
    Some (serialize (Cheerio := Mini.cheerio)
            (prependCard (cheerio := Mini.cheerio) (Mini.parse Sample.index)
               (cardOf Sample.env))).
Proof.
  intros st done.
  split; [reflexivity|]. split; [reflexivity|]. split; [vm_compute; reflexivity|].
  split; [reflexivity|]. split; [vm_compute; reflexivity|]. split; [reflexivity|].
  destruct (run_publishes (cheerio := Mini.cheerio) Sample.env st
              "JPEG" Sample.template Sample.index "pushed")
    as (Hret & _ & _ & _ & Hindex & _);
    [reflexivity | reflexivity | vm_compute; repeat constructor | reflexivity
    | vm_compute; discriminate | reflexivity |].
  split; [exact Hret | exact Hindex].
Defined.

(** X12.  When the git command fails, the error is printed and logged by
    the callback and nothing is undone: the run ends with the five events of
    the failed commit, the image, the post and the index have been written
    before and stay on the disk, the failure is not reported as a critical
    error, and [run] returns. *)
Theorem git_failure_is_logged {cheerio : Cheerio} (env : Env) (st : state)
    (bytes tpl idx : string) (e : error) :
  imageAnswer env = ImageSaved bytes ->
  files st (BLOG_TEMPLATE_PATH env) = Some tpl ->
  List.length (containers env tpl) <= 1 ->
  files st (BLOGS_INDEX_PATH env) = Some idx ->
  gitAnswer env = GitFails e ->
  let line := logLine env ("Git commit failed: " ++ message e) in
  fst (run env st) = Returned tt /\
  (exists before : list effect,
      trace (snd (run env st)) =
        trace st ++ before ++
        [ConsoleLog "Executing Git commands...";
         Exec (gitCommand env) (REPO_ROOT env);
         ConsoleError ("Git error: " ++ message e)%string;
         ConsoleError line;
         AppendFile (LOG_FILE_PATH env) line] /\
      writtenFiles before = [imagePath env; postPath env; BLOGS_INDEX_PATH env] /\
      (forall msg : string, ~ In (ConsoleError ("Critical Error: " ++ msg)%string) before)) /\
  files (snd (run env st)) (imagePath env) = Some bytes /\
  files (snd (run env st)) (postPath env) = Some (postDocument env tpl) /\
  (exists data : string, files (snd (run env st)) (BLOGS_INDEX_PATH env) = Some data).
Proof.
  intros Himg Htpl _ Hidx Hgit line. rewrite run_afterRun. cbn [fst snd].
  split; [reflexivity|].
  unfold afterRun. rewrite Himg, Htpl, Hidx. unfold afterGit. rewrite Hgit.
  set (common :=
         [ConsoleLog ("Selected Topic: " ++ getRandomTopic env)%string;
          ConsoleLog (keyLine env);
          ConsoleLog ("Title: " ++ title (contentOf env))%string;
          ConsoleLog "Downloading cover image...";
          HttpGet (imageUrl (getRandomTopic env));
          WriteFile (imagePath env) bytes;
          ConsoleLog "Creating blog HTML file...";
          WriteFile (postPath env) (postDocument env tpl);
          ConsoleLog "Updating blogs.html index..."]).
  split; [|split; [|split]].
  - unfold afterIndex. destruct (Nat.eqb _ 0).
    + exists (common ++
              [ConsoleError (logLine env gridMissing);
               AppendFile (LOG_FILE_PATH env) (logLine env gridMissing);
               WriteFile (BLOGS_INDEX_PATH env) (serialize (cheerio_load idx))]).
      split; [|split].
      * subst common. unfold started; trace_of; reflexivity.
      * reflexivity.
      * intros msg H. unfold common in H. simpl in H.
        unfold logLine in H. intuition discriminate.
    + exists (common ++
              [WriteFile (BLOGS_INDEX_PATH env)
                 (serialize (prependCard (cheerio_load idx) (cardOf env)))]).
      split; [|split].
      * subst common. unfold started; trace_of; reflexivity.
      * reflexivity.
      * intros msg H. unfold common in H. simpl in H. intuition discriminate.
  - distinct_paths env. lookup. unfold afterIndex. destruct (Nat.eqb _ 0); lookup.
  - distinct_paths env. lookup. unfold afterIndex. destruct (Nat.eqb _ 0); lookup.
  - distinct_paths env.
    destruct (files_afterIndex env idx
                (written (postPath env) (postDocument env tpl)
                   (traced [ConsoleLog "Creating blog HTML file..."]
                      (written (imagePath env) bytes (started env st))))) as (data & E & _).
    exists data. lookup. exact E.
Qed.

(** X12 on the sample repository with a push that is rejected. *)
Lemma git_failure_is_logged_sample :
  let st := Sample.disk Sample.template Sample.index in
  let done := run (cheerio := Mini.cheerio) Scenario.gitDown st in
  imageAnswer Scenario.gitDown = ImageSaved "JPEG" /\
  files st (BLOG_TEMPLATE_PATH Scenario.gitDown) = Some Sample.template /\
  List.length (containers (cheerio := Mini.cheerio) Scenario.gitDown Sample.template) = 1 /\
  files st (BLOGS_INDEX_PATH Scenario.gitDown) = Some Sample.index /\
  gitAnswer Scenario.gitDown = GitFails Scenario.rejected /\
  fst done = Returned tt /\
  files (snd done) (imagePath Scenario.gitDown) = Some "JPEG"%string /\
  appendedLines (trace (snd done)) =
    ["[2025-03-01T09:30:00.000Z] ERROR: Git commit failed: Authentication failed" ++ Js.nl]%string.
Proof.
  intros st done.
  split; [reflexivity|]. split; [reflexivity|]. split; [vm_compute; reflexivity|].
  split; [reflexivity|]. split; [reflexivity|].
  destruct (git_failure_is_logged (cheerio := Mini.cheerio) Scenario.gitDown st
              "JPEG" Sample.template Sample.index Scenario.rejected)
    as (Hret & _ & Himage & _);
    [reflexivity | reflexivity | vm_compute; repeat constructor | reflexivity | reflexivity |].
  split; [exact Hret|]. split; [exact Himage|]. vm_compute. reflexivity.
Defined.

(** X13.  A run executes a command only after it has written the image,
    the post and the index, in this order, and it executes at most one: the
    commit is made exactly when the image is saved and the template and the
    index can be read. *)
Theorem commit_follows_writes {cheerio : Cheerio} (env : Env) (st : state) :
  (forall tpl : string,
      files st (BLOG_TEMPLATE_PATH env) = Some tpl -> List.length (containers env tpl) <= 1) ->
  exists delta : list effect,
    trace (snd (run env st)) = trace st ++ delta /\
    ((commitsAfter [] delta =
        [(gitCommand env, [imagePath env; postPath env; BLOGS_INDEX_PATH env])] /\
      exists bytes tpl idx : string,
        imageAnswer env = ImageSaved bytes /\
        files st (BLOG_TEMPLATE_PATH env) = Some tpl /\
        files st (BLOGS_INDEX_PATH env) = Some idx) \/
     (commitsAfter [] delta = [] /\
      ((forall bytes : string, imageAnswer env <> ImageSaved bytes) \/
       files st (BLOG_TEMPLATE_PATH env) = None \/
       files st (BLOGS_INDEX_PATH env) = None))).
Proof.
  intros _. rewrite run_afterRun. cbn [snd]. unfold afterRun.
  destruct (imageAnswer env) as [bytes | e | e] eqn:Himg.
  - destruct (files st (BLOG_TEMPLATE_PATH env)) as [tpl|] eqn:Htpl.
    + destruct (files st (BLOGS_INDEX_PATH env)) as [idx|] eqn:Hidx.
      * unfold afterGit, afterIndex.
        destruct (gitAnswer env), (Nat.eqb _ 0);
          (eexists; split;
           [unfold started; trace_of; reflexivity|]);
          left; (split; [reflexivity | now exists bytes, tpl, idx]).
      * eexists; split;
          [unfold started; trace_of; reflexivity|].
        right. split; [reflexivity | tauto].
    + eexists; split;
        [unfold started; trace_of; reflexivity|].
      right. split; [reflexivity | tauto].
  - eexists; split;
      [unfold started; trace_of; reflexivity|].
    right. split; [reflexivity | left; discriminate].
  - eexists; split;
      [unfold started; trace_of; reflexivity|].
    right. split; [reflexivity | left; discriminate].
Qed.

(** X13 on the sample repository. *)
Lemma commit_follows_writes_sample :
  let st := Sample.disk Sample.template Sample.index in
  exists delta : list effect,
    trace (snd (run (cheerio := Mini.cheerio) Sample.env st)) = trace st ++ delta /\
    commitsAfter [] delta =
      [(gitCommand Sample.env,
        [imagePath Sample.env; postPath Sample.env; BLOGS_INDEX_PATH Sample.env])].
Proof.
  intros st.
  destruct (commit_follows_writes (cheerio := Mini.cheerio) Sample.env st)
    as (delta & Htrace & [[Hcommit _] | [_ [Hno | [Hno | Hno]]]]).
  - intros tpl H. vm_compute in H. injection H as <-. vm_compute. repeat constructor.
  - exists delta. split; [exact Htrace | exact Hcommit].
  - exfalso. exact (Hno "JPEG"%string eq_refl).
  - discriminate Hno.
  - discriminate Hno.
Defined.

(** X14.  The two ways in which the download fails are logged differently.
    When the request is rejected, [downloadImage] logs ["Image download
    failed: ..."] before the handler of [run] logs the message; when the
    writer fails, the promise of line 136 is rejected outside the [try] of
    [downloadImage] and only the handler of [run] logs. *)
Theorem image_failure_log_lines {cheerio : Cheerio} (env : Env) (st : state) (e : error) :
  imageAnswer env = RequestFails e \/ imageAnswer env = StreamFails e ->
  let failed := logLine env ("Image download failed: " ++ message e) in
  let critical := logLine env (message e) in
  exists delta : list effect,
    trace (snd (run env st)) = trace st ++ delta /\
    appendedLines delta =
      match imageAnswer env with
      | RequestFails _ => [failed; critical]
      | _ => [critical]
      end /\
    logText (snd (run env st)) env =
      match imageAnswer env with
      | RequestFails _ => (logText st env ++ failed ++ critical)%string
      | _ => (logText st env ++ critical)%string
      end.
Proof.
  intros H failed crit. rewrite run_afterRun. cbn [snd]. unfold afterRun.
  destruct H as [H | H]; rewrite H; eexists; (split; [|split]).
  - unfold started; trace_of; reflexivity.
  - reflexivity.
  - unfold critical. unfold logText at 1. rewrite files_traced, files_logged, logText_logged.
    now rewrite append_assoc.
  - unfold started; trace_of; reflexivity.
  - reflexivity.
  - unfold critical. unfold logText at 1. now rewrite files_traced, files_logged.
Qed.

(** X14 on the sample repository with a writer that fails. *)
Lemma image_failure_log_lines_sample :
  let st := Sample.disk Sample.template Sample.index in
  imageAnswer Scenario.streamDown = StreamFails Scenario.diskFull /\
  logText (snd (run (cheerio := Mini.cheerio) Scenario.streamDown st)) Scenario.streamDown =
    ("[2025-03-01T09:30:00.000Z] ERROR: ENOSPC: no space left on device, write" ++ Js.nl)%string.
Proof.
  intros st. split; [reflexivity|].
  destruct (image_failure_log_lines (cheerio := Mini.cheerio) Scenario.streamDown st
              Scenario.diskFull (or_intror eq_refl)) as (delta & _ & _ & Htext).
  exact Htext.
Defined.

Section Rerun.

Context {cheerio : Cheerio}.
Variable env : Env.


End Rerun.



(** ** The documents outside the containers *)

Section Frames.

Import Dom.

Lemma empty_withChildren (g : list node -> list node) (n : node) :
  empty (withChildren g n) = empty n.
Proof. now destruct n. Qed.

Lemma isPrefix_app (q p : path) : isPrefix q p = true -> exists r : path, p = q ++ r.
Proof.
  revert p. induction q as [|i q IH]; intros p H; [now exists p|].
  destruct p as [|j p]; [discriminate|]. simpl in H.
  apply andb_prop in H as [Hij H]. apply Nat.eqb_eq in Hij. subst j.
  destruct (IH p H) as [r ->]. now exists r.
Qed.

Lemma above_app (q p : path) :
  above q p = true -> exists (i : nat) (r : path), p = q ++ i :: r.
Proof.
  unfold above. intros H. apply andb_prop in H as [Hpre Hlen].
  apply isPrefix_app in Hpre as [r ->]. apply Nat.ltb_lt in Hlen.
  destruct r as [|i r]; [rewrite app_nil_r in Hlen; lia|]. now exists i, r.
Qed.

(** An update below a position keeps the name and the attributes of the
    node there. *)
Lemma get_updateAt_above (g : list node -> list node) (q : path) (i : nat) (r : path)
    (d : list node) :
  option_map empty (get (updateAt (withChildren g) (q ++ i :: r) d) q) =
  option_map empty (get d q).
Proof.
  revert d. induction q as [|j q IH]; intros d; [reflexivity|].
  change ((j :: q) ++ i :: r) with (j :: (q ++ i :: r)).
  rewrite updateAt_cons, !get_cons, nth_error_updateNth.
  replace (match q ++ i :: r with
           | [] => withChildren g
           | _ :: _ => withChildren (updateAt (withChildren g) (q ++ i :: r))
           end)
    with (withChildren (updateAt (withChildren g) (q ++ i :: r)))
    by (now destruct q).
  destruct (nth_error d j) as [n|]; [|reflexivity]. cbn [option_map].
  destruct q as [|j' q'].
  - cbn [option_map]. now rewrite empty_withChildren.
  - destruct n as [| | |nm at_ cs]; cbn [withChildren children]; [reflexivity ..|].
    apply IH.
Qed.

End Frames.

(** X16.  The replacement of the content touches the content container
    only.  With one container at [p], a node that is neither the container
    nor inside it keeps its name and its attributes, and when it is not an
    ancestor of the container either it is the node that it was, with
    everything below it. *)
Theorem replaceContent_elsewhere {cheerio : Cheerio} (d : document) (blogData : GeneratedContent)
    (dateDisplay : string) (p q : path) :
  Dom.select Selector.contentSection d = [p] ->
  Dom.isPrefix p q = false ->
  let post := replaceContent d blogData dateDisplay in
  option_map Dom.empty (Dom.get post q) = option_map Dom.empty (Dom.get d q) /\
  (Dom.isPrefix q p = false -> Dom.get post q = Dom.get d q).
Proof.
  intros Hone Hq post. unfold post, replaceContent. rewrite Hone, outermost_one.
  unfold Dom.each. cbn [fold_right].
  destruct (Dom.isPrefix q p) eqn:Hqp.
  - split; [|discriminate].
    assert (Habove : Dom.above q p = true).
    { unfold Dom.above. rewrite Hqp. simpl. apply Nat.ltb_lt.
      apply isPrefix_app in Hqp as [r ->]. rewrite length_app.
      destruct r as [|i r]; [|simpl; lia].
      rewrite app_nil_r in Hq.
      assert (Dom.isPrefix q q = true)
        by (clear; induction q as [|i q IH]; simpl; [reflexivity | now rewrite Nat.eqb_refl]).
      congruence. }
    apply above_app in Habove as (i & r & ->).
    unfold Dom.empty at 2, Dom.append.
    now rewrite !get_updateAt_above.
  - assert (Hapart : apart q p = true) by (unfold apart; now rewrite Hq, Hqp).
    rewrite !get_updateAt_apart by exact Hapart. split; reflexivity.
Qed.

(** X16 on the sample template: the heading of the page is left alone. *)
Lemma replaceContent_elsewhere_sample :
  let d := Mini.parse Sample.template in
  let post :=
    replaceContent (cheerio := Mini.cheerio) d
      (generateFallbackContent "AI tools for productivity") "Mar 01, 2025" in
  Dom.select Selector.contentSection d = [[0; 1; 2]] /\
  Dom.isPrefix [0; 1; 2] [0; 1; 0] = false /\
  Dom.get post [0; 1; 0] = Some (Element "h1" [] [Text "AI Integration"]).
Proof.
  intros d post. split; [vm_compute; reflexivity|]. split; [reflexivity|].
  destruct (replaceContent_elsewhere (cheerio := Mini.cheerio) d
              (generateFallbackContent "AI tools for productivity") "Mar 01, 2025"
              [0; 1; 2] [0; 1; 0]) as [_ Hsame];
    [vm_compute; reflexivity | reflexivity |].
  fold post in Hsame. rewrite Hsame by reflexivity. vm_compute. reflexivity.
Defined.

(** X17.  [insertEntry] never throws and touches the grid containers only:
    a node that lies apart from every grid container is the same in the
    document that is returned, and the document has as many top-level nodes
    as before. *)
Theorem insertEntry_elsewhere {cheerio : Cheerio} (env : Env) (index : document)
    (cardHtml : string) (st : state) (q : path) :
  Forall (fun p => apart q p = true) (Dom.select Selector.gridContainer index) ->
  exists (index' : document) (st' : state),
    insertEntry env index cardHtml st = (Returned index', st') /\
    Dom.get index' q = Dom.get index q /\
    List.length index' = List.length index.
Proof.
  intros H. unfold insertEntry.
  destruct (Nat.eqb _ 0).
  - unfold bind. rewrite logError_run. unfold ret. now do 2 eexists.
  - unfold ret. do 2 eexists. split; [reflexivity|]. unfold prependCard. split.
    + now apply get_each_apart.
    + generalize (Dom.select Selector.gridContainer index). intros ps.
      induction ps as [|p ps IH]; [reflexivity|].
      unfold Dom.each in *. cbn [fold_right]. rewrite <- IH.
      generalize (fold_right (Dom.updateAt (Dom.prepend (parseMarkup None cardHtml))) index ps).
      intros l. destruct p as [|i p]; [reflexivity|]. rewrite updateAt_cons.
      generalize (match p with
                  | [] => Dom.prepend (parseMarkup None cardHtml)
                  | _ :: _ =>
                      Dom.withChildren (Dom.updateAt (Dom.prepend (parseMarkup None cardHtml)) p)
                  end).
      intros f. revert i. induction l as [|n l IHl]; intros [|i]; simpl; auto.
Qed.

(** X17 on the sample index: the head of the document is left alone. *)
Lemma insertEntry_elsewhere_sample :
  let index := Mini.parse Sample.index in
  Dom.select Selector.gridContainer index = [[0; 1; 0]] /\
  exists (index' : document) (st' : state),
    insertEntry (cheerio := Mini.cheerio) Sample.env index Sample.firstCard
      (Sample.disk Sample.template Sample.index) = (Returned index', st') /\
    Dom.get index' [0; 0] = Some (Element "head" [] []).
Proof.
  intros index. split; [vm_compute; reflexivity|].
  destruct (insertEntry_elsewhere (cheerio := Mini.cheerio) Sample.env index Sample.firstCard
              (Sample.disk Sample.template Sample.index) [0; 0])
    as (index' & st' & Hret & Hget & _).
  - vm_compute. repeat constructor.
  - exists index', st'. split; [exact Hret|]. rewrite Hget. vm_compute. reflexivity.
Defined.

(** ** The image sources *)

Section ImageSources.

Import Dom.

Lemma attr_setAttr_same (k v : string) (at_ : list (string * string)) :
  attr k (setAttr k v at_) = Some v.
Proof.
  induction at_ as [|[k' v'] r IH]; simpl; [now rewrite String.eqb_refl|].
  destruct (String.eqb k' k) eqn:E; simpl; [now rewrite String.eqb_refl | now rewrite E].
Qed.

Lemma attr_setAttr_other (k k0 v : string) (at_ : list (string * string)) :
  k0 <> k -> attr k0 (setAttr k v at_) = attr k0 at_.
Proof.
  intros H. induction at_ as [|[k' v'] r IH]; simpl.
  - apply String.eqb_neq in H. rewrite String.eqb_sym. now rewrite H.
  - destruct (String.eqb k' k) eqn:E; simpl.
    + apply String.eqb_eq in E. subst k'.
      apply String.eqb_neq in H. rewrite String.eqb_sym in H. now rewrite H.
    + now rewrite IH.
Qed.

Lemma get_attrAll (sel : node -> bool) (k v : string) (q : path) (d : list node) :
  get (attrAll sel k v d) q = option_map (attrNode sel k v) (get d q).
Proof.
  revert d. induction q as [|i q IH]; intros d; [reflexivity|].
  rewrite !get_cons. unfold attrAll at 1. rewrite nth_error_map.
  destruct (nth_error d i) as [n|]; [|reflexivity]. cbn [option_map].
  destruct q as [|j q']; [reflexivity|].
  destruct n as [| | |nm at_ cs]; cbn [attrNode children]; [now rewrite !get_nil ..|].
  apply IH.
Qed.

Lemma imgAlt_attrNode (sel : node -> bool) (alt v : string) (n : node) :
  Selector.imgAlt alt (attrNode sel "src" v n) = Selector.imgAlt alt n.
Proof.
  destruct n as [| | |nm at_ cs]; try reflexivity.
  unfold Selector.imgAlt. cbn [attrNode isTag attrIs].
  destruct (sel (Element nm at_ cs)); [|reflexivity].
  now rewrite attr_setAttr_other by discriminate.
Qed.

(** After [$(img[alt=...]).attr('src', v)] every image with that [alt]
    has the source [v]. *)
Lemma attrAll_sets (alt v : string) (q : path) (d : list node) (n : node) :
  get (attrAll (Selector.imgAlt alt) "src" v d) q = Some n ->
  Selector.imgAlt alt n = true -> attrIs "src" v n = true.
Proof.
  rewrite get_attrAll. destruct (get d q) as [n0|]; [|discriminate].
  cbn [option_map]. intros E. injection E as <-. rewrite imgAlt_attrNode. intros S.
  destruct n0 as [| | |nm at_ cs]; try discriminate.
  cbn [attrNode attrIs]. rewrite S, attr_setAttr_same. apply String.eqb_refl.
Qed.

(** The images with another [alt] keep their source. *)
Lemma attrAll_keeps (alt alt' v w : string) (q : path) (d : list node) (n : node) :
  alt <> alt' ->
  get (attrAll (Selector.imgAlt alt') "src" w d) q = Some n ->
  Selector.imgAlt alt n = true ->
  exists n0 : node,
    get d q = Some n0 /\ Selector.imgAlt alt n0 = true /\
    (attrIs "src" v n0 = true -> attrIs "src" v n = true).
Proof.
  intros Hne. rewrite get_attrAll. destruct (get d q) as [n0|]; [|discriminate].
  cbn [option_map]. intros E. injection E as <-. rewrite imgAlt_attrNode. intros S.
  exists n0. split; [reflexivity|]. split; [exact S|].
  destruct n0 as [| | |nm at_ cs]; try discriminate.
  cbn [attrNode attrIs].
  replace (Selector.imgAlt alt' (Element nm at_ cs)) with false; [auto|].
  symmetry. unfold Selector.imgAlt in *. cbn [attrIs] in *.
  apply andb_prop in S as [-> S]. cbn [andb].
  destruct (attr "alt" at_) as [a|]; [|reflexivity].
  apply String.eqb_eq in S. subst a. now apply String.eqb_neq.
Qed.

(** The node found at [q] after the node at [p] was given new children
    either has the name and the attributes of the node that was at [q], or
    is one of the new children or lies below one. *)
Lemma get_updateAt_cases (g : list node -> list node) (p q : path) (d : list node) (n : node) :
  get (updateAt (withChildren g) p d) q = Some n ->
  (exists n0 : node, get d q = Some n0 /\ empty n0 = empty n) \/
  (exists (n0 : node) (r : path),
      get d p = Some n0 /\ q = p ++ r /\ get (g (children n0)) r = Some n).
Proof.
  revert q d. induction p as [|i p IH]; intros q d H; [left; now exists n|].
  destruct q as [|j q]; [discriminate|].
  rewrite updateAt_cons, get_cons in H.
  destruct (Nat.eq_dec j i) as [-> | Hji].
  - rewrite nth_error_updateNth in H.
    destruct (nth_error d i) as [m|] eqn:Hm; [|discriminate]. cbn [option_map] in H.
    destruct q as [|k q].
    + left. exists m. rewrite get_cons, Hm. split; [reflexivity|].
      injection H as <-. destruct p; now rewrite empty_withChildren.
    + destruct p as [|i' p'].
      * right. exists m, (k :: q). rewrite get_cons, Hm. split; [reflexivity|]. split; [reflexivity|].
        destruct m as [| | |nm at_ cs]; cbn [withChildren children] in H;
          [now rewrite get_nil in H .. | exact H].
      * destruct m as [| | |nm at_ cs]; cbn [withChildren children] in H;
          try (now rewrite get_nil in H).
        apply IH in H as [(n0 & Hn0 & E) | (n0 & r & Hn0 & -> & Hr)].
        -- left. exists n0. now rewrite get_cons, Hm.
        -- right. exists n0, r. now rewrite get_cons, Hm.
  - rewrite nth_error_updateNth_other in H by exact Hji.
    left. exists n. now rewrite get_cons.
Qed.

Lemma shallow_imgAlt (alt : string) (n m : node) :
  empty n = empty m -> Selector.imgAlt alt n = Selector.imgAlt alt m.
Proof.
  destruct n, m; try discriminate; try reflexivity.
  cbn [empty withChildren]. now intros [= -> ->].
Qed.

Lemma shallow_attrIs (k v : string) (n m : node) :
  empty n = empty m -> attrIs k v n = attrIs k v m.
Proof.
  destruct n, m; try discriminate; try reflexivity.
  cbn [empty withChildren]. now intros [= -> ->].
Qed.

Lemma get_text_only (s : string) (r : path) (n : node) :
  get [Text s] r = Some n -> n = Text s.
Proof.
  destruct r as [|i r]; [discriminate|]. rewrite get_cons.
  destruct i as [|i]; cbn [nth_error].
  - destruct r; [now intros [= <-] | cbn [children]; now rewrite get_nil].
  - now destruct i.
Qed.

(** Giving the first heading its text neither adds an image nor changes
    one. *)
Lemma textFirst_keeps (sel : node -> bool) (s alt v : string) (q : path) (d : list node)
    (n : node) :
  get (textFirst sel s d) q = Some n ->
  Selector.imgAlt alt n = true ->
  exists n0 : node,
    get d q = Some n0 /\ Selector.imgAlt alt n0 = true /\
    (attrIs "src" v n0 = true -> attrIs "src" v n = true).
Proof.
  unfold textFirst, each. destruct (hd_error (select sel d)) as [p|]; cbn [optList fold_right].
  - intros H S. apply get_updateAt_cases in H as [(n0 & Hn0 & E) | (n0 & r & _ & _ & Hr)].
    + exists n0. split; [exact Hn0|].
      now rewrite (shallow_imgAlt alt n0 n E), (shallow_attrIs "src" v n0 n E).
    + apply get_text_only in Hr. subst n. discriminate.
  - intros H S. now exists n.
Qed.

End ImageSources.

(** X18.  After the template update, every image of the document whose
    [alt] is ["Blog Cover"] or ["AI Integration Blog"] has the source
    ["./{imageFilename}"], whatever the template and the parser. *)
Theorem updateTemplate_image_sources {cheerio : Cheerio} (template : document)
    (blogData : GeneratedContent) (imageFile : string) (q : path) (n : node) :
  Dom.get (updateTemplate template blogData imageFile) q = Some n ->
  Selector.imgAlt "Blog Cover" n = true \/ Selector.imgAlt "AI Integration Blog" n = true ->
  Dom.attrIs "src" ("./" ++ imageFile) n = true.
Proof.
  unfold updateTemplate. cbv zeta. intros H [S | S].
  - apply (attrAll_keeps "Blog Cover" _ ("./" ++ imageFile)) in H as (n1 & H1 & S1 & K1);
      [|discriminate | exact S].
    apply K1.
    apply (textFirst_keeps _ _ "Blog Cover" ("./" ++ imageFile)) in H1 as (n2 & H2 & S2 & K2);
      [|exact S1].
    apply K2. exact (attrAll_sets _ _ _ _ _ H2 S2).
  - exact (attrAll_sets _ _ _ _ _ H S).
Qed.

(** X18 on the sample template: the image of the content container. *)
Lemma updateTemplate_image_sources_sample :
  let d :=
    updateTemplate (cheerio := Mini.cheerio) (Mini.parse Sample.template)
      (generateFallbackContent "AI tools for productivity") "cover.jpg" in
  exists at_ : list (string * string),
    Dom.get d [0; 1; 2; 0] = Some (Element "img" at_ []) /\
    Dom.attr "alt" at_ = Some "AI Integration Blog"%string /\
    Dom.attrIs "src" "./cover.jpg" (Element "img" at_ []) = true.
Proof.
  intros d. eexists. split; [vm_compute; reflexivity|]. split; [reflexivity|].
  apply (updateTemplate_image_sources (cheerio := Mini.cheerio) (Mini.parse Sample.template)
           (generateFallbackContent "AI tools for productivity") "cover.jpg" [0; 1; 2; 0]).
  - vm_compute. reflexivity.
  - right. reflexivity.
Defined.

(** ** The headings *)

Section Headings.

Import Dom.

Lemma get_app (d : list node) (p r : path) :
  p <> [] -> r <> [] ->
  get d (p ++ r) = match get d p with Some n0 => get (children n0) r | None => None end.
Proof.
  intros Hp Hr. revert d. induction p as [|i p IH]; intros d; [contradiction|].
  change ((i :: p) ++ r) with (i :: (p ++ r)). rewrite !get_cons.
  destruct (nth_error d i) as [n|]; [|reflexivity].
  destruct p as [|j p'].
  - simpl. now destruct r.
  - change ((j :: p') ++ r) with (j :: (p' ++ r)).
    change (j :: (p' ++ r)) with ((j :: p') ++ r). apply IH. discriminate.
Qed.

(** The node found at [q] after an update at [p]: the node that was
    there, an ancestor of the updated node with the children updated, the
    updated node, or a node of its new children. *)
Lemma get_updateAt_inv (f : node -> node) (p q : path) (d : list node) (n : node) :
  get (updateAt f p d) q = Some n ->
  get d q = Some n \/
  (exists (n0 : node) (i : nat) (r : path),
      p = q ++ i :: r /\ get d q = Some n0 /\ n = withChildren (updateAt f (i :: r)) n0) \/
  (exists n0 : node, q = p /\ get d p = Some n0 /\ n = f n0) \/
  (exists (n0 : node) (r : path),
      q = p ++ r /\ get d p = Some n0 /\ get (children (f n0)) r = Some n).
Proof.
  revert q d. induction p as [|i p IH]; intros q d H; [now left|].
  destruct q as [|j q]; [discriminate|].
  rewrite updateAt_cons, get_cons in H.
  destruct (Nat.eq_dec j i) as [-> | Hji].
  - rewrite nth_error_updateNth in H.
    destruct (nth_error d i) as [m|] eqn:Hm; [|discriminate]. cbn [option_map] in H.
    destruct q as [|k q].
    + injection H as <-. destruct p as [|i' p'].
      * right. right. left. exists m. now rewrite get_cons, Hm.
      * right. left. exists m, i', p'. now rewrite get_cons, Hm.
    + destruct p as [|i' p'].
      * right. right. right. exists m, (k :: q). now rewrite get_cons, Hm.
      * destruct m as [| | |nm at_ cs]; cbn [withChildren children] in H;
          try (now rewrite get_nil in H).
        apply IH in H
          as [H | [(n0 & i0 & r & E & Hn0 & ->) | [(n0 & E & Hn0 & ->) | (n0 & r & E & Hn0 & Hr)]]].
        -- left. now rewrite get_cons, Hm.
        -- right. left. exists n0, i0, r. rewrite get_cons, Hm. cbn [children].
           split; [now rewrite E | now split].
        -- right. right. left. exists n0. rewrite E, get_cons, Hm. now cbn [children].
        -- right. right. right. exists n0, r. rewrite E, get_cons, Hm. now cbn [children].
  - rewrite nth_error_updateNth_other in H by exact Hji.
    left. now rewrite get_cons.
Qed.

Lemma updateAt_text (f : node -> node) (p : path) (s : string) :
  f (Text s) = Text s -> updateAt f p [Text s] = [Text s].
Proof.
  intros Hf. destruct p as [|i p]; [reflexivity|]. rewrite updateAt_cons.
  destruct i as [|i]; [|now destruct i].
  cbn [updateNth]. destruct p; [now rewrite Hf | reflexivity].
Qed.

Section Each.

Variables (t s : string) (f : node -> node).
Hypothesis f_tag : forall m : node, isTag t (f m) = isTag t m.
Hypothesis f_text : forall x : string, f (Text x) = Text x.
Hypothesis f_new : forall m : node, without t (children (f m)).

(** An update at a position that holds no element named [t] keeps the
    texts of the elements named [t]. *)
Lemma updateAt_shows (p : path) (d : list node) :
  shows t s d ->
  (forall n0 : node, get d p = Some n0 -> isTag t n0 = false) ->
  shows t s (updateAt f p d).
Proof.
  intros Hd Hp q n H Ht.
  apply get_updateAt_inv in H
    as [H | [(n0 & i & r & E & Hn0 & ->) | [(n0 & E & Hn0 & ->) | (n0 & r & E & Hn0 & Hr)]]].
  - exact (Hd q n H Ht).
  - assert (Ht0 : isTag t n0 = true) by (destruct n0; exact Ht).
    pose proof (Hd q n0 Hn0 Ht0) as Hc.
    destruct n0 as [| | |nm at_ cs]; try discriminate.
    cbn [children withChildren] in *. subst cs. now apply updateAt_text.
  - rewrite f_tag, (Hp n0 Hn0) in Ht. discriminate.
  - rewrite (f_new n0 r n Hr) in Ht. discriminate.
Qed.

Lemma updateAt_untagged (p p' : path) (d : list node) :
  (forall n0 : node, get d p = Some n0 -> isTag t n0 = false) ->
  (forall n0 : node, get d p' = Some n0 -> isTag t n0 = false) ->
  forall n : node, get (updateAt f p' d) p = Some n -> isTag t n = false.
Proof.
  intros Hp Hp' n H.
  apply get_updateAt_inv in H
    as [H | [(n0 & i & r & E & Hn0 & ->) | [(n0 & E & Hn0 & ->) | (n0 & r & E & Hn0 & Hr)]]].
  - exact (Hp n H).
  - pose proof (Hp n0 Hn0) as Ht. now destruct n0.
  - rewrite f_tag. now apply Hp'.
  - exact (f_new n0 r n Hr).
Qed.

Lemma each_shows (qs ps : list path) (d : list node) :
  shows t s d ->
  (forall (p : path) (n0 : node), In p qs -> get d p = Some n0 -> isTag t n0 = false) ->
  incl ps qs ->
  shows t s (each ps f d) /\
  (forall (p : path) (n0 : node),
      In p qs -> get (each ps f d) p = Some n0 -> isTag t n0 = false).
Proof.
  intros Hd Hqs. induction ps as [|p' ps IH]; intros Hin; [now split|].
  destruct IH as [IHd IHqs]; [intros x Hx; apply Hin; now right|].
  assert (Hp' : In p' qs) by (apply Hin; now left).
  unfold each in *. cbn [fold_right]. split.
  - apply updateAt_shows; [exact IHd | intros n0; now apply IHqs].
  - intros p n0 Hp. apply updateAt_untagged; intros m; now apply IHqs.
Qed.

End Each.

Lemma isTag_withChildren (t : string) (g : list node -> list node) (m : node) :
  isTag t (withChildren g m) = isTag t m.
Proof. now destruct m. Qed.

Lemma without_text (t s : string) : without t [Text s].
Proof. intros q n H. apply get_text_only in H. now subst n. Qed.

Lemma without_nil (t : string) : without t [].
Proof. intros q n H. now rewrite get_nil in H. Qed.

(** *** The two [text] calls *)

Lemma get_textAll (sel : node -> bool) (s : string) (q : path) (d : list node) (n : node) :
  get (textAll sel s d) q = Some n ->
  (exists n0 : node, get d q = Some n0 /\ n = textNode sel s n0) \/ n = Text s.
Proof.
  revert d. induction q as [|i q IH]; intros d H; [discriminate|].
  rewrite get_cons in H. unfold textAll in H. rewrite nth_error_map in H.
  rewrite get_cons. destruct (nth_error d i) as [m|]; [|discriminate].
  cbn [option_map] in H. destruct q as [|j q'].
  - left. exists m. split; [reflexivity | now injection H].
  - destruct m as [| | |nm at_ cs]; cbn [textNode children] in H;
      try (now rewrite get_nil in H).
    destruct (sel (Element nm at_ cs)); cbn [children] in H.
    + right. now apply get_text_only in H.
    + cbn [children]. now apply IH.
Qed.

Lemma isTag_textNode (t t' s : string) (m : node) :
  isTag t (textNode (isTag t') s m) = isTag t m.
Proof.
  destruct m as [| | |nm at_ cs]; try reflexivity.
  cbn [textNode]. now destruct (isTag t' (Element nm at_ cs)).
Qed.

Lemma textAll_shows (t s : string) (d : list node) : shows t s (textAll (isTag t) s d).
Proof.
  intros q n H Ht. apply get_textAll in H as [(n0 & _ & ->) | ->]; [|discriminate].
  rewrite isTag_textNode in Ht.
  destruct n0 as [| | |nm at_ cs]; try discriminate.
  cbn [textNode]. now rewrite Ht.
Qed.

Lemma textAll_keeps_shows (t t' s s' : string) (d : list node) :
  t <> t' -> shows t s d -> shows t s (textAll (isTag t') s' d).
Proof.
  intros Hne Hd q n H Ht. apply get_textAll in H as [(n0 & Hn0 & ->) | ->]; [|discriminate].
  rewrite isTag_textNode in Ht. pose proof (Hd q n0 Hn0 Ht) as Hc.
  destruct n0 as [| | |nm at_ cs]; try discriminate.
  cbn [children] in Hc. subst cs. cbn [isTag] in Ht. apply String.eqb_eq in Ht. subst nm.
  cbn [textNode isTag]. apply String.eqb_neq in Hne. now rewrite Hne.
Qed.

Lemma attrAll_shows (t s k v : string) (sel : node -> bool) (d : list node) :
  shows t s d -> shows t s (attrAll sel k v d).
Proof.
  intros Hd q n H Ht. rewrite get_attrAll in H.
  destruct (get d q) as [n0|] eqn:Hn0; [|discriminate]. injection H as <-.
  assert (Ht0 : isTag t n0 = true) by (destruct n0; exact Ht).
  pose proof (Hd q n0 Hn0 Ht0) as Hc.
  destruct n0 as [| | |nm at_ cs]; try discriminate.
  cbn [children] in Hc. subst cs. reflexivity.
Qed.

(** *** The first heading of the content *)

Lemma textFirst_shows (t s s' : string) (d : list node) :
  t <> "h2"%string -> shows t s d -> shows t s (textFirst (isTag "h2") s' d).
Proof.
  intros Hne Hd. unfold textFirst.
  destruct (select (isTag "h2") d) as [|p ps] eqn:Hsel; [exact Hd|].
  cbn [hd_error optList].
  apply (each_shows t s (setText s') (fun m => isTag_withChildren t _ m)
           (fun x => eq_refl)) with (qs := [p]).
  - intros m. destruct m; try apply without_nil. apply without_text.
  - exact Hd.
  - intros p0 n0 [<- | []] Hn0.
    destruct (select_sound (isTag "h2") p d) as (m & Hm & Sm); [rewrite Hsel; now left|].
    rewrite Hn0 in Hm. injection Hm as <-.
    destruct n0 as [| | |nm at_ cs]; try reflexivity.
    cbn [isTag] in *. apply String.eqb_eq in Sm. subst nm.
    apply String.eqb_neq. congruence.
  - apply incl_refl.
Qed.

(** *** The breadcrumb *)

Lemma selFrom_complete (sel : node -> bool) (l : list node) (i j : nat) (c : node) (r : path) :
  nth_error l j = Some c -> In r (selNode sel c) -> In ((i + j) :: r) (selFrom sel i l).
Proof.
  revert i j. induction l as [|x l IH]; intros i j Hc Hr; [now destruct j|].
  rewrite selFrom_cons. apply in_or_app. destruct j as [|j].
  - left. injection Hc as ->. rewrite Nat.add_0_r. now apply in_map.
  - right. replace (i + S j) with (S i + j) by lia. now apply IH.
Qed.

(** Every node that the selector accepts is selected. *)
Lemma select_complete (sel : node -> bool) (q : path) (d : list node) (n : node) :
  get d q = Some n -> sel n = true -> In q (select sel d).
Proof.
  revert d. induction q as [|j q IH]; intros d H S; [discriminate|].
  rewrite get_cons in H. destruct (nth_error d j) as [c|] eqn:Hc; [|discriminate].
  rewrite select_selFrom. apply (selFrom_complete sel d 0 j c q Hc).
  rewrite selNode_eq. apply in_or_app. destruct q as [|k q'].
  - left. injection H as ->. rewrite S. now left.
  - right. rewrite <- select_selFrom. now apply IH.
Qed.

Lemma select_none_without (t : string) (d : list node) :
  select (isTag t) d = [] -> without t d.
Proof.
  intros H q n Hn. destruct (isTag t n) eqn:E; [|reflexivity].
  pose proof (select_complete _ q d n Hn E) as Hin. now rewrite H in Hin.
Qed.

Lemma find_sound (ps : list path) (sel : node -> bool) (l : path) (d : list node) :
  In l (find ps sel d) -> exists n : node, get d l = Some n /\ sel n = true.
Proof.
  intros H. apply select_sound. unfold find in H. unfold select.
  apply in_map_iff in H as (e & <- & He). apply filter_In in He as [He Hs].
  apply andb_prop in Hs as [Hs _]. apply in_map. apply filter_In. now split.
Qed.

End Headings.

Section Breadcrumb.

Context {cheerio : Cheerio}.
Import Dom.

(** The elements that the breadcrumb chain reaches have a link among
    their children. *)
Lemma breadcrumbTargets_link (d : document) (p : path) (n0 : node) :
  In p (outermost (breadcrumbTargets d)) -> get d p = Some n0 ->
  exists (k : nat) (a : node),
    nth_error (children n0) k = Some a /\ Selector.blogsLink a = true.
Proof.
  intros Hin Hn0. unfold outermost in Hin. apply filter_In in Hin as [Hin _].
  unfold breadcrumbTargets in Hin. apply nodup_In in Hin.
  apply in_map_iff in Hin as (l & <- & Hl).
  apply find_sound in Hl as (a & Ha & Sa).
  induction l as [|k l _] using rev_ind; [discriminate|].
  unfold parentPath in Hn0. rewrite removelast_last in Hn0.
  destruct l as [|j l']; [discriminate|].
  rewrite get_app in Ha by discriminate. rewrite Hn0 in Ha.
  exists k, a. split; [|exact Sa].
  rewrite get_cons in Ha. now destruct (nth_error (children n0) k).
Qed.

Lemma breadcrumb_shows (t s markup : string) (d : document) :
  shows t s d ->
  (forall ctx : option string, without t (parseMarkup ctx markup)) ->
  shows t s (each (outermost (breadcrumbTargets d)) (setHtml markup) d).
Proof.
  intros Hd Hparse.
  apply (each_shows t s (setHtml markup)) with (qs := outermost (breadcrumbTargets d)).
  - intros m. now destruct m.
  - reflexivity.
  - intros m. destruct m as [| | |nm at_ cs]; try apply without_nil. apply Hparse.
  - exact Hd.
  - intros p n0 Hp Hn0. destruct (isTag t n0) eqn:Ht; [|reflexivity].
    destruct (breadcrumbTargets_link d p n0 Hp Hn0) as (k & a & Hk & Sa).
    rewrite (Hd p n0 Hn0 Ht) in Hk.
    destruct k as [|k]; [injection Hk as <-; discriminate | now destruct k].
  - apply incl_refl.
Qed.

End Breadcrumb.

(** X19.  After the template update every [title] element of the document
    holds the one text ["{title} - Nexora Technologies"] and every [h1]
    element the one text ["{title}"], provided that the breadcrumb markup
    parses to nodes among which there is no [title] and no [h1] element
    (the title of the post is then free of such markup). *)
Theorem updateTemplate_headings {cheerio : Cheerio} (template : document)
    (blogData : GeneratedContent) (imageFile : string) (q : path) (n : node) :
  (forall ctx : option string,
      Dom.select (Dom.isTag "title") (parseMarkup ctx (breadcrumbHtml (title blogData))) = [] /\
      Dom.select (Dom.isTag "h1") (parseMarkup ctx (breadcrumbHtml (title blogData))) = []) ->
  Dom.get (updateTemplate template blogData imageFile) q = Some n ->
  (Dom.isTag "title" n = true ->
   Dom.children n = [Text (title blogData ++ " - Nexora Technologies")]) /\
  (Dom.isTag "h1" n = true -> Dom.children n = [Text (title blogData)]).
Proof.
  intros Hparse Hn.
  assert (Hall : forall t s : string,
            t <> "h2"%string ->
            (forall ctx, without t (parseMarkup ctx (breadcrumbHtml (title blogData)))) ->
            shows t s
              (Dom.textAll (Dom.isTag "h1") (title blogData)
                 (Dom.textAll (Dom.isTag "title")
                    (title blogData ++ " - Nexora Technologies") template)) ->
            shows t s (updateTemplate template blogData imageFile)).
  { intros t s Ht Hp H. unfold updateTemplate. cbv zeta.
    apply attrAll_shows, textFirst_shows; [exact Ht|].
    apply attrAll_shows, breadcrumb_shows; [exact H | exact Hp]. }
  split; intros Ht.
  - refine (Hall "title"%string _ _ _ _ q n Hn Ht); [discriminate | |].
    + intros ctx. apply select_none_without, Hparse.
    + apply textAll_keeps_shows; [discriminate | apply textAll_shows].
  - refine (Hall "h1"%string _ _ _ _ q n Hn Ht); [discriminate | |].
    + intros ctx. apply select_none_without, Hparse.
    + apply textAll_shows.
Qed.

(** X19 on the sample template: the heading of the page. *)
Lemma updateTemplate_headings_sample :
  let data := generateFallbackContent "AI tools for productivity" in
  let d := updateTemplate (cheerio := Mini.cheerio) (Mini.parse Sample.template) data "cover.jpg" in
  Dom.select (Dom.isTag "h1") (Mini.parse (breadcrumbHtml (title data))) = [] /\
  exists at_ kids,
    Dom.get d [0; 1; 0] = Some (Element "h1" at_ kids) /\
    kids = [Text "The Future of AI tools for productivity: What You Need to Know"].
Proof.
  intros data d. split; [vm_compute; reflexivity|].
  assert (Hget : Dom.get d [0; 1; 0] =
                 Some (Element "h1" []
                         [Text "The Future of AI tools for productivity: What You Need to Know"]))
    by (vm_compute; reflexivity).
  exists [], [Text "The Future of AI tools for productivity: What You Need to Know"].
  split; [exact Hget|].
  symmetry.
  refine (proj2 (updateTemplate_headings (cheerio := Mini.cheerio) (Mini.parse Sample.template)
                   data "cover.jpg" [0; 1; 0] _ _ Hget) eq_refl).
  intros ctx. split; vm_compute; reflexivity.
Defined.

Section FirstHeading.

Import Dom.

Variables (sel sel' : node -> bool) (k v : string).
Hypothesis sel_attr : forall m : node, sel (attrNode sel' k v m) = sel m.

(** Setting an attribute that the selector does not read moves no
    selection. *)
Lemma selNode_attrNode : forall n : node, selNode sel (attrNode sel' k v n) = selNode sel n.
Proof.
  fix IH 1. intros n. rewrite !selNode_eq, sel_attr. f_equal.
  destruct n as [| | |nm at_ cs]; try reflexivity.
  cbn [attrNode children]. generalize 0.
  induction cs as [|c cs IHcs]; intros i; [reflexivity|].
  cbn [map]. now rewrite !selFrom_cons, IH, IHcs.
Qed.

Lemma select_attrAll (d : list node) : select sel (attrAll sel' k v d) = select sel d.
Proof.
  rewrite !select_selFrom. unfold attrAll. generalize 0.
  induction d as [|c d IH]; intros i; [reflexivity|].
  cbn [map]. now rewrite !selFrom_cons, selNode_attrNode, IH.
Qed.

End FirstHeading.

Section FirstHeadingText.

Import Dom.

Lemma isTag_shallow (t : string) : shallow (isTag t).
Proof. intros nm at_ cs cs'. reflexivity. Qed.

Lemma isTag_attrNode (t k v : string) (sel' : node -> bool) (m : node) :
  isTag t (attrNode sel' k v m) = isTag t m.
Proof. now destruct m. Qed.

(** After the text of the first selected element has been set, that
    element is still the first that is selected. *)
Lemma select_first_setText (t s : string) (p : path) (ps : list path) (d : list node) :
  select (isTag t) d = p :: ps ->
  hd_error (select (isTag t) (updateAt (setText s) p d)) = Some p.
Proof.
  intros Hsel.
  destruct (select_sound (isTag t) p d) as (n & Hn & Sn); [rewrite Hsel; now left|].
  destruct (select_around (isTag t) p d n (isTag_shallow t) Hn) as (pre & post & E).
  pose proof (E (fun _ => n)) as E0. rewrite (updateAt_id p d n Hn), Hsel in E0.
  rewrite E. destruct pre as [|x pre].
  - rewrite selNode_eq. unfold setText. rewrite isTag_withChildren, Sn.
    cbn [app map hd_error]. now rewrite app_nil_r.
  - injection E0 as <- _. reflexivity.
Qed.

End FirstHeadingText.

(** X20.  Lines 181 and 182 give the first [h2] element of the document its
    text and nothing else.  When the document has an [h2] after the template
    update, the first one in document order is at the position [p] of the
    first [h2] before line 181; it has the name and the attributes that the
    node at [p] had before line 181, unchanged, and the title of the post as
    its one text child; and line 181 leaves every node apart from [p] as it
    was. *)
Theorem updateTemplate_first_heading {cheerio : Cheerio} (template : document)
    (blogData : GeneratedContent) (imageFile : string) (p : path) :
  let before := beforeFirstHeading template blogData imageFile in
  let after := updateTemplate template blogData imageFile in
  hd_error (Dom.select (Dom.isTag "h2") after) = Some p ->
  after =
    Dom.attrAll (Selector.imgAlt "AI Integration Blog") "src" ("./" ++ imageFile)%string
      (textFirst (Dom.isTag "h2") (title blogData) before) /\
  hd_error (Dom.select (Dom.isTag "h2") before) = Some p /\
  exists (at_ : list (string * string)) (kids : list node),
    Dom.get before p = Some (Element "h2" at_ kids) /\
    Dom.get after p = Some (Element "h2" at_ [Text (title blogData)]) /\
    (forall q : path, apart q p = true ->
       Dom.get (textFirst (Dom.isTag "h2") (title blogData) before) q = Dom.get before q).
Proof.
  intros before after H. split; [reflexivity|]. revert H.
  unfold after, updateTemplate. cbv zeta. fold (beforeFirstHeading template blogData imageFile).
  fold before.
  rewrite (select_attrAll _ _ _ _ (isTag_attrNode "h2" _ _ _)).
  rewrite get_attrAll. unfold textFirst.
  destruct (Dom.select (Dom.isTag "h2") before) as [|p0 ps] eqn:Hsel.
  - cbn [hd_error optList Dom.each fold_right]. now rewrite Hsel.
  - cbn [hd_error optList Dom.each fold_right].
    rewrite (select_first_setText "h2" _ p0 ps before Hsel). intros [= <-].
    split; [reflexivity|].
    destruct (select_sound (Dom.isTag "h2") p0 before) as (n & Hn & Sn); [rewrite Hsel; now left|].
    apply isTag_element in Sn as (at_ & cs & ->).
    exists at_, cs. split; [exact Hn|]. split.
    + now rewrite get_updateAt, Hn.
    + intros q Hq. now apply get_updateAt_apart.
Qed.

(** X20 on a page with two headings: the first keeps its class and gets
    the title, the second is left as it was. *)
Lemma updateTemplate_first_heading_sample :
  let page :=
    ("<html><head></head><body><h2 class=" ++ Js.dq ++ "lead" ++ Js.dq ++
     ">Old title</h2><h2>Related</h2></body></html>")%string in
  let data := generateFallbackContent "AI tools for productivity" in
  let after := updateTemplate (cheerio := Mini.cheerio) (Mini.parse page) data "cover.jpg" in
  hd_error (Dom.select (Dom.isTag "h2") after) = Some [0; 1; 0] /\
  Dom.get (Mini.parse page) [0; 1; 0] =
    Some (Element "h2" [("class", "lead")%string] [Text "Old title"]) /\
  Dom.get after [0; 1; 0] =
    Some (Element "h2" [("class", "lead")%string]
            [Text "The Future of AI tools for productivity: What You Need to Know"]) /\
  Dom.get after [0; 1; 1] = Some (Element "h2" [] [Text "Related"]).
Proof.
  intros page data after. split; [vm_compute; reflexivity|]. split; [vm_compute; reflexivity|].
  destruct (updateTemplate_first_heading (cheerio := Mini.cheerio) (Mini.parse page) data
              "cover.jpg" [0; 1; 0])
    as (_ & _ & at_ & kids & Hbefore & Hafter & _); [vm_compute; reflexivity|].
  vm_compute in Hbefore. injection Hbefore as <- <-.
  split; [exact Hafter | vm_compute; reflexivity].
Defined.
